(** * FlowCharter: a shallow embedding of the diagram editor

    The development follows the JavaScript sources:
    - [NodeTypes] (shape registry: defaults, hit test, connection points),
    - [CanvasManager] (graph store, camera, pointer gestures), with
      [Interaction] (hit testing, pointer handlers, toolbar and drop
      listeners), [ExportImage] (the frame of [exportAsPNG]) and [WrapText],
    - [ValidationEngine] (diagnostics, cycle search),
    - [StorageManager] (named slots in localStorage).

    JavaScript numbers are read as real numbers: [Math.max], [Math.abs],
    [Math.tan], [Math.cos], [Math.sin] are [Rmax], [Rabs], [tan], [cos],
    [sin]; [Math.atan2] is given by its mathematical definition.  Rounding,
    NaN and signed zeros are outside the model, and so is the value of
    [Math.tan] at odd multiples of PI/2: the connection point of a process
    or decision node is modelled for a target that differs from the node
    in [x].  Identifiers and texts are strings; arrays are lists; objects
    used as dictionaries are [gmap]s of their own keys.  The names such an
    object inherits from [Object.prototype] are listed in
    [ObjectPrototype], with what [addNode] does for them; [NodeTypes],
    [CanvasManager], [Interaction] and [ValidationEngine] are written for
    node types and ids that are none of these names. *)

From Stdlib Require Import Reals Lra Lia List String Ascii Bool Arith.
From Stdlib Require Import DecimalString DecimalNat.
From stdpp Require Import base gmap strings.
Import ListNotations.

Local Open Scope string_scope.

(** ** Data model (shared by all components) *)

(** [Node]: the object literal built by [CanvasManager.addNode]. *)
Record Node : Type := mkNode {
  nid : string;        (* id *)
  nodeType : string;
  nx : R;              (* x, centre *)
  ny : R;              (* y, centre *)
  width : R;
  height : R;
  text : string
}.

(** [Edge]: the object literal built by [CanvasManager.addEdge]. *)
Record Edge : Type := mkEdge {
  eid : string;        (* id *)
  sourceId : string;
  targetId : string;
  label : string
}.

Definition Point : Type := (R * R)%type.

(** Template-literal helpers. *)
Definition dquote : string := String "034"%char EmptyString.
Definition string_of_nat (n : nat) : string :=
  NilEmpty.string_of_uint (Nat.to_uint n).

(** ** NodeTypes: the shape registry *)

Module NodeTypes.
Local Open Scope R_scope.

(** [Math.atan2(y, x)] on real numbers. *)
Definition atan2 (y x : R) : R :=
  if Rlt_dec 0 x then atan (y / x)
  else if Rlt_dec x 0 then
    (if Rle_dec 0 y then atan (y / x) + PI else atan (y / x) - PI)
  else if Rlt_dec 0 y then PI / 2
  else if Rlt_dec y 0 then - (PI / 2)
  else 0.

(** What a [draw] call traces on the canvas context. *)
Inductive Outline : Type :=
| Ellipse (cx cy rx ry : R)          (* ctx.ellipse(cx, cy, rx, ry, 0, 0, 2*PI) *)
| Polygon (vertices : list Point).   (* moveTo, lineTo ..., closePath / ctx.rect *)

(** One entry of the [NodeTypes] table. *)
Record NodeType : Type := mkNodeType {
  color : string;
  defaultWidth : R;
  defaultHeight : R;
  draw : R -> R -> R -> R -> Outline;
  containsPoint : Node -> R -> R -> bool;
  getConnectionPoint : Node -> Point -> Point
}.

Definition gtb (a b : R) : bool := if Rlt_dec b a then true else false.
Definition ltb (a b : R) : bool := if Rlt_dec a b then true else false.
Definition leb (a b : R) : bool := if Rle_dec a b then true else false.
Definition geb (a b : R) : bool := if Rle_dec b a then true else false.

(** *** start / end: ellipse *)

Definition oval_draw (x y w h : R) : Outline :=
  Ellipse x y (w / 2) (h / 2).

Definition oval_containsPoint (node : Node) (x y : R) : bool :=
  let dx := (x - nx node) / (width node / 2) in
  let dy := (y - ny node) / (height node / 2) in
  leb (dx * dx + dy * dy) 1.

Definition oval_getConnectionPoint (node : Node) (targetNode : Point) : Point :=
  let angle := atan2 (snd targetNode - ny node) (fst targetNode - nx node) in
  (nx node + (width node / 2) * cos angle,
   ny node + (height node / 2) * sin angle).

Definition start : NodeType :=
  mkNodeType "#2ecc71" 100 50 oval_draw oval_containsPoint oval_getConnectionPoint.

Definition end_ : NodeType :=
  mkNodeType "#e74c3c" 100 50 oval_draw oval_containsPoint oval_getConnectionPoint.

(** *** process: rectangle

    For a target with the same [x] as the node, [angle] is a right angle
    and [Math.tan(angle)], about 1.6e16 in floating point, is outside the
    model: [process_getConnectionPoint] and [decision_getConnectionPoint]
    are the code for a target with another [x]. *)

Definition process_draw (x y w h : R) : Outline :=
  Polygon [ (x - w / 2, y - h / 2); (x - w / 2 + w, y - h / 2);
            (x - w / 2 + w, y - h / 2 + h); (x - w / 2, y - h / 2 + h) ].

Definition process_containsPoint (node : Node) (x y : R) : bool :=
  leb (Rabs (x - nx node)) (width node / 2) &&
  leb (Rabs (y - ny node)) (height node / 2).

Definition process_getConnectionPoint (node : Node) (targetNode : Point) : Point :=
  let halfWidth := width node / 2 in
  let halfHeight := height node / 2 in
  let dx := fst targetNode - nx node in
  let dy := snd targetNode - ny node in
  let angle := atan2 dy dx in
  if gtb (Rabs (tan angle)) (height node / width node) then
    let y := if gtb dy 0 then ny node + halfHeight else ny node - halfHeight in
    let x := nx node + halfHeight * tan (PI / 2 - angle)
                       * (if gtb dy 0 then 1 else -1) in
    (x, y)
  else
    let x := if gtb dx 0 then nx node + halfWidth else nx node - halfWidth in
    let y := ny node + halfWidth * tan angle * (if gtb dx 0 then 1 else -1) in
    (x, y).

Definition process : NodeType :=
  mkNodeType "#3498db" 120 60 process_draw process_containsPoint
             process_getConnectionPoint.

(** *** decision: rhombus *)

Definition decision_draw (x y w h : R) : Outline :=
  Polygon [ (x, y - h / 2); (x + w / 2, y); (x, y + h / 2); (x - w / 2, y) ].

Definition decision_containsPoint (node : Node) (x y : R) : bool :=
  let dx := Rabs (x - nx node) / (width node / 2) in
  let dy := Rabs (y - ny node) / (height node / 2) in
  leb (dx + dy) 1.

Definition decision_getConnectionPoint (node : Node) (targetNode : Point) : Point :=
  let halfWidth := width node / 2 in
  let halfHeight := height node / 2 in
  let dx := fst targetNode - nx node in
  let dy := snd targetNode - ny node in
  let angle := atan2 dy dx in
  let tanAngle := Rabs (tan angle) in
  let tanRatio := halfHeight / halfWidth in
  if ltb tanAngle tanRatio then
    let x := if gtb dx 0 then nx node + halfWidth else nx node - halfWidth in
    let y := ny node + (if gtb dy 0 then 1 else -1) * halfHeight
                       * (1 - Rabs dx / halfWidth) in
    (x, y)
  else
    let y := if gtb dy 0 then ny node + halfHeight else ny node - halfHeight in
    let x := nx node + (if gtb dx 0 then 1 else -1) * halfWidth
                       * (1 - Rabs dy / halfHeight) in
    (x, y).

Definition decision : NodeType :=
  mkNodeType "#f39c12" 120 80 decision_draw decision_containsPoint
             decision_getConnectionPoint.

(** *** input: parallelogram *)

Definition input_draw (x y w h : R) : Outline :=
  let offset := w / 4 in
  Polygon [ (x - w / 2 + offset, y - h / 2); (x + w / 2 + offset, y - h / 2);
            (x + w / 2 - offset, y + h / 2); (x - w / 2 - offset, y + h / 2) ].

Definition input_containsPoint (node : Node) (x y : R) : bool :=
  let halfWidth := width node / 2 in
  let halfHeight := height node / 2 in
  let offset := width node / 4 in
  if gtb (Rabs (y - ny node)) halfHeight then false
  else
    let relY := (y - ny node) / halfHeight in
    let leftX := nx node - halfWidth - offset * relY in
    let rightX := nx node + halfWidth - offset * relY in
    geb x leftX && leb x rightX.

Definition input_getConnectionPoint (node : Node) (targetNode : Point) : Point :=
  let halfWidth := width node / 2 in
  let halfHeight := height node / 2 in
  let offset := width node / 4 in
  let dx := fst targetNode - nx node in
  let dy := snd targetNode - ny node in
  let angle := atan2 dy dx in
  if gtb (Rabs angle) (PI * 3 / 4) || ltb (Rabs angle) (PI / 4) then
    let isRight := ltb (Rabs angle) (PI / 4) in
    let x := if isRight then nx node + halfWidth - offset
             else nx node - halfWidth - offset in
    let relY := tan angle * halfWidth in
    let y := ny node + (if isRight then relY else - relY) in
    (x, y)
  else
    let isBottom := gtb angle 0 in
    let y := if isBottom then ny node + halfHeight else ny node - halfHeight in
    let relX := halfHeight / tan (if isBottom then angle else angle + PI) in
    let x := nx node + relX in
    (x, y).

Definition input : NodeType :=
  mkNodeType "#9b59b6" 120 60 input_draw input_containsPoint
             input_getConnectionPoint.

(** The entries of the table itself.  [None] stands for an undefined
    [NodeTypes[name]]; a name inherited from [Object.prototype], for which
    [NodeTypes[name]] is not undefined, is told apart in
    [ObjectPrototype.entry]. *)
Definition lookup (name : string) : option NodeType :=
  if String.eqb name "start" then Some start
  else if String.eqb name "process" then Some process
  else if String.eqb name "decision" then Some decision
  else if String.eqb name "input" then Some input
  else if String.eqb name "end" then Some end_
  else None.

(** *** Outlines as point sets *)

Definition on_segment (p a b : Point) : Prop :=
  exists t : R, 0 <= t <= 1 /\
    fst p = fst a + t * (fst b - fst a) /\
    snd p = snd a + t * (snd b - snd a).

Fixpoint on_open_path (p : Point) (vs : list Point) : Prop :=
  match vs with
  | a :: ((b :: _) as rest) => on_segment p a b \/ on_open_path p rest
  | _ => False
  end.

Definition on_closed_path (p : Point) (vs : list Point) : Prop :=
  match vs with
  | [] => False
  | a :: _ => on_open_path p (vs ++ [a])
  end.

Definition on_outline (o : Outline) (p : Point) : Prop :=
  match o with
  | Ellipse cx cy rx ry =>
      ((fst p - cx) / rx) * ((fst p - cx) / rx)
      + ((snd p - cy) / ry) * ((snd p - cy) / ry) = 1
  | Polygon vs => on_closed_path p vs
  end.

(** The outline of a node: what its type's [draw] traces for its geometry. *)
Definition node_outline (t : NodeType) (node : Node) : Outline :=
  draw t (nx node) (ny node) (width node) (height node).

End NodeTypes.

(** ** CanvasManager: graph store, camera and pointer gestures *)

Module CanvasManager.
Local Open Scope R_scope.

Inductive Corner : Type := nw | ne | se | sw.

(** Items handed around by hit testing and selection:
    [{ type: 'node', ...node }], [{ type: 'edge', ...edge }] and
    [{ type: 'resize-handle', nodeId, position }]. *)
Inductive Item : Type :=
| NodeItem (n : Node)
| EdgeItem (e : Edge)
| ResizeHandle (nodeId : string) (position : Corner).

(** [item.id]; a resize handle has no [id] property. *)
Definition item_id (it : Item) : option string :=
  match it with
  | NodeItem n => Some (nid n)
  | EdgeItem e => Some (eid e)
  | ResizeHandle _ _ => None
  end.

(** The fields of [CanvasManager], grouped by concern.  [hoveredItem] is
    kept beside the state in [Interaction.UI]; the cursor style is left
    out, and so are the two callbacks, which the constructor leaves null. *)
Record Graph : Type := mkGraph {
  nodes : list Node;
  edges : list Edge;
  nodeCounter : nat;
  edgeCounter : nat
}.

Record Camera : Type := mkCamera {
  scale : R;
  offsetX : R;
  offsetY : R
}.

Record Gesture : Type := mkGesture {
  isDragging : bool;
  isPanning : bool;
  isResizing : bool;
  resizeDirection : option Corner;
  startX : R;
  startY : R;
  lastMouseX : R;
  lastMouseY : R
}.

Record State : Type := mkState {
  graph : Graph;
  camera : Camera;
  gesture : Gesture;
  selectedItem : option Item;
  mode : string;
  connectionStartNode : option string;
  currentFlowchartName : option string
}.

(** [canvas.getBoundingClientRect()], as far as the code reads it. *)
Record Rect : Type := mkRect { left : R; top : R }.

Record MouseEvent : Type := mkMouseEvent { clientX : R; clientY : R }.
Record WheelEvent : Type := mkWheelEvent { wClientX : R; wClientY : R; deltaY : R }.

(** The state the constructor leaves. *)
Definition init : State :=
  mkState (mkGraph [] [] 0 0) (mkCamera 1 0 0)
          (mkGesture false false false None 0 0 0 0)
          None "select" None None.

Definition with_graph (g : Graph) (st : State) : State :=
  mkState g (camera st) (gesture st) (selectedItem st) (mode st)
          (connectionStartNode st) (currentFlowchartName st).
Definition with_camera (c : Camera) (st : State) : State :=
  mkState (graph st) c (gesture st) (selectedItem st) (mode st)
          (connectionStartNode st) (currentFlowchartName st).
Definition with_gesture (g : Gesture) (st : State) : State :=
  mkState (graph st) (camera st) g (selectedItem st) (mode st)
          (connectionStartNode st) (currentFlowchartName st).
Definition selectItem (it : option Item) (st : State) : State :=
  mkState (graph st) (camera st) (gesture st) it (mode st)
          (connectionStartNode st) (currentFlowchartName st).

(** [arr.find(p)] followed by in-place assignments to the object found. *)
Fixpoint update_first {A : Type} (p : A -> bool) (f : A -> A) (l : list A)
  : list A :=
  match l with
  | [] => []
  | a :: rest => if p a then f a :: rest else a :: update_first p f rest
  end.

(** [s.charAt(0).toUpperCase() + s.slice(1)] on ASCII text. *)
Definition toUpperCase (c : ascii) : ascii :=
  let n := nat_of_ascii c in
  if (Nat.leb 97 n && Nat.leb n 122)%bool then ascii_of_nat (n - 32) else c.

Definition capitalize (s : string) : string :=
  match s with
  | EmptyString => EmptyString
  | String c rest => String (toUpperCase c) rest
  end.

Definition node_id (n : nat) : string := "node_" ++ string_of_nat n.
Definition edge_id (n : nat) : string := "edge_" ++ string_of_nat n.

(** [addNode(nodeType, x, y)] for a [nodeType] that is no name inherited
    from [Object.prototype]: [null] for a type that is not in the table
    ([ObjectPrototype.addNode] covers every name).  The call of
    [onFlowchartChange] that follows the push is left out. *)
Definition addNode (ty : string) (x y : R) (st : State) : option Node * State :=
  match NodeTypes.lookup ty with
  | None => (None, st)
  | Some t =>
      let g := graph st in
      let counter := S (nodeCounter g) in
      let node := mkNode (node_id counter) ty x y
                         (NodeTypes.defaultWidth t) (NodeTypes.defaultHeight t)
                         (capitalize ty) in
      (Some node,
       with_graph (mkGraph (nodes g ++ [node]) (edges g) counter (edgeCounter g)) st)
  end.

(** [addEdge(sourceId, targetId)]: [null] when that directed edge exists.
    The call of [onFlowchartChange] that follows the push is left out. *)
Definition same_ends (src tgt : string) (e : Edge) : bool :=
  String.eqb (sourceId e) src && String.eqb (targetId e) tgt.

Definition addEdge (src tgt : string) (st : State) : option Edge * State :=
  let g := graph st in
  match find (same_ends src tgt) (edges g) with
  | Some _ => (None, st)
  | None =>
      let counter := S (edgeCounter g) in
      let edge := mkEdge (edge_id counter) src tgt "" in
      (Some edge,
       with_graph (mkGraph (nodes g) (edges g ++ [edge]) (nodeCounter g) counter) st)
  end.

Definition has_nid (i : string) (n : Node) : bool := String.eqb (nid n) i.
Definition has_eid (i : string) (e : Edge) : bool := String.eqb (eid e) i.

Definition set_text (t : string) (n : Node) : Node :=
  mkNode (nid n) (nodeType n) (nx n) (ny n) (width n) (height n) t.
Definition set_label (l : string) (e : Edge) : Edge :=
  mkEdge (eid e) (sourceId e) (targetId e) l.

Definition updateNodeText (nodeId t : string) (st : State) : State :=
  let g := graph st in
  with_graph (mkGraph (update_first (has_nid nodeId) (set_text t) (nodes g))
                      (edges g) (nodeCounter g) (edgeCounter g)) st.

Definition updateEdgeLabel (edgeId l : string) (st : State) : State :=
  let g := graph st in
  with_graph (mkGraph (nodes g)
                      (update_first (has_eid edgeId) (set_label l) (edges g))
                      (nodeCounter g) (edgeCounter g)) st.

(** [deleteItem(item)]: a node goes with every edge touching it. *)
Definition deleteItem (item : option Item) (st : State) : State :=
  match item with
  | None => st
  | Some it =>
      let g := graph st in
      let g' :=
        match it with
        | NodeItem n =>
            mkGraph (List.filter (fun node => negb (String.eqb (nid node) (nid n))) (nodes g))
                    (List.filter (fun edge => negb (String.eqb (sourceId edge) (nid n))
                                         && negb (String.eqb (targetId edge) (nid n)))
                            (edges g))
                    (nodeCounter g) (edgeCounter g)
        | EdgeItem e =>
            mkGraph (nodes g)
                    (List.filter (fun edge => negb (String.eqb (eid edge) (eid e))) (edges g))
                    (nodeCounter g) (edgeCounter g)
        | ResizeHandle _ _ => g
        end in
      selectItem None (with_graph g' st)
  end.

Definition viewportToCanvas (rect : Rect) (st : State) (cx cy : R) : Point :=
  let c := camera st in
  ((cx - left rect) / scale c - offsetX c,
   (cy - top rect) / scale c - offsetY c).

Definition zoomIn (st : State) : State :=
  let c := camera st in with_camera (mkCamera (scale c * 1.1) (offsetX c) (offsetY c)) st.
Definition zoomOut (st : State) : State :=
  let c := camera st in with_camera (mkCamera (scale c * 0.9) (offsetX c) (offsetY c)) st.
Definition resetView (st : State) : State := with_camera (mkCamera 1 0 0) st.

Definition clear (st : State) : State :=
  mkState (mkGraph [] [] 0 0) (camera st) (gesture st) None (mode st) None None.

(** The object [saveFlowchart] returns, by value. *)
Record Snapshot : Type := mkSnapshot {
  s_nodes : list Node;
  s_edges : list Edge;
  s_nodeCounter : nat;
  s_edgeCounter : nat
}.

Definition saveFlowchart (st : State) : Snapshot :=
  let g := graph st in
  mkSnapshot (nodes g) (edges g) (nodeCounter g) (edgeCounter g).

(** What [loadFlowchart] may be handed: any of the properties may be missing. *)
Record FlowchartData : Type := mkData {
  d_nodes : option (list Node);
  d_edges : option (list Edge);
  d_nodeCounter : option nat;
  d_edgeCounter : option nat
}.

(** [loadFlowchart(data)]: [inl msg] stands for [throw new Error(msg)]. *)
Definition loadFlowchart (data : option FlowchartData) (st : State)
  : string + State :=
  match data with
  | Some (mkData (Some ns) (Some es) nc ec) =>
      inr (selectItem None
             (with_graph (mkGraph ns es (default 0%nat nc) (default 0%nat ec)) st))
  | _ => inl "Invalid flowchart data"
  end.

(** *** Pointer gestures *)

Definition move_by (dx dy : R) (n : Node) : Node :=
  mkNode (nid n) (nodeType n) (nx n + dx) (ny n + dy) (width n) (height n) (text n).

(** The [switch (this.resizeDirection)] of the resizing branch. *)
Definition resize (dir : option Corner) (dx dy : R) (n : Node) : Node :=
  match dir with
  | Some nw =>
      mkNode (nid n) (nodeType n) (nx n + dx / 2) (ny n + dy / 2)
             (Rmax 50 (width n - dx)) (Rmax 30 (height n - dy)) (text n)
  | Some ne =>
      mkNode (nid n) (nodeType n) (nx n + dx / 2) (ny n + dy / 2)
             (Rmax 50 (width n + dx)) (Rmax 30 (height n - dy)) (text n)
  | Some se =>
      mkNode (nid n) (nodeType n) (nx n + dx / 2) (ny n + dy / 2)
             (Rmax 50 (width n + dx)) (Rmax 30 (height n + dy)) (text n)
  | Some sw =>
      mkNode (nid n) (nodeType n) (nx n + dx / 2) (ny n + dy / 2)
             (Rmax 50 (width n - dx)) (Rmax 30 (height n + dy)) (text n)
  | None => n
  end.

(** [this.selectedItem && this.selectedItem.type === 'node']. *)
Definition selected_node (st : State) : option Node :=
  match selectedItem st with
  | Some (NodeItem n) => Some n
  | _ => None
  end.

(** Apply [f] to the node with the selected id and mirror its geometry
    into the selected item, then restart the delta from [(x, y)]. *)
Definition gesture_on_node (f : Node -> Node) (sel : Node) (x y : R) (st : State)
  : State :=
  let g := graph st in
  let gs := gesture st in
  match find (has_nid (nid sel)) (nodes g) with
  | None => st
  | Some node =>
      let node' := f node in
      let sel' := mkNode (nid sel) (nodeType sel) (nx node') (ny node')
                         (width node') (height node') (text sel) in
      mkState (mkGraph (update_first (has_nid (nid sel)) f (nodes g))
                       (edges g) (nodeCounter g) (edgeCounter g))
              (camera st)
              (mkGesture (isDragging gs) (isPanning gs) (isResizing gs)
                         (resizeDirection gs) x y (lastMouseX gs) (lastMouseY gs))
              (Some (NodeItem sel')) (mode st)
              (connectionStartNode st) (currentFlowchartName st)
  end.

(** In the dragging branch the selected item only mirrors [x] and [y]. *)
Definition drag_on_node (sel : Node) (dx dy x y : R) (st : State) : State :=
  let g := graph st in
  let gs := gesture st in
  match find (has_nid (nid sel)) (nodes g) with
  | None => st
  | Some node =>
      let node' := move_by dx dy node in
      let sel' := mkNode (nid sel) (nodeType sel) (nx node') (ny node')
                         (width sel) (height sel) (text sel) in
      mkState (mkGraph (update_first (has_nid (nid sel)) (move_by dx dy) (nodes g))
                       (edges g) (nodeCounter g) (edgeCounter g))
              (camera st)
              (mkGesture (isDragging gs) (isPanning gs) (isResizing gs)
                         (resizeDirection gs) x y (lastMouseX gs) (lastMouseY gs))
              (Some (NodeItem sel')) (mode st)
              (connectionStartNode st) (currentFlowchartName st)
  end.

Definition handleMouseMove (rect : Rect) (e : MouseEvent) (st0 : State) : State :=
  let gs0 := gesture st0 in
  let st := with_gesture (mkGesture (isDragging gs0) (isPanning gs0) (isResizing gs0)
                                    (resizeDirection gs0) (startX gs0) (startY gs0)
                                    (clientX e) (clientY e)) st0 in
  let gs := gesture st in
  let '(x, y) := viewportToCanvas rect st (clientX e) (clientY e) in
  let dx := x - startX gs in
  let dy := y - startY gs in
  match isDragging gs, isResizing gs, selected_node st with
  | true, _, Some sel => drag_on_node sel dx dy x y st
  | _, true, Some sel => gesture_on_node (resize (resizeDirection gs) dx dy) sel x y st
  | _, _, _ =>
      if isPanning gs then
        let c := camera st in
        with_gesture (mkGesture (isDragging gs) (isPanning gs) (isResizing gs)
                                (resizeDirection gs) (x - dx) (y - dy)
                                (lastMouseX gs) (lastMouseY gs))
          (with_camera (mkCamera (scale c) (offsetX c + dx) (offsetY c + dy)) st)
      else st   (* hover: only [hoveredItem] and the cursor change *)
  end.

Definition handleWheel (rect : Rect) (e : WheelEvent) (st : State) : State :=
  let c := camera st in
  let '(x, y) := viewportToCanvas rect st (wClientX e) (wClientY e) in
  let delta := if NodeTypes.ltb (deltaY e) 0 then 1.1 else 0.9 in
  with_camera (mkCamera (scale c * delta)
                        (x - (x - offsetX c) * delta)
                        (y - (y - offsetY c) * delta)) st.

(** *** Corners of a node's bounding box *)

Definition corner (c : Corner) (n : Node) : Point :=
  match c with
  | nw => (nx n - width n / 2, ny n - height n / 2)
  | ne => (nx n + width n / 2, ny n - height n / 2)
  | se => (nx n + width n / 2, ny n + height n / 2)
  | sw => (nx n - width n / 2, ny n + height n / 2)
  end.

Definition opposite (c : Corner) : Corner :=
  match c with nw => se | ne => sw | se => nw | sw => ne end.

(** The width and height the pointer delta asks for, before the floor. *)
Definition requested_width (c : Corner) (dx : R) (n : Node) : R :=
  match c with nw | sw => width n - dx | ne | se => width n + dx end.
Definition requested_height (c : Corner) (dy : R) (n : Node) : R :=
  match c with nw | ne => height n - dy | se | sw => height n + dy end.

(** *** Sequences of store operations

    [OpSelectItem] and [OpSetGesture] stand for what [handleMouseDown] and
    [handleMouseUp] do to the selection and to the gesture fields; any value
    is allowed. *)

Inductive Op : Type :=
| OpAddNode (ty : string) (x y : R)
| OpAddEdge (src tgt : string)
| OpUpdateNodeText (nodeId t : string)
| OpUpdateEdgeLabel (edgeId l : string)
| OpDeleteItem (item : option Item)
| OpSelectItem (item : option Item)
| OpSetGesture (g : Gesture)
| OpMouseMove (rect : Rect) (e : MouseEvent)
| OpWheel (rect : Rect) (e : WheelEvent)
| OpClear.

Definition step (op : Op) (st : State) : State :=
  match op with
  | OpAddNode ty x y => snd (addNode ty x y st)
  | OpAddEdge src tgt => snd (addEdge src tgt st)
  | OpUpdateNodeText i t => updateNodeText i t st
  | OpUpdateEdgeLabel i l => updateEdgeLabel i l st
  | OpDeleteItem it => deleteItem it st
  | OpSelectItem it => selectItem it st
  | OpSetGesture g => with_gesture g st
  | OpMouseMove rect e => handleMouseMove rect e st
  | OpWheel rect e => handleWheel rect e st
  | OpClear => clear st
  end.

Definition run (ops : list Op) (st : State) : State :=
  fold_left (fun s op => step op s) ops st.

(** All edges resolve to live nodes. *)
Definition is_live (g : Graph) (i : string) : Prop :=
  exists n, In n (nodes g) /\ nid n = i.

Definition no_dangling (g : Graph) : Prop :=
  forall e, In e (edges g) -> is_live g (sourceId e) /\ is_live g (targetId e).

(** Every node respects the size floor. *)
Definition size_ok (g : Graph) : Prop :=
  forall n, In n (nodes g) -> 50 <= width n /\ 30 <= height n.

(** The number of edges from [src] to [tgt]. *)
Definition count_edges (src tgt : string) (g : Graph) : nat :=
  length (List.filter (same_ends src tgt) (edges g)).

(** [addEdge] is given the ids of two live nodes. *)
Definition well_addressed (g : Graph) (op : Op) : Prop :=
  match op with
  | OpAddEdge src tgt => is_live g src /\ is_live g tgt
  | _ => True
  end.

End CanvasManager.

(** ** Plain objects read by name

    [NodeTypes], and the objects [graph], [visited] and [recStack] of the
    cycle search, are plain objects, read as [obj[name]] with a name that
    comes from a drop or from the flowchart.  For a name that is no key of
    the object itself, such a read finds the property of that name on
    [Object.prototype], if there is one: a function, or [Object.prototype]
    itself for [__proto__].  Each of these values is truthy, is not
    iterable, and has no property [defaultWidth], [defaultHeight],
    [containsPoint] or [push]. *)

Module ObjectPrototype.
Import CanvasManager.
Local Open Scope R_scope.

(** The property names of [Object.prototype]. *)
Definition names : list string :=
  ["constructor"; "hasOwnProperty"; "isPrototypeOf"; "propertyIsEnumerable";
   "toLocaleString"; "toString"; "valueOf"; "__proto__";
   "__defineGetter__"; "__defineSetter__"; "__lookupGetter__";
   "__lookupSetter__"].

Definition inherited (name : string) : bool :=
  existsb (String.eqb name) names.

(** *** [NodeTypes[name]] *)

Inductive Entry : Type :=
| Own (t : NodeTypes.NodeType)   (* an entry of the table *)
| Inherited                      (* a property of Object.prototype *)
| Absent.                        (* undefined *)

Definition entry (name : string) : Entry :=
  match NodeTypes.lookup name with
  | Some t => Own t
  | None => if inherited name then Inherited else Absent
  end.

(** A number, or [undefined]. *)
Inductive Size : Type :=
| Number (r : R)
| Undefined.

(** [NodeTypes[name].defaultWidth] and [NodeTypes[name].defaultHeight] for
    a truthy [NodeTypes[name]]. *)
Definition entry_width (e : Entry) : Size :=
  match e with
  | Own t => Number (NodeTypes.defaultWidth t)
  | _ => Undefined
  end.
Definition entry_height (e : Entry) : Size :=
  match e with
  | Own t => Number (NodeTypes.defaultHeight t)
  | _ => Undefined
  end.

(** The object literal of [addNode], with what its [width] and [height]
    can be. *)
Record NodeObject : Type := mkNodeObject {
  o_id : string;
  o_nodeType : string;
  o_x : R;
  o_y : R;
  o_width : Size;
  o_height : Size;
  o_text : string
}.

(** [this.nodes] and [this.nodeCounter]. *)
Record NodeStore : Type := mkNodeStore {
  objects : list NodeObject;
  counter : nat
}.

(** [addNode(nodeType, x, y)], for every string [nodeType]: [null] only
    when [NodeTypes[nodeType]] is undefined.  The call of
    [onFlowchartChange] that follows the push is left out. *)
Definition addNode (ty : string) (x y : R) (s : NodeStore)
  : option NodeObject * NodeStore :=
  match entry ty with
  | Absent => (None, s)
  | e =>
      let c := S (counter s) in
      let node := mkNodeObject (node_id c) ty x y (entry_width e) (entry_height e)
                               (capitalize ty) in
      (Some node, mkNodeStore (objects s ++ [node]) c)
  end.

(** [size >= floor]: false of [undefined]. *)
Definition at_least (floor : R) (size : Size) : Prop :=
  match size with
  | Number r => floor <= r
  | Undefined => False
  end.

Definition floor_met (o : NodeObject) : Prop :=
  at_least 50 (o_width o) /\ at_least 30 (o_height o).

(** The nodes of [CanvasManager], whose sizes are numbers, as objects. *)
Definition object_of (n : Node) : NodeObject :=
  mkNodeObject (nid n) (nodeType n) (nx n) (ny n)
               (Number (width n)) (Number (height n)) (text n).

Definition store_of (g : Graph) : NodeStore :=
  mkNodeStore (map object_of (nodes g)) (nodeCounter g).

(** The operation adds no node whose type is an inherited name. *)
Definition table_op (op : Op) : Prop :=
  match op with
  | OpAddNode ty _ _ => inherited ty = false
  | _ => True
  end.

(** *** The names a flowchart brings *)

(** No id of a node and no end of an edge is an inherited name: the reads
    of [graph], [visited] and [recStack] find own keys only. *)
Definition plain_ids (nodes : list Node) (edges : list Edge) : bool :=
  forallb (fun n => negb (inherited (nid n))) nodes
  && forallb (fun e => negb (inherited (sourceId e))
                       && negb (inherited (targetId e))) edges.

(** No type of a node is an inherited name: [NodeTypes[node.nodeType]] is
    an entry of the table or undefined. *)
Definition table_types (nodes : list Node) : bool :=
  forallb (fun n => negb (inherited (nodeType n))) nodes.

End ObjectPrototype.

(** ** CanvasManager with object identity

    Nodes, edges and arrays are JavaScript objects: [this.nodes] holds
    references, [push] and property assignments change an object in place,
    [filter] and the spread [[...arr]] allocate a new array.  This model keeps
    the objects in a store and passes addresses, for the properties that
    depend on sharing. *)

Module Heap.
Import CanvasManager.
Local Open Scope list_scope.

(** Addresses of objects in the store. *)
Abbreviation addr := nat (only parsing).

Record HState : Type := mkHState {
  nodeObjs : list Node;          (* node objects, by address *)
  edgeObjs : list Edge;          (* edge objects, by address *)
  arrays : list (list addr);     (* array objects, by address *)
  this_nodes : addr;             (* this.nodes *)
  this_edges : addr;             (* this.edges *)
  this_nodeCounter : nat;
  this_edgeCounter : nat
}.

(** The object [saveFlowchart] returns: two array references, two numbers. *)
Record HSnapshot : Type := mkHSnapshot {
  snap_nodes : addr;
  snap_edges : addr;
  snap_nodeCounter : nat;
  snap_edgeCounter : nat
}.

(** [new CanvasManager]: two fresh empty arrays. *)
Definition h_init : HState := mkHState [] [] [ []; [] ] 0 1 0 0.

Definition array_at (s : HState) (a : addr) : list addr :=
  default [] (arrays s !! a).

(** Reading an array of nodes (of edges) through the store. *)
Definition read_nodes (s : HState) (a : addr) : list Node :=
  omap (fun p => nodeObjs s !! p) (array_at s a).
Definition read_edges (s : HState) (a : addr) : list Edge :=
  omap (fun p => edgeObjs s !! p) (array_at s a).

Definition node_at_has (s : HState) (p : Node -> bool) (a : addr) : bool :=
  match nodeObjs s !! a with Some n => p n | None => false end.
Definition edge_at_has (s : HState) (p : Edge -> bool) (a : addr) : bool :=
  match edgeObjs s !! a with Some e => p e | None => false end.

Definition h_addNode (ty : string) (x y : R) (s : HState) : option addr * HState :=
  match NodeTypes.lookup ty with
  | None => (None, s)
  | Some t =>
      let counter := S (this_nodeCounter s) in
      let node := mkNode (node_id counter) ty x y
                         (NodeTypes.defaultWidth t) (NodeTypes.defaultHeight t)
                         (capitalize ty) in
      let a := length (nodeObjs s) in
      (Some a,
       mkHState (nodeObjs s ++ [node]) (edgeObjs s)
                (<[this_nodes s := (array_at s (this_nodes s) ++ [a])%list]> (arrays s))
                (this_nodes s) (this_edges s) counter (this_edgeCounter s))
  end.

Definition h_addEdge (src tgt : string) (s : HState) : option addr * HState :=
  match find (edge_at_has s (same_ends src tgt)) (array_at s (this_edges s)) with
  | Some _ => (None, s)
  | None =>
      let counter := S (this_edgeCounter s) in
      let edge := mkEdge (edge_id counter) src tgt "" in
      let a := length (edgeObjs s) in
      (Some a,
       mkHState (nodeObjs s) (edgeObjs s ++ [edge])
                (<[this_edges s := (array_at s (this_edges s) ++ [a])%list]> (arrays s))
                (this_nodes s) (this_edges s) (this_nodeCounter s) counter)
  end.

(** [const node = this.nodes.find(n => n.id === nodeId); if (node) f(node)]. *)
Definition h_mutate_node (nodeId : string) (f : Node -> Node) (s : HState) : HState :=
  match find (node_at_has s (has_nid nodeId)) (array_at s (this_nodes s)) with
  | None => s
  | Some a =>
      mkHState (alter f a (nodeObjs s)) (edgeObjs s) (arrays s)
               (this_nodes s) (this_edges s) (this_nodeCounter s) (this_edgeCounter s)
  end.

Definition h_mutate_edge (edgeId : string) (f : Edge -> Edge) (s : HState) : HState :=
  match find (edge_at_has s (has_eid edgeId)) (array_at s (this_edges s)) with
  | None => s
  | Some a =>
      mkHState (nodeObjs s) (alter f a (edgeObjs s)) (arrays s)
               (this_nodes s) (this_edges s) (this_nodeCounter s) (this_edgeCounter s)
  end.

Definition h_updateNodeText (nodeId t : string) : HState -> HState :=
  h_mutate_node nodeId (set_text t).
Definition h_updateEdgeLabel (edgeId l : string) : HState -> HState :=
  h_mutate_edge edgeId (set_label l).
(** The assignments of the dragging and resizing branches of [handleMouseMove]. *)
Definition h_moveNode (nodeId : string) (dx dy : R) : HState -> HState :=
  h_mutate_node nodeId (move_by dx dy).
Definition h_resizeNode (nodeId : string) (dir : option Corner) (dx dy : R)
  : HState -> HState :=
  h_mutate_node nodeId (resize dir dx dy).

(** [deleteItem]: [filter] builds new arrays, the old ones are left as they are. *)
Definition h_deleteItem (item : option Item) (s : HState) : HState :=
  match item with
  | None => s
  | Some (NodeItem n) =>
      let ns := List.filter (node_at_has s (fun node => negb (String.eqb (nid node) (nid n))))
                       (array_at s (this_nodes s)) in
      let es := List.filter (edge_at_has s
                          (fun edge => negb (String.eqb (sourceId edge) (nid n))
                                       && negb (String.eqb (targetId edge) (nid n))))
                       (array_at s (this_edges s)) in
      let a := length (arrays s) in
      mkHState (nodeObjs s) (edgeObjs s) (arrays s ++ [ns; es]) a (S a)
               (this_nodeCounter s) (this_edgeCounter s)
  | Some (EdgeItem e) =>
      let es := List.filter (edge_at_has s (fun edge => negb (String.eqb (eid edge) (eid e))))
                       (array_at s (this_edges s)) in
      mkHState (nodeObjs s) (edgeObjs s) (arrays s ++ [es])
               (this_nodes s) (length (arrays s))
               (this_nodeCounter s) (this_edgeCounter s)
  | Some (ResizeHandle _ _) => s
  end.

(** [saveFlowchart]: [[...this.nodes]] and [[...this.edges]] are new arrays
    holding the same references. *)
Definition h_saveFlowchart (s : HState) : HSnapshot * HState :=
  let a := length (arrays s) in
  (mkHSnapshot a (S a) (this_nodeCounter s) (this_edgeCounter s),
   mkHState (nodeObjs s) (edgeObjs s)
            (arrays s ++ [array_at s (this_nodes s); array_at s (this_edges s)])
            (this_nodes s) (this_edges s)
            (this_nodeCounter s) (this_edgeCounter s)).

(** Operations on the live graph after a save. *)
Inductive Structural : Type :=
| SAddNode (ty : string) (x y : R)
| SAddEdge (src tgt : string)
| SDeleteItem (item : option Item).

Inductive InPlace : Type :=
| MUpdateNodeText (nodeId t : string)
| MUpdateEdgeLabel (edgeId l : string)
| MMoveNode (nodeId : string) (dx dy : R)
| MResizeNode (nodeId : string) (dir : option Corner) (dx dy : R).

Definition structural (op : Structural) (s : HState) : HState :=
  match op with
  | SAddNode ty x y => snd (h_addNode ty x y s)
  | SAddEdge src tgt => snd (h_addEdge src tgt s)
  | SDeleteItem it => h_deleteItem it s
  end.

Definition in_place (op : InPlace) (s : HState) : HState :=
  match op with
  | MUpdateNodeText i t => h_updateNodeText i t s
  | MUpdateEdgeLabel i l => h_updateEdgeLabel i l s
  | MMoveNode i dx dy => h_moveNode i dx dy s
  | MResizeNode i d dx dy => h_resizeNode i d dx dy s
  end.

(** The live arrays exist in the store. *)
Definition live_arrays (s : HState) : Prop :=
  this_nodes s < length (arrays s) /\ this_edges s < length (arrays s).

(** The value-level graph a store state denotes. *)
Definition view (s : HState) : Graph :=
  mkGraph (read_nodes s (this_nodes s)) (read_edges s (this_edges s))
          (this_nodeCounter s) (this_edgeCounter s).

(** The two live arrays are distinct objects of the store; every reference
    they hold is the address of an object, and none is held twice. *)
Definition wf (s : HState) : Prop :=
  live_arrays s
  /\ this_nodes s <> this_edges s
  /\ Forall (fun p => p < length (nodeObjs s)) (array_at s (this_nodes s))
  /\ Forall (fun p => p < length (edgeObjs s)) (array_at s (this_edges s))
  /\ NoDup (array_at s (this_nodes s))
  /\ NoDup (array_at s (this_edges s)).

(** A snapshot whose two arrays are objects of their own, apart from the
    live arrays, and hold addresses of objects. *)
Definition detached (snap : HSnapshot) (s : HState) : Prop :=
  snap_nodes snap < length (arrays s) /\ snap_edges snap < length (arrays s)
  /\ snap_nodes snap <> this_nodes s /\ snap_nodes snap <> this_edges s
  /\ snap_edges snap <> this_nodes s /\ snap_edges snap <> this_edges s
  /\ Forall (fun p => p < length (nodeObjs s)) (array_at s (snap_nodes snap))
  /\ Forall (fun p => p < length (edgeObjs s)) (array_at s (snap_edges snap)).

(** [s'] has the objects of [s] unchanged, possibly more of them, and has
    left alone every array that is not a live array of [s]. *)
Definition extends (s s' : HState) : Prop :=
  (exists more, nodeObjs s' = nodeObjs s ++ more)
  /\ (exists more, edgeObjs s' = edgeObjs s ++ more)
  /\ length (arrays s) <= length (arrays s')
  /\ (forall a, a < length (arrays s) -> a <> this_nodes s -> a <> this_edges s ->
                arrays s' !! a = arrays s !! a)
  /\ (this_nodes s' = this_nodes s \/ length (arrays s) <= this_nodes s')
  /\ (this_edges s' = this_edges s \/ length (arrays s) <= this_edges s').

Definition run_structural (ops : list Structural) (s : HState) : HState :=
  fold_left (fun st op => structural op st) ops s.

(** What a snapshot shows when its arrays are read. *)
Definition snapshot_view (snap : HSnapshot) (s : HState) : list Node * list Edge :=
  (read_nodes s (snap_nodes snap), read_edges s (snap_edges snap)).

(** The store operation of [CanvasManager] a structural operation stands for. *)
Definition as_op (op : Structural) : Op :=
  match op with
  | SAddNode ty x y => OpAddNode ty x y
  | SAddEdge src tgt => OpAddEdge src tgt
  | SDeleteItem item => OpDeleteItem item
  end.

End Heap.

(** ** ValidationEngine *)

Module ValidationEngine.
Local Open Scope list_scope.

Definition msg_no_start : string :=
  "No start node found. Add a start node to your flowchart.".
Definition msg_multiple_start : string :=
  "Multiple start nodes found. A flowchart should have only one start node.".
Definition msg_no_end : string :=
  "No end node found. Add an end node to your flowchart.".
Definition msg_cycle_generic : string := "Cycle detected in the flowchart.".

(** The separator of [cycle.join(...)], byte for byte as the source file has it. *)
Definition cycle_separator : string :=
  String " "%char
    (String "195"%char (String "162"%char
    (String "226"%char (String "128"%char (String "160"%char
    (String "226"%char (String "128"%char (String "153"%char
    (String " "%char EmptyString))))))))).

Definition quoted (s : string) : string := dquote +:+ s +:+ dquote.

Definition is_type (t : string) (n : Node) : bool := String.eqb (nodeType n) t.

Definition checkUnconnectedNodes (nodes : list Node) (edges : list Edge)
    (messages : list string) : list string :=
  fold_left
    (fun msgs node =>
       let isEndNode := is_type "end" node in
       let isStartNode := is_type "start" node in
       let hasIncoming :=
         isStartNode || existsb (fun edge => String.eqb (targetId edge) (nid node)) edges in
       let hasOutgoing :=
         isEndNode || existsb (fun edge => String.eqb (sourceId edge) (nid node)) edges in
       if negb hasIncoming && negb hasOutgoing then
         msgs ++ ["Node " +:+ quoted (text node) +:+ " is completely disconnected."]
       else if negb hasIncoming then
         msgs ++ ["Node " +:+ quoted (text node) +:+ " has no incoming connections."]
       else if negb hasOutgoing && negb isEndNode then
         msgs ++ ["Node " +:+ quoted (text node) +:+ " has no outgoing connections."]
       else msgs)
    nodes messages.

(** The adjacency object [graph] of [checkForCycles], for ids that are no
    names inherited from [Object.prototype]
    ([ObjectPrototype.plain_ids]). *)
Definition build_graph (nodes : list Node) (edges : list Edge)
  : gmap string (list string) :=
  let g0 := fold_left (fun g node => <[nid node := []]> g) nodes ∅ in
  fold_left
    (fun g edge =>
       match g !! sourceId edge with
       | Some targets => <[sourceId edge := (targets ++ [targetId edge])%list]> g
       | None => g
       end)
    edges g0.

(** The variables the closure [dfs] shares with [checkForCycles]. *)
Record Search : Type := mkSearch {
  visited : gmap string bool;
  recStack : gmap string bool;
  messages : list string;
  cycleFound : bool
}.

(** [obj[key]] used as a condition, for a [key] that is no name inherited
    from [Object.prototype]. *)
Definition truthy (m : gmap string bool) (k : string) : bool :=
  match m !! k with Some true => true | _ => false end.

Inductive Outcome : Type :=
| Returned (result : bool) (s : Search)
| Thrown (s : Search)          (* TypeError: graph[nodeId] is not iterable *)
| OutOfFuel.

Fixpoint indexOf (x : string) (l : list string) : option nat :=
  match l with
  | [] => None
  | y :: rest => if String.eqb y x then Some 0
                 else option_map S (indexOf x rest)
  end.

Definition label_of (nodes : list Node) (i : string) : string :=
  match find (fun n => String.eqb (nid n) i) nodes with
  | Some node => text node
  | None => i
  end.

(** The message for a back edge to [neighbor], found with [path] on the stack. *)
Definition cycle_message (nodes : list Node) (path : list string) (neighbor : string)
  : string :=
  match indexOf neighbor path with
  | Some cycleStart =>
      let cycle := map (label_of nodes) (skipn cycleStart path) in
      let closed := match cycle with
                    | [] => cycle
                    | first :: _ => (cycle ++ [first])%list
                    end in
      "Cycle detected: " +:+ String.concat cycle_separator closed
  | None => msg_cycle_generic
  end.

Section Dfs.
Variable nodes : list Node.
Variable graph : gmap string (list string).

(** The loop [for (const neighbor of graph[nodeId])] of [dfs], with [path]
    already holding [nodeId]; [recurse] is [dfs] itself. *)
Fixpoint visit_neighbors (recurse : string -> list string -> Search -> Outcome)
    (nodeId : string) (path : list string) (neighbors : list string) (s : Search)
  : Outcome :=
  match neighbors with
  | [] => Returned false
            (mkSearch (visited s) (<[nodeId := false]> (recStack s))
                      (messages s) (cycleFound s))
  | neighbor :: rest =>
      if negb (truthy (visited s) neighbor) then
        match recurse neighbor path s with
        | Returned true s' => Returned true s'
        | Returned false s' => visit_neighbors recurse nodeId path rest s'
        | other => other
        end
      else if truthy (recStack s) neighbor then
        Returned true
          (mkSearch (visited s) (recStack s)
                    (messages s ++ [cycle_message nodes path neighbor])
                    true)
      else visit_neighbors recurse nodeId path rest s
  end.

(** [dfs(nodeId, path)]; every recursive call gets its own copy of the path. *)
Fixpoint dfs (fuel : nat) (nodeId : string) (path0 : list string) (s0 : Search)
  : Outcome :=
  match fuel with
  | O => OutOfFuel
  | S fuel' =>
      let s1 := mkSearch (<[nodeId := true]> (visited s0))
                         (<[nodeId := true]> (recStack s0))
                         (messages s0) (cycleFound s0) in
      let path := path0 ++ [nodeId] in
      match graph !! nodeId with
      | None => Thrown s1
      | Some neighbors => visit_neighbors (dfs fuel') nodeId path neighbors s1
      end
  end.

(** [for (const n of roots) if (!visited[n.id]) dfs(n.id)]. *)
Fixpoint dfs_from (fuel : nat) (roots : list Node) (s : Search) : Outcome :=
  match roots with
  | [] => Returned (cycleFound s) s
  | root :: rest =>
      if negb (truthy (visited s) (nid root)) then
        match dfs fuel (nid root) [] s with
        | Returned _ s' => dfs_from fuel rest s'
        | other => other
        end
      else dfs_from fuel rest s
  end.

End Dfs.

Definition checkForCycles (nodes : list Node) (edges : list Edge)
    (messages0 : list string) : Outcome :=
  let graph := build_graph nodes edges in
  let fuel := S (length nodes) in
  let s0 := mkSearch ∅ ∅ messages0 false in
  let localStartNodes := List.filter (is_type "start") nodes in
  match dfs_from nodes graph fuel localStartNodes s0 with
  | Returned _ s1 =>
      if Nat.eqb (length localStartNodes) 0
         || Nat.ltb (size (visited s1)) (length nodes)
      then dfs_from nodes graph fuel nodes s1
      else Returned (cycleFound s1) s1
  | other => other
  end.

Definition checkDecisionNodes (nodes : list Node) (edges : list Edge)
    (messages : list string) : list string :=
  let decisionNodes := List.filter (is_type "decision") nodes in
  fold_left
    (fun msgs node =>
       let outgoingEdges :=
         List.filter (fun edge => String.eqb (sourceId edge) (nid node)) edges in
       let outgoingCount := length outgoingEdges in
       let msgs1 :=
         if Nat.ltb outgoingCount 2 then
           msgs ++ ["Decision node " +:+ quoted (text node)
                    +:+ " should have at least 2 outgoing paths."]
         else msgs in
       let unlabeledEdges :=
         List.filter (fun edge => String.eqb (label edge) "") outgoingEdges in
       if Nat.leb 2 outgoingCount && Nat.ltb 0 (length unlabeledEdges) then
         msgs1 ++ ["Decision node " +:+ quoted (text node) +:+ " has "
                   +:+ string_of_nat (length unlabeledEdges)
                   +:+ " unlabeled outgoing paths."]
       else msgs1)
    decisionNodes messages.

(** How a validation run ends, with [this.messages] at that point. *)
Inductive Run : Type :=
| Completed (messages : list string)
| Raised (messages : list string)
| Unfinished.

Definition validateFlowchart (nodes : list Node) (edges : list Edge) : Run :=
  if Nat.eqb (length nodes) 0 then Completed []
  else
    let startNodes := List.filter (is_type "start") nodes in
    let m1 := if Nat.eqb (length startNodes) 0 then [msg_no_start]
              else if Nat.ltb 1 (length startNodes) then [msg_multiple_start]
              else [] in
    let endNodes := List.filter (is_type "end") nodes in
    let m2 := if Nat.eqb (length endNodes) 0 then (m1 ++ [msg_no_end])%list else m1 in
    let m3 := checkUnconnectedNodes nodes edges m2 in
    match checkForCycles nodes edges m3 with
    | Returned _ s => Completed (checkDecisionNodes nodes edges (messages s))
    | Thrown s => Raised (messages s)
    | OutOfFuel => Unfinished
    end.

(** The messages of a cycle report. *)
Definition is_cycle_message (m : string) : bool :=
  String.prefix "Cycle detected" m.

Definition cycle_messages (r : Outcome) : list string :=
  match r with
  | Returned _ s | Thrown s => List.filter is_cycle_message (messages s)
  | OutOfFuel => []
  end.

(** The ids among [ids] that the search has not marked yet. *)
Definition unvisited (ids : list string) (v : gmap string bool) : nat :=
  length (List.filter (fun i => negb (truthy v i)) ids).

(** From [s] to [s'] the search only marks more nodes and only adds messages. *)
Definition grows (s s' : Search) : Prop :=
  (forall k, truthy (visited s) k = true -> truthy (visited s') k = true)
  /\ (exists more, messages s' = messages s ++ more).

(** The call came back, by return or by exception, from a grown state. *)
Definition settled (s : Search) (r : Outcome) : Prop :=
  match r with
  | Returned _ s' | Thrown s' => grows s s'
  | OutOfFuel => False
  end.

(** The flowchart as a directed graph: an edge of the list leads from [a]
    to [b]. *)
Definition linked (edges : list Edge) (a b : string) : Prop :=
  exists e, In e edges /\ sourceId e = a /\ targetId e = b.

(** Each id of the walk is linked to the next. *)
Fixpoint chain (edges : list Edge) (walk : list string) : Prop :=
  match walk with
  | a :: ((b :: _) as rest) => linked edges a b /\ chain edges rest
  | _ => True
  end.

(** A walk along at least one edge that comes back to where it starts. *)
Definition has_cycle (edges : list Edge) : Prop :=
  exists a inner, chain edges (a :: inner ++ [a]).

(** The search came back without a report: nothing found, no message
    added, and the recursion stack inside [path0]. *)
Definition quiet (path0 : list string) (s : Search) (r : Outcome) : Prop :=
  match r with
  | Returned found s' =>
      found = false /\ messages s' = messages s /\ cycleFound s' = cycleFound s
      /\ (forall k, truthy (recStack s') k = true -> In k path0)
  | Thrown s' => messages s' = messages s
  | OutOfFuel => True
  end.

End ValidationEngine.

(** ** StorageManager *)

Module StorageManager.
Local Open Scope list_scope.

Inductive Exn : Type :=
| DOMException (name message : string)
| Error (message : string)
| TypeError (message : string)
| SyntaxError (message : string).

Definition exn_message (e : Exn) : string :=
  match e with
  | DOMException _ m | Error m | TypeError m | SyntaxError m => m
  end.

Definition FLOWCHART_LIST_KEY : string := "flowcharter_flowchart_list".
Definition FLOWCHART_PREFIX : string := "flowcharter_flowchart_".

Section Storage.
(** The flowchart data handed to [saveFlowchart]. *)
Variable Data : Type.

(** A stored text is represented by what [JSON.parse] makes of it: texts
    written by [JSON.stringify] parse back to the value written. *)
Inductive JSON : Type :=
| JNames (names : list string)
| JData (data : Data).

Inductive Text : Type :=
| TEmpty                       (* the empty string *)
| TJson (v : JSON)             (* JSON.stringify(v) *)
| TGarbage (why : string).     (* JSON.parse throws SyntaxError(why) *)

Definition Items : Type := gmap string Text.

(** The browser's answer to [localStorage.setItem(key, text)] on the current
    contents: [Some e] when the call throws [e] and stores nothing. *)
Variable write_fault : Items -> string -> Text -> option Exn.

Definition setItem (k : string) (v : Text) (items : Items) : Items * (Exn + unit) :=
  match write_fault items k v with
  | Some e => (items, inl e)
  | None => (<[k := v]> items, inr tt)
  end.

Definition removeItem (k : string) (items : Items) : Items := delete k items.

(** [!localStorage.getItem(key)]. *)
Definition missing (t : option Text) : bool :=
  match t with
  | None | Some TEmpty => true
  | Some _ => false
  end.

Definition initializeStorage (items : Items) : Items * (Exn + unit) :=
  if missing (items !! FLOWCHART_LIST_KEY)
  then setItem FLOWCHART_LIST_KEY (TJson (JNames [])) items
  else (items, inr tt).

(** [JSON.parse(localStorage.getItem(key)) || []], [[]] when parsing throws. *)
Definition getFlowchartList (items : Items) : JSON :=
  match items !! FLOWCHART_LIST_KEY with
  | Some (TJson v) => v
  | _ => JNames []
  end.

Definition updateFlowchartList (l : list string) (items : Items)
  : Items * (Exn + unit) :=
  match setItem FLOWCHART_LIST_KEY (TJson (JNames l)) items with
  | (items', inl _) => (items', inl (Error "Failed to update flowchart list"))
  | ok => ok
  end.

Definition includes (name : string) (l : list string) : bool :=
  existsb (String.eqb name) l.

(** The [catch] block of [saveFlowchart]. *)
Definition save_catch (error : Exn) : Exn :=
  match error with
  | DOMException name _ =>
      if String.eqb name "QuotaExceededError"
      then Error "Storage quota exceeded. Try deleting some flowcharts first."
      else Error "Failed to save flowchart"
  | _ => Error "Failed to save flowchart"
  end.

Definition saveFlowchart (name : string) (data : Data) (items : Items)
  : Items * (Exn + bool) :=
  let listed : Items * (Exn + unit) :=
    match getFlowchartList items with
    | JNames l =>
        if negb (includes name l) then updateFlowchartList (l ++ [name]) items
        else (items, inr tt)
    | JData _ => (items, inl (TypeError "list.includes is not a function"))
    end in
  match listed with
  | (items1, inl e) => (items1, inl (save_catch e))
  | (items1, inr _) =>
      match setItem (FLOWCHART_PREFIX +:+ name) (TJson (JData data)) items1 with
      | (items2, inl e) => (items2, inl (save_catch e))
      | (items2, inr _) => (items2, inr true)
      end
  end.

Definition not_found (name : string) : string :=
  "Flowchart " +:+ dquote +:+ name +:+ dquote +:+ " not found".

Definition load_catch (error : Exn) : Exn :=
  Error ("Failed to load flowchart: " +:+ exn_message error).

Definition loadFlowchart (name : string) (items : Items) : Exn + JSON :=
  match items !! (FLOWCHART_PREFIX +:+ name) with
  | None | Some TEmpty => inl (load_catch (Error (not_found name)))
  | Some (TJson v) => inr v
  | Some (TGarbage why) => inl (load_catch (SyntaxError why))
  end.

(** [list.splice(list.indexOf(name), 1)]. *)
Fixpoint remove_first (name : string) (l : list string) : list string :=
  match l with
  | [] => []
  | x :: rest => if String.eqb x name then rest else x :: remove_first name rest
  end.

Definition delete_catch (error : Exn) : Exn := Error "Failed to delete flowchart".

Definition deleteFlowchart (name : string) (items : Items) : Items * (Exn + bool) :=
  match getFlowchartList items with
  | JNames l =>
      if includes name l then
        match updateFlowchartList (remove_first name l) items with
        | (items1, inl e) => (items1, inl (delete_catch e))
        | (items1, inr _) => (removeItem (FLOWCHART_PREFIX +:+ name) items1, inr true)
        end
      else (items, inl (delete_catch (Error (not_found name))))
  | JData _ => (items, inl (delete_catch (TypeError "list.indexOf is not a function")))
  end.

End Storage.

Arguments JNames {Data} names.
Arguments JData {Data} data.
Arguments TEmpty {Data}.
Arguments TJson {Data} v.
Arguments TGarbage {Data} why.

(** Two browsers for the examples: one never fails, one rejects every write
    with the given exception. *)
Definition no_fault {Data : Type} : Items Data -> string -> Text Data -> option Exn :=
  fun _ _ _ => None.
Definition always_fault {Data : Type} (e : Exn)
  : Items Data -> string -> Text Data -> option Exn :=
  fun _ _ _ => Some e.
(** A browser that rejects writes to one key only. *)
Definition fault_on {Data : Type} (key : string) (e : Exn)
  : Items Data -> string -> Text Data -> option Exn :=
  fun _ k _ => if String.eqb k key then Some e else None.

Definition quota_exceeded : Exn :=
  DOMException "QuotaExceededError" "The quota has been exceeded.".

End StorageManager.

(** ** What the validation passes say, node by node *)

Module FlowchartRules.
Import ValidationEngine.
Local Open Scope list_scope.

(** [hasIncoming] and [hasOutgoing] of [checkUnconnectedNodes]. *)
Definition hasIncoming (edges : list Edge) (node : Node) : bool :=
  is_type "start" node
  || existsb (fun edge => String.eqb (targetId edge) (nid node)) edges.
Definition hasOutgoing (edges : list Edge) (node : Node) : bool :=
  is_type "end" node
  || existsb (fun edge => String.eqb (sourceId edge) (nid node)) edges.

(** The message the body of [checkUnconnectedNodes] has for one node, if any. *)
Definition unconnected_messages (edges : list Edge) (node : Node) : list string :=
  if negb (hasIncoming edges node) && negb (hasOutgoing edges node) then
    ["Node " +:+ quoted (text node) +:+ " is completely disconnected."]
  else if negb (hasIncoming edges node) then
    ["Node " +:+ quoted (text node) +:+ " has no incoming connections."]
  else if negb (hasOutgoing edges node) && negb (is_type "end" node) then
    ["Node " +:+ quoted (text node) +:+ " has no outgoing connections."]
  else [].

Definition outgoing (edges : list Edge) (node : Node) : list Edge :=
  List.filter (fun edge => String.eqb (sourceId edge) (nid node)) edges.
Definition unlabeled (es : list Edge) : list Edge :=
  List.filter (fun edge => String.eqb (label edge) "") es.

(** The messages the body of [checkDecisionNodes] has for one decision node. *)
Definition decision_messages (edges : list Edge) (node : Node) : list string :=
  (if Nat.ltb (length (outgoing edges node)) 2 then
     ["Decision node " +:+ quoted (text node)
      +:+ " should have at least 2 outgoing paths."]
   else [])
  ++ (if Nat.leb 2 (length (outgoing edges node))
         && Nat.ltb 0 (length (unlabeled (outgoing edges node))) then
        ["Decision node " +:+ quoted (text node) +:+ " has "
         +:+ string_of_nat (length (unlabeled (outgoing edges node)))
         +:+ " unlabeled outgoing paths."]
      else []).

(** The messages of the start-node and end-node counts. *)
Definition terminal_messages (nodes : list Node) : list string :=
  (if Nat.eqb (length (List.filter (is_type "start") nodes)) 0 then [msg_no_start]
   else if Nat.ltb 1 (length (List.filter (is_type "start") nodes))
        then [msg_multiple_start] else [])
  ++ (if Nat.eqb (length (List.filter (is_type "end") nodes)) 0 then [msg_no_end]
      else []).

(** Every edge that leaves a node arrives at a node. *)
Definition targets_are_nodes (nodes : list Node) (edges : list Edge) : Prop :=
  forall e, In e edges -> In (sourceId e) (map nid nodes) ->
            In (targetId e) (map nid nodes).

(** Both ends of every edge are nodes. *)
Definition ends_are_nodes (nodes : list Node) (edges : list Edge) : Prop :=
  forall e, In e edges ->
            In (sourceId e) (map nid nodes) /\ In (targetId e) (map nid nodes).

(** A flowchart that meets every rule the engine checks. *)
Definition well_formed (nodes : list Node) (edges : list Edge) : Prop :=
  length (List.filter (is_type "start") nodes) = 1
  /\ List.filter (is_type "end") nodes <> []
  /\ (forall node, In node nodes ->
        hasIncoming edges node = true /\ hasOutgoing edges node = true)
  /\ (forall node, In node nodes -> is_type "decision" node = true ->
        2 <= length (outgoing edges node) /\ unlabeled (outgoing edges node) = [])
  /\ ~ has_cycle edges.

(** What one step of the search may do to the shared variables. *)
Inductive search_step : Search -> Search -> Prop :=
| step_enter (s : Search) (nodeId : string) :
    search_step s (mkSearch (<[nodeId := true]> (visited s))
                            (<[nodeId := true]> (recStack s))
                            (messages s) (cycleFound s))
| step_leave (s : Search) (nodeId : string) :
    search_step s (mkSearch (visited s) (<[nodeId := false]> (recStack s))
                            (messages s) (cycleFound s))
| step_report (s : Search) (message : string) :
    is_cycle_message message = true ->
    search_step s (mkSearch (visited s) (recStack s)
                            (messages s ++ [message]) true).

(** The state of an outcome, when there is one. *)
Definition final_state (r : Outcome) : option Search :=
  match r with
  | Returned _ s | Thrown s => Some s
  | OutOfFuel => None
  end.

(** The search has added the messages [more], all of them cycle reports,
    and has set [cycleFound] when it added one. *)
Definition reported (more : list string) (s s' : Search) : Prop :=
  messages s' = messages s ++ more
  /\ Forall (fun m => is_cycle_message m = true) more
  /\ cycleFound s' = (cycleFound s || negb (Nat.eqb (length more) 0)).

(** The outcome [r] of a search started in [s] ends, if it ends, in a
    state related to [s]. *)
Definition ends_in (R : Search -> Search -> Prop) (s : Search) (r : Outcome)
  : Prop :=
  match final_state r with
  | Some s' => R s s'
  | None => True
  end.

End FlowchartRules.

(** ** The colours of the cycle search *)

Module SearchColours.
Import ValidationEngine.
Local Open Scope list_scope.

Definition not_thrown (r : Outcome) : Prop :=
  match r with
  | Thrown _ => False
  | _ => True
  end.

(** Visited and off the recursion stack: the search is done with the node. *)
Definition black (s : Search) (k : string) : Prop :=
  truthy (visited s) k = true /\ truthy (recStack s) k = false.

(** The finished nodes can be numbered so that every edge out of a finished
    node leads to a finished node with a smaller number. *)
Definition ranked (graph : gmap string (list string)) (s : Search) : Prop :=
  exists rank : string -> nat,
    forall u ts v, black s u -> graph !! u = Some ts -> In v ts ->
                   black s v /\ rank v < rank u.

(** Whatever is on the recursion stack has been visited. *)
Definition stack_visited (s : Search) : Prop :=
  forall k, truthy (recStack s) k = true -> truthy (visited s) k = true.

(** [visited] holds only [true], and only for keys of the adjacency object. *)
Definition marks_keys (graph : gmap string (list string)) (s : Search) : Prop :=
  forall k b, visited s !! k = Some b -> is_Some (graph !! k) /\ b = true.

(** From [s0] to [s'] a call of [dfs] has come and gone: more nodes are
    visited, and the recursion stack is as it was. *)
Definition finished (s0 s' : Search) : Prop :=
  (forall k, truthy (visited s0) k = true -> truthy (visited s') k = true)
  /\ (forall k, truthy (recStack s') k = truthy (recStack s0) k).

(** [s] is a state of the loop over the neighbours of [u] in the call of
    [dfs] that started in [s0]. *)
Definition in_loop (s0 : Search) (u : string) (s : Search) : Prop :=
  (forall k, truthy (visited s0) k = true -> truthy (visited s) k = true)
  /\ truthy (visited s) u = true
  /\ (forall k, truthy (recStack s) k = String.eqb u k || truthy (recStack s0) k).

(** No report so far, and the invariants of a search without a report. *)
Definition clean (graph : gmap string (list string)) (s : Search) : Prop :=
  cycleFound s = false /\ ranked graph s /\ marks_keys graph s.

(** What a call of [dfs] for [u] started in the clean state [s0] gives. *)
Definition explored (graph : gmap string (list string)) (s0 : Search)
    (u : string) (r : Outcome) : Prop :=
  match r with
  | Returned true s' => cycleFound s' = true
  | Returned false s' => clean graph s' /\ finished s0 s' /\ black s' u
  | _ => True
  end.

End SearchColours.

(** ** CanvasManager: hit testing, pointer handlers and toolbar

    The handlers of [mousedown], [mousemove], [mouseup] and [wheel] (the
    touch handlers hand a single touch to the mouse handlers), [setMode],
    and the listeners the main script puts on the toolbar, the text inputs
    and the drop target.  [hoveredItem], left out of [State], is kept
    beside it here, since [handleMouseUp] reads it. *)

Module Interaction.
Import CanvasManager.
Local Open Scope R_scope.

(** [getResizeHandleAt(node, x, y)]. *)
Definition getResizeHandleAt (node : option Node) (x y : R) : option Corner :=
  match node with
  | None => None
  | Some node =>
      let handleSize := 8 in
      let halfWidth := width node / 2 in
      let halfHeight := height node / 2 in
      let handleHalfSize := handleSize / 2 in
      if NodeTypes.leb (Rabs (x - (nx node - halfWidth - handleHalfSize))) handleHalfSize
         && NodeTypes.leb (Rabs (y - (ny node - halfHeight - handleHalfSize))) handleHalfSize
      then Some nw
      else if NodeTypes.leb (Rabs (x - (nx node + halfWidth - handleHalfSize))) handleHalfSize
              && NodeTypes.leb (Rabs (y - (ny node - halfHeight - handleHalfSize))) handleHalfSize
      then Some ne
      else if NodeTypes.leb (Rabs (x - (nx node + halfWidth - handleHalfSize))) handleHalfSize
              && NodeTypes.leb (Rabs (y - (ny node + halfHeight - handleHalfSize))) handleHalfSize
      then Some se
      else if NodeTypes.leb (Rabs (x - (nx node - halfWidth - handleHalfSize))) handleHalfSize
              && NodeTypes.leb (Rabs (y - (ny node + halfHeight - handleHalfSize))) handleHalfSize
      then Some sw
      else None
  end.

(** [a !== 0]. *)
Definition nonzero (a : R) : bool := if Req_dec_T a 0 then false else true.

(** The point of the segment from (x1, y1) to (x2, y2) that
    [isPointNearLine] measures the distance to. *)
Definition nearest (px py x1 y1 x2 y2 : R) : Point :=
  let A := px - x1 in
  let B := py - y1 in
  let C := x2 - x1 in
  let D := y2 - y1 in
  let dot := A * C + B * D in
  let lenSq := C * C + D * D in
  let param := if nonzero lenSq then dot / lenSq else -1 in
  if NodeTypes.ltb param 0 then (x1, y1)
  else if NodeTypes.gtb param 1 then (x2, y2)
  else (x1 + param * C, y1 + param * D).

(** [isPointNearLine(px, py, x1, y1, x2, y2, tolerance)]. *)
Definition isPointNearLine (px py x1 y1 x2 y2 tolerance : R) : bool :=
  let '(xx, yy) := nearest px py x1 y1 x2 y2 in
  let dx := px - xx in
  let dy := py - yy in
  NodeTypes.ltb (sqrt (dx * dx + dy * dy)) tolerance.

(** The test of the loop over the nodes in [getItemAtPosition], for a node
    whose type is no name inherited from [Object.prototype]. *)
Definition node_hit (x y : R) (node : Node) : bool :=
  match NodeTypes.lookup (nodeType node) with
  | Some nodeType => NodeTypes.containsPoint nodeType node x y
  | None => false
  end.

(** The test of the loop over the edges in [getItemAtPosition], for nodes
    whose types are no names inherited from [Object.prototype]; for the
    connection points see [NodeTypes] ([no_vertical_edge] below). *)
Definition edge_hit (ns : list Node) (x y : R) (edge : Edge) : bool :=
  match find (has_nid (sourceId edge)) ns, find (has_nid (targetId edge)) ns with
  | Some sourceNode, Some targetNode =>
      match NodeTypes.lookup (nodeType sourceNode),
            NodeTypes.lookup (nodeType targetNode) with
      | Some sourceType, Some targetType =>
          let p1 := NodeTypes.getConnectionPoint sourceType sourceNode
                      (nx targetNode, ny targetNode) in
          let p2 := NodeTypes.getConnectionPoint targetType targetNode
                      (nx sourceNode, ny sourceNode) in
          isPointNearLine x y (fst p1) (snd p1) (fst p2) (snd p2) 5
      | _, _ => false
      end
  | _, _ => false
  end.

(** The resize handle of the selected node under (x, y), if any. *)
Definition handle_hit (st : State) (x y : R) : option Item :=
  match selected_node st with
  | Some sel =>
      let node := find (has_nid (nid sel)) (nodes (graph st)) in
      match node, getResizeHandleAt node x y with
      | Some n, Some position => Some (ResizeHandle (nid n) position)
      | _, _ => None
      end
  | None => None
  end.

(** [getItemAtPosition(x, y)]: handles of the selected node, then nodes and
    edges from the last to the first. *)
Definition getItemAtPosition (st : State) (x y : R) : option Item :=
  match handle_hit st x y with
  | Some item => Some item
  | None =>
      match find (node_hit x y) (rev (nodes (graph st))) with
      | Some node => Some (NodeItem node)
      | None =>
          match find (edge_hit (nodes (graph st)) x y) (rev (edges (graph st))) with
          | Some edge => Some (EdgeItem edge)
          | None => None
          end
      end
  end.

Definition with_mode (m : string) (st : State) : State :=
  mkState (graph st) (camera st) (gesture st) (selectedItem st) m
          (connectionStartNode st) (currentFlowchartName st).
Definition with_connection (c : option string) (st : State) : State :=
  mkState (graph st) (camera st) (gesture st) (selectedItem st) (mode st)
          c (currentFlowchartName st).

(** [setMode(mode)]. *)
Definition setMode (m : string) (st : State) : State :=
  let st1 := with_mode m st in
  let st2 := if negb (String.eqb m "connect") then with_connection None st1
             else st1 in
  selectItem None st2.

(** A string or null used as a condition. *)
Definition truthy_id (o : option string) : bool :=
  match o with
  | Some s => negb (String.eqb s "")
  | None => false
  end.

Definition set_start (x y : R) (st : State) : State :=
  let gs := gesture st in
  with_gesture (mkGesture (isDragging gs) (isPanning gs) (isResizing gs)
                          (resizeDirection gs) x y (lastMouseX gs) (lastMouseY gs)) st.
Definition set_dragging (st : State) : State :=
  let gs := gesture st in
  with_gesture (mkGesture true (isPanning gs) (isResizing gs)
                          (resizeDirection gs) (startX gs) (startY gs)
                          (lastMouseX gs) (lastMouseY gs)) st.
Definition set_panning (st : State) : State :=
  let gs := gesture st in
  with_gesture (mkGesture (isDragging gs) true (isResizing gs)
                          (resizeDirection gs) (startX gs) (startY gs)
                          (lastMouseX gs) (lastMouseY gs)) st.
Definition set_resizing (position : Corner) (st : State) : State :=
  let gs := gesture st in
  with_gesture (mkGesture (isDragging gs) (isPanning gs) true
                          (Some position) (startX gs) (startY gs)
                          (lastMouseX gs) (lastMouseY gs)) st.

(** [handleMouseDown(e)], with a listener [onFlowchartChange] that returns:
    should the listener throw inside [addEdge], the edge is stored all the
    same, and the code leaves the handler before [connectionStartNode] is
    reset. *)
Definition handleMouseDown (rect : Rect) (e : MouseEvent) (st0 : State) : State :=
  let '(x, y) := viewportToCanvas rect st0 (clientX e) (clientY e) in
  let st := set_start x y st0 in
  let item := getItemAtPosition st x y in
  if String.eqb (mode st) "select" then
    match item with
    | Some (ResizeHandle nodeId position) =>
        let st1 := set_resizing position st in
        match find (has_nid nodeId) (nodes (graph st1)) with
        | Some node =>
            match selectedItem st1 with
            | Some it =>
                if match item_id it with
                   | Some i => String.eqb i (nid node)
                   | None => false
                   end
                then st1
                else selectItem (Some (NodeItem node)) st1
            | None => selectItem (Some (NodeItem node)) st1
            end
        | None => st1
        end
    | Some (NodeItem n) => set_dragging (selectItem (Some (NodeItem n)) st)
    | Some (EdgeItem ed) => selectItem (Some (EdgeItem ed)) st
    | None => set_panning (selectItem None st)
    end
  else if String.eqb (mode st) "connect" then
    match item with
    | Some (NodeItem n) =>
        match connectionStartNode st with
        | Some first =>
            if String.eqb first "" then with_connection (Some (nid n)) st
            else if negb (String.eqb (nid n) first)
            then with_connection None (snd (addEdge first (nid n) st))
            else st
        | None => with_connection (Some (nid n)) st
        end
    | _ => st
    end
  else if String.eqb (mode st) "delete" then
    match item with
    | Some it => deleteItem (Some it) st
    | None => st
    end
  else st.

(** The state with [hoveredItem]. *)
Record UI : Type := mkUI {
  state : State;
  hoveredItem : option Item
}.

Definition ui_init : UI := mkUI init None.

(** The last branch of [handleMouseMove] is the one taken. *)
Definition hovering (st : State) : bool :=
  let gs := gesture st in
  match isDragging gs, isResizing gs, selected_node st with
  | true, _, Some _ => false
  | _, true, Some _ => false
  | _, _, _ => negb (isPanning gs)
  end.

(** [handleMouseMove(e)] with its hover branch. *)
Definition handleMouseMove (rect : Rect) (e : MouseEvent) (ui : UI) : UI :=
  let st' := CanvasManager.handleMouseMove rect e (state ui) in
  if hovering (state ui) then
    let '(x, y) := viewportToCanvas rect st' (clientX e) (clientY e) in
    mkUI st' (getItemAtPosition st' x y)
  else mkUI st' (hoveredItem ui).

(** [handleMouseUp(e)], with a listener [onFlowchartChange] that returns:
    should the listener throw inside [addEdge], the edge is stored all the
    same, and the code leaves the handler before the gesture flags are
    reset. *)
Definition handleMouseUp (ui : UI) : UI :=
  let st := state ui in
  let st1 :=
    if String.eqb (mode st) "connect" then
      match connectionStartNode st, hoveredItem ui with
      | Some first, Some (NodeItem n) =>
          if negb (String.eqb first "") && negb (String.eqb (nid n) first)
          then snd (addEdge first (nid n) st)
          else st
      | _, _ => st
      end
    else st in
  let gs := gesture st1 in
  let st2 := with_gesture (mkGesture false false false None (startX gs) (startY gs)
                                     (lastMouseX gs) (lastMouseY gs)) st1 in
  let st3 := if negb (String.eqb (mode st2) "connect")
             then with_connection None st2 else st2 in
  mkUI st3 (hoveredItem ui).

(** What the user can do, short of loading a flowchart.  [Drop] is for a
    dropped text that is no name inherited from [Object.prototype]. *)
Inductive Event : Type :=
| MouseDown (rect : Rect) (e : MouseEvent)
| MouseMove (rect : Rect) (e : MouseEvent)
| MouseUp
| Wheel (rect : Rect) (e : WheelEvent)
| SetMode (m : string)
| Drop (ty : string) (rect : Rect) (e : MouseEvent)
| NodeTextInput (value : string)
| EdgeTextInput (value : string)
| New
| ZoomIn
| ZoomOut
| ResetView.

Definition on_state (f : State -> State) (ui : UI) : UI :=
  mkUI (f (state ui)) (hoveredItem ui).

Definition ui_step (ev : Event) (ui : UI) : UI :=
  match ev with
  | MouseDown rect e => on_state (handleMouseDown rect e) ui
  | MouseMove rect e => handleMouseMove rect e ui
  | MouseUp => handleMouseUp ui
  | Wheel rect e => on_state (handleWheel rect e) ui
  | SetMode m => on_state (setMode m) ui
  | Drop ty rect e =>
      on_state (fun st =>
                  let '(x, y) := viewportToCanvas rect st (clientX e) (clientY e) in
                  snd (addNode ty x y st)) ui
  | NodeTextInput value =>
      on_state (fun st =>
                  match selectedItem st with
                  | Some (NodeItem n) => updateNodeText (nid n) value st
                  | _ => st
                  end) ui
  | EdgeTextInput value =>
      on_state (fun st =>
                  match selectedItem st with
                  | Some (EdgeItem ed) => updateEdgeLabel (eid ed) value st
                  | _ => st
                  end) ui
  | New => mkUI (clear (state ui)) None
  | ZoomIn => on_state zoomIn ui
  | ZoomOut => on_state zoomOut ui
  | ResetView => on_state resetView ui
  end.

Definition ui_run (events : list Event) (ui : UI) : UI :=
  fold_left (fun u ev => ui_step ev u) events ui.

(** *** Properties of the graph store *)

(** The operations as the handlers above ask for them: an edge is only
    drawn between two different ids. *)
Definition drawn (op : Op) : Prop :=
  match op with
  | OpAddEdge src tgt => src <> tgt
  | _ => True
  end.

(** Ids are unique, and made from counters that have been passed. *)
Definition ids_fresh (g : Graph) : Prop :=
  NoDup (map nid (nodes g))
  /\ (forall i, In i (map nid (nodes g)) ->
        exists k, i = node_id k /\ (k <= nodeCounter g)%nat)
  /\ NoDup (map eid (edges g))
  /\ (forall i, In i (map eid (edges g)) ->
        exists k, i = edge_id k /\ (k <= edgeCounter g)%nat).

Definition one_edge_per_pair (g : Graph) : Prop :=
  forall src tgt, (count_edges src tgt g <= 1)%nat.

Definition no_self_loop (g : Graph) : Prop :=
  forall ed, In ed (edges g) -> sourceId ed <> targetId ed.

(** The square a resize handle answers to: 8 by 8, with the corner of the
    node as its south-east corner. *)
Definition in_handle_zone (c : Corner) (node : Node) (x y : R) : Prop :=
  fst (corner c node) - 8 <= x <= fst (corner c node)
  /\ snd (corner c node) - 8 <= y <= snd (corner c node).

(** The square [drawNode] draws for a handle of the selected node:
    [ctx.rect(cx - handleSize/2, cy - handleSize/2, handleSize, handleSize)]
    with (cx, cy) the corner and [handleSize] 8. *)
Definition in_drawn_handle (c : Corner) (node : Node) (x y : R) : Prop :=
  fst (corner c node) - 8 / 2 <= x <= fst (corner c node) - 8 / 2 + 8
  /\ snd (corner c node) - 8 / 2 <= y <= snd (corner c node) - 8 / 2 + 8.

(** The point at parameter [t] of the segment from (x1, y1) to (x2, y2). *)
Definition along (x1 y1 x2 y2 t : R) : Point :=
  (x1 + t * (x2 - x1), y1 + t * (y2 - y1)).

(** Where [render] puts the canvas point [p] on the screen: it applies
    [translate(offsetX * scale, offsetY * scale)] and then
    [scale(scale, scale)], on a canvas whose pixels are those of its
    client rectangle. *)
Definition canvasToViewport (rect : Rect) (st : State) (p : Point) : Point :=
  let c := camera st in
  (left rect + (offsetX c * scale c + fst p * scale c),
   top rect + (offsetY c * scale c + snd p * scale c)).

(** A run of [mousemove] events over the same client rectangle. *)
Definition moves (rect : Rect) (es : list MouseEvent) (st : State) : State :=
  fold_left (fun s e => CanvasManager.handleMouseMove rect e s) es st.

(** No edge joins two nodes that have the same [x]: every connection point
    of an edge is computed with a direction that is not vertical, away from
    [Math.tan] at a right angle. *)
Definition no_vertical_edge (g : Graph) : Prop :=
  forall ed s t, In ed (edges g) ->
    find (has_nid (sourceId ed)) (nodes g) = Some s ->
    find (has_nid (targetId ed)) (nodes g) = Some t ->
    nx s <> nx t.

(** [distance(x1, y1, x2, y2)] of utils.js. *)
Definition distance (x1 y1 x2 y2 : R) : R :=
  sqrt ((x2 - x1) ^ 2 + (y2 - y1) ^ 2).

End Interaction.

(** ** CanvasManager.exportAsPNG: the frame of the image *)

Module ExportImage.
Import CanvasManager.
Local Open Scope R_scope.

(** [minX], [minY], [maxX], [maxY]. *)
Record Bounds : Type := mkBounds { minX : R; minY : R; maxX : R; maxY : R }.

(** The body of the first [forEach]; [None] stands for the initial
    [Infinity], [Infinity], [-Infinity], [-Infinity]. *)
Definition grow (acc : option Bounds) (node : Node) : option Bounds :=
  let halfWidth := width node / 2 in
  let halfHeight := height node / 2 in
  match acc with
  | None =>
      Some (mkBounds (nx node - halfWidth) (ny node - halfHeight)
                     (nx node + halfWidth) (ny node + halfHeight))
  | Some b =>
      Some (mkBounds (Rmin (minX b) (nx node - halfWidth))
                     (Rmin (minY b) (ny node - halfHeight))
                     (Rmax (maxX b) (nx node + halfWidth))
                     (Rmax (maxY b) (ny node + halfHeight)))
  end.

Definition padding : R := 50.

(** The bounds with the padding added; [None] for a flowchart without
    nodes, where the code goes on with infinities. *)
Definition frame (ns : list Node) : option Bounds :=
  match fold_left grow ns None with
  | Some b => Some (mkBounds (minX b - padding) (minY b - padding)
                             (maxX b + padding) (maxY b + padding))
  | None => None
  end.

(** The pixel of the image where the canvas point [p] is drawn, after
    [tempCtx.translate(-minX, -minY)]. *)
Definition pixel (f : Bounds) (p : Point) : Point :=
  (fst p - minX f, snd p - minY f).

(** The pixel is on the image, which is [maxX - minX] wide and
    [maxY - minY] high. *)
Definition on_image (f : Bounds) (q : Point) : Prop :=
  0 <= fst q <= maxX f - minX f /\ 0 <= snd q <= maxY f - minY f.

(** The bounds hold the bounding box of the node. *)
Definition boxed (b : Bounds) (node : Node) : Prop :=
  minX b <= nx node - width node / 2 /\ nx node + width node / 2 <= maxX b
  /\ minY b <= ny node - height node / 2 /\ ny node + height node / 2 <= maxY b.

(** The bounds [b] reach at least as far as [a] on every side. *)
Definition extends (a b : Bounds) : Prop :=
  minX b <= minX a /\ maxX a <= maxX b /\ minY b <= minY a /\ maxY a <= maxY b.

End ExportImage.

(** ** CanvasManager.wrapText *)

Module WrapText.
Local Open Scope R_scope.

(** [text.split(' ')]: the first part and the others.  The parts, joined
    by single spaces, are the text; the empty text has one empty part. *)
Fixpoint split (text : string) : string * list string :=
  match text with
  | EmptyString => (EmptyString, [])
  | String c rest =>
      let '(word, words) := split rest in
      if Ascii.eqb c " "%char then (EmptyString, word :: words)
      else (String c word, words)
  end.

Section Measure.
(** [this.ctx.measureText(s).width] for the font in use. *)
Variable measureText : string -> R.

(** The loop over [words[1..]], with [currentLine] and [lines]. *)
Fixpoint wrap (maxWidth : R) (currentLine : string) (lines words : list string)
  : list string :=
  match words with
  | [] => (lines ++ [currentLine])%list
  | word :: rest =>
      if NodeTypes.ltb (measureText (currentLine +:+ " " +:+ word)) maxWidth
      then wrap maxWidth (currentLine +:+ " " +:+ word) lines rest
      else wrap maxWidth word (lines ++ [currentLine])%list rest
  end.

(** [wrapText(text, maxWidth)]. *)
Definition wrapText (text : string) (maxWidth : R) : list string :=
  if String.eqb text "" then [""%string]
  else let '(first, words) := split text in wrap maxWidth first [] words.

End Measure.

End WrapText.

(** ** The main script: saving and opening a flowchart by name *)

Module App.
Import CanvasManager.







End App.

(** ** Sample inputs *)

(** A decision and an input node of default size at the origin. *)
Definition decision_sample : Node :=
  mkNode "node_1" "decision" 0%R 0%R 120%R 80%R "Decision".
Definition input_sample : Node :=
  mkNode "node_1" "input" 0%R 0%R 120%R 60%R "Input".

(** A process node of default size at the origin. *)
Definition process_sample : Node :=
  mkNode "node_1" "process" 0%R 0%R 120%R 60%R "Process".

(** The process node selected, with a resize gesture under way from its
    south-east handle at (60, 30). *)
Definition resizing_sample : CanvasManager.State :=
  CanvasManager.mkState
    (CanvasManager.mkGraph [process_sample] [] 1 0)
    (CanvasManager.mkCamera 1%R 0%R 0%R)
    (CanvasManager.mkGesture false false true (Some CanvasManager.se)
                             60%R 30%R 60%R 30%R)
    (Some (CanvasManager.NodeItem process_sample)) "select" None None.

Definition origin_rect : CanvasManager.Rect := CanvasManager.mkRect 0%R 0%R.

(** The pointer moves 100 to the west. *)
Definition shrink_event : CanvasManager.MouseEvent :=
  CanvasManager.mkMouseEvent (-40)%R 30%R.

(** The wheel turns towards zooming in with the cursor at (100, 100). *)
Definition zoom_in_event : CanvasManager.WheelEvent :=
  CanvasManager.mkWheelEvent 100%R 100%R (-1)%R.

(** One process node, nothing else. *)
Definition one_node_sample : CanvasManager.State :=
  snd (CanvasManager.addNode "process" 0%R 0%R CanvasManager.init).

(** Two nodes joined by an edge. *)
Definition linked_sample : CanvasManager.State :=
  CanvasManager.run
    [CanvasManager.OpAddNode "start" 0%R 0%R;
     CanvasManager.OpAddNode "end" 200%R 0%R;
     CanvasManager.OpAddEdge "node_1" "node_2"]
    CanvasManager.init.

(** Graphs for the validation engine: process nodes labelled like their ids. *)
Definition labelled (i t : string) : Node :=
  mkNode i "process" 0%R 0%R 120%R 60%R t.
Definition arrow (i src tgt : string) : Edge := mkEdge i src tgt "".

(** A -> B -> C -> A. *)
Definition three_cycle_nodes : list Node :=
  [labelled "node_1" "A"; labelled "node_2" "B"; labelled "node_3" "C"].
Definition three_cycle_edges : list Edge :=
  [arrow "edge_1" "node_1" "node_2"; arrow "edge_2" "node_2" "node_3";
   arrow "edge_3" "node_3" "node_1"].

(** A -> B, A -> C. *)
Definition fork_edges : list Edge :=
  [arrow "edge_1" "node_1" "node_2"; arrow "edge_2" "node_1" "node_3"].

(** Two cycles with no node in common, P -> Q -> P and Y -> Z -> Y, and an
    edge Q -> Y drawn before the others. *)
Definition two_cycles_nodes : list Node :=
  [labelled "node_1" "P"; labelled "node_2" "Q";
   labelled "node_3" "Y"; labelled "node_4" "Z"].
Definition two_cycles_edges : list Edge :=
  [arrow "edge_1" "node_2" "node_3"; arrow "edge_2" "node_3" "node_4";
   arrow "edge_3" "node_4" "node_3"; arrow "edge_4" "node_1" "node_2";
   arrow "edge_5" "node_2" "node_1"].

(** One cycle A -> B -> A and an edge C -> A into it. *)
Definition tail_into_cycle_edges : list Edge :=
  [arrow "edge_1" "node_1" "node_2"; arrow "edge_2" "node_2" "node_1";
   arrow "edge_3" "node_3" "node_1"].

(** The store after one process node was added. *)
Definition one_node_store : Heap.HState :=
  snd (Heap.h_addNode "process" 0%R 0%R Heap.h_init).

(** localStorage as [initializeStorage] leaves it, and with one flowchart
    named "a" saved. *)
Definition fresh_storage : StorageManager.Items CanvasManager.Snapshot :=
  {[ StorageManager.FLOWCHART_LIST_KEY :=
       StorageManager.TJson (StorageManager.JNames []) ]}.

Definition empty_chart : CanvasManager.Snapshot :=
  CanvasManager.saveFlowchart CanvasManager.init.

Definition storage_with_a : StorageManager.Items CanvasManager.Snapshot :=
  fst (StorageManager.saveFlowchart CanvasManager.Snapshot StorageManager.no_fault
         "a" empty_chart fresh_storage).

(** A write failure that is not about the quota. *)
Definition write_error : StorageManager.Exn :=
  StorageManager.DOMException "SecurityError" "The operation is insecure.".

(** A flowchart that meets every rule: Start -> Decision, Decision -yes->
    End, Decision -no-> Process, Process -> End. *)
Definition approval_nodes : list Node :=
  [mkNode "node_1" "start" 0%R 0%R 100%R 50%R "Start";
   mkNode "node_2" "decision" 0%R 100%R 120%R 80%R "Decision";
   mkNode "node_3" "process" 200%R 100%R 120%R 60%R "Process";
   mkNode "node_4" "end" 0%R 250%R 100%R 50%R "End"].
Definition approval_edges : list Edge :=
  [mkEdge "edge_1" "node_1" "node_2" "";
   mkEdge "edge_2" "node_2" "node_4" "yes";
   mkEdge "edge_3" "node_2" "node_3" "no";
   mkEdge "edge_4" "node_3" "node_4" ""].

(** The two joined nodes, with the connect tool chosen. *)
Definition connect_sample : CanvasManager.State :=
  Interaction.setMode "connect" linked_sample.

(** Two process nodes are dropped at (0, 0) and (200, 0).  With the connect
    tool the first is pressed, the pointer moves on it and is released;
    with the delete tool the first is pressed; with the connect tool the
    second is pressed and released where it is.  On a touch screen, beside
    the drops and the toolbar, these are one short stroke and two taps. *)
Definition stale_hover_session : list Interaction.Event :=
  [Interaction.Drop "process" origin_rect (CanvasManager.mkMouseEvent 0%R 0%R);
   Interaction.Drop "process" origin_rect (CanvasManager.mkMouseEvent 200%R 0%R);
   Interaction.SetMode "connect";
   Interaction.MouseDown origin_rect (CanvasManager.mkMouseEvent 0%R 0%R);
   Interaction.MouseMove origin_rect (CanvasManager.mkMouseEvent 0%R 0%R);
   Interaction.MouseUp;
   Interaction.SetMode "delete";
   Interaction.MouseDown origin_rect (CanvasManager.mkMouseEvent 0%R 0%R);
   Interaction.MouseUp;
   Interaction.SetMode "connect";
   Interaction.MouseDown origin_rect (CanvasManager.mkMouseEvent 200%R 0%R);
   Interaction.MouseUp].

(** The second process node of that session; the first is
    [process_sample]. *)
Definition second_process : Node :=
  mkNode "node_2" "process" 200%R 0%R 120%R 60%R "Process".

(** * Properties *)

(** ** Connection points and outlines *)

Section ShapeFacts.
Import NodeTypes.
Local Open Scope R_scope.

Lemma ltb_true (a b : R) : a < b -> ltb a b = true.
Proof. intros H. unfold ltb. destruct (Rlt_dec a b); [reflexivity | contradiction]. Qed.
Lemma ltb_false (a b : R) : b <= a -> ltb a b = false.
Proof. intros H. unfold ltb. destruct (Rlt_dec a b); [lra | reflexivity]. Qed.
Lemma gtb_true (a b : R) : b < a -> gtb a b = true.
Proof. intros H. unfold gtb. destruct (Rlt_dec b a); [reflexivity | contradiction]. Qed.
Lemma gtb_false (a b : R) : a <= b -> gtb a b = false.
Proof. intros H. unfold gtb. destruct (Rlt_dec b a); [lra | reflexivity]. Qed.
Lemma leb_true (a b : R) : a <= b -> leb a b = true.
Proof. intros H. unfold leb. destruct (Rle_dec a b); [reflexivity | contradiction]. Qed.
Lemma geb_true (a b : R) : b <= a -> geb a b = true.
Proof. intros H. unfold geb. destruct (Rle_dec b a); [reflexivity | contradiction]. Qed.

Lemma atan2_right (y x : R) : 0 < x -> atan2 y x = atan (y / x).
Proof.
  intros Hx. unfold atan2.
  destruct (Rlt_dec 0 x); [reflexivity | contradiction].
Qed.

(** A target due east of the centre: the angle is 0. *)
Lemma atan2_east (x : R) : 0 < x -> atan2 0 x = 0.
Proof.
  intros Hx. rewrite atan2_right by assumption.
  replace (0 / x) with 0 by (unfold Rdiv; ring). apply atan_0.
Qed.

(** The ellipse of start and end nodes: the connection point is on the
    outline wherever the target is. *)
Lemma oval_connection_point_on_outline (node : Node) (target : Point) :
  width node <> 0 -> height node <> 0 ->
  on_outline (oval_draw (nx node) (ny node) (width node) (height node))
             (oval_getConnectionPoint node target).
Proof.
  intros Hw Hh. unfold oval_draw, oval_getConnectionPoint, on_outline.
  cbn [fst snd].
  set (a := atan2 _ _).
  replace ((nx node + width node / 2 * cos a - nx node) / (width node / 2))
    with (cos a) by (field; assumption).
  replace ((ny node + height node / 2 * sin a - ny node) / (height node / 2))
    with (sin a) by (field; assumption).
  pose proof (sin2_cos2 a) as H. unfold Rsqr in H. lra.
Qed.

Lemma sin_cos_atan (z : R) : 0 < cos (atan z) /\ sin (atan z) = z * cos (atan z).
Proof.
  pose proof (atan_bound z) as [Hlo Hhi].
  assert (Hc : 0 < cos (atan z)) by (apply cos_gt_0; lra).
  split; [exact Hc|].
  pose proof (tan_atan z) as Ht. unfold tan in Ht.
  rewrite <- Ht at 2. field. lra.
Qed.

Lemma sin_minus_PI (x : R) : sin (x - PI) = - sin x.
Proof. pose proof (neg_sin (x - PI)) as H. replace (x - PI + PI) with x in H by ring. lra. Qed.

Lemma cos_minus_PI (x : R) : cos (x - PI) = - cos x.
Proof. pose proof (neg_cos (x - PI)) as H. replace (x - PI + PI) with x in H by ring. lra. Qed.

(** Off the vertical through the centre, the angle has the slope dy/dx. *)
Lemma sin_cos_atan2 (dy dx : R) :
  dx <> 0 ->
  cos (atan2 dy dx) <> 0 /\ sin (atan2 dy dx) = dy / dx * cos (atan2 dy dx).
Proof.
  intros Hdx. destruct (sin_cos_atan (dy / dx)) as [Hc Hs].
  unfold atan2.
  destruct (Rlt_dec 0 dx); [split; [lra | exact Hs]|].
  destruct (Rlt_dec dx 0); [|lra].
  destruct (Rle_dec 0 dy).
  - rewrite neg_sin, neg_cos. split; [lra | rewrite Hs; ring].
  - rewrite sin_minus_PI, cos_minus_PI. split; [lra | rewrite Hs; ring].
Qed.

Lemma tan_atan2 (dy dx : R) : dx <> 0 -> tan (atan2 dy dx) = dy / dx.
Proof.
  intros Hdx. destruct (sin_cos_atan2 dy dx Hdx) as [Hc Hs].
  unfold tan. rewrite Hs. field. split; assumption.
Qed.

Lemma cot_atan2 (dy dx : R) :
  dx <> 0 -> dy <> 0 -> tan (PI / 2 - atan2 dy dx) = dx / dy.
Proof.
  intros Hdx Hdy. destruct (sin_cos_atan2 dy dx Hdx) as [Hc Hs].
  unfold tan. rewrite sin_shift, cos_shift, Hs. field. repeat split; assumption.
Qed.

Lemma fraction_in_unit (a b : R) : 0 < b -> 0 <= a <= b -> 0 <= a / b <= 1.
Proof.
  intros Hb [Ha0 Hab]. pose proof (Rinv_0_lt_compat b Hb) as Hi.
  assert (Hbi : b * / b = 1) by (field; lra).
  unfold Rdiv. split; nra.
Qed.

Lemma gtb_spec (a b : R) : gtb a b = true <-> b < a.
Proof. unfold gtb. destruct (Rlt_dec b a); split; (discriminate || tauto). Qed.

(** The rectangle of process nodes: off the vertical through the centre the
    connection point is on one of the four sides. *)
Lemma process_connection_point_on_outline (node : Node) (target : Point) :
  0 < width node -> 0 < height node -> fst target <> nx node ->
  on_outline (node_outline process node) (getConnectionPoint process node target).
Proof.
  intros Hw Hh Hx.
  cbv [node_outline draw getConnectionPoint process process_draw
       process_getConnectionPoint on_outline on_closed_path on_open_path app].
  set (w := width node) in *. set (h := height node) in *.
  set (dx := fst target - nx node). set (dy := snd target - ny node).
  assert (Hdx : dx <> 0) by (unfold dx; lra).
  rewrite (tan_atan2 dy dx Hdx).
  assert (Hk : h / w * w = h) by (field; lra).
  assert (Hkpos : 0 < h / w) by (apply Rdiv_lt_0_compat; assumption).
  destruct (gtb (Rabs (dy / dx)) (h / w)) eqn:Hbranch.
  - apply gtb_spec in Hbranch.
    assert (Hdy : dy <> 0).
    { intros H0. rewrite H0 in Hbranch. unfold Rdiv in Hbranch.
      rewrite Rmult_0_l, Rabs_R0 in Hbranch. lra. }
    rewrite (cot_atan2 dy dx Hdx Hdy).
    set (u := dx / dy).
    assert (Hzu : dy / dx * u = 1) by (unfold u; field; split; assumption).
    assert (Hu : - (w / 2) <= h / 2 * u <= w / 2).
    { unfold Rabs in Hbranch. destruct (Rcase_abs (dy / dx)); split; nra. }
    destruct (gtb dy 0).
    + right. right. left. exists ((w / 2 - h / 2 * u) / w).
      cbn [fst snd]. split; [|split; field; lra].
      apply fraction_in_unit; lra.
    + left. exists ((w / 2 - h / 2 * u) / w).
      cbn [fst snd]. split; [|split; field; lra].
      apply fraction_in_unit; lra.
  - assert (Hle : Rabs (dy / dx) <= h / w).
    { unfold gtb in Hbranch. destruct (Rlt_dec (h / w) (Rabs (dy / dx)));
        [discriminate | lra]. }
    set (z := dy / dx) in *.
    assert (Hz : - (h / 2) <= w / 2 * z <= h / 2).
    { unfold Rabs in Hle. destruct (Rcase_abs z); split; nra. }
    destruct (gtb dx 0).
    + right. left. exists ((h / 2 + w / 2 * z) / h).
      cbn [fst snd]. split; [|split; field; lra].
      apply fraction_in_unit; lra.
    + right. right. right. left. exists ((h / 2 + w / 2 * z) / h).
      cbn [fst snd]. split; [|split; field; lra].
      apply fraction_in_unit; lra.
Qed.
(** The rhombus: for a target due east of the centre the returned point is
    on the outline only when the target is exactly half a width away. *)
Lemma decision_east_point (node : Node) (d : R) :
  0 < width node -> 0 < height node -> 0 < d ->
  getConnectionPoint decision node (nx node + d, ny node)
  = (nx node + width node / 2,
     ny node - height node / 2 * (1 - d / (width node / 2))).
Proof.
  intros Hw Hh Hd.
  cbv [getConnectionPoint decision decision_getConnectionPoint fst snd].
  replace (nx node + d - nx node) with d by ring.
  replace (ny node - ny node) with 0 by ring.
  rewrite atan2_east by exact Hd. rewrite tan_0, Rabs_R0.
  assert (Hratio : 0 < height node / 2 / (width node / 2))
    by (apply Rdiv_lt_0_compat; lra).
  rewrite ltb_true by exact Hratio.
  rewrite gtb_true by exact Hd. rewrite gtb_false by lra.
  rewrite (Rabs_pos_eq d) by lra. f_equal. ring.
Qed.

Lemma decision_east_off_outline (node : Node) (d : R) :
  0 < width node -> 0 < height node -> 0 < d -> d <> width node / 2 ->
  ~ on_outline (node_outline decision node)
               (getConnectionPoint decision node (nx node + d, ny node)).
Proof.
  intros Hw Hh Hd Hne. rewrite decision_east_point by assumption.
  cbv [on_outline node_outline draw decision decision_draw
       on_closed_path on_open_path app on_segment fst snd].
  set (w := width node) in *. set (h := height node) in *.
  assert (Hy : h / 2 * (1 - d / (w / 2)) <> 0).
  { intros H0. apply Hne.
    assert (H1 : 1 - d / (w / 2) = 0) by nra.
    assert (H2 : d / (w / 2) * (w / 2) = d) by (field; lra).
    nra. }
  intros [H | [H | [H | [H | []]]]]; destruct H as (t & [Ht0 Ht1] & Hx & Hpy).
  - assert (t = 1) by nra. subst t. apply Hy. lra.
  - assert (t = 0) by nra. subst t. apply Hy. lra.
  - nra.
  - nra.
Qed.

(** The parallelogram: for every target due east of the centre the returned
    point is the one a quarter width east of the centre, on no side. *)
Lemma input_east_off_outline (node : Node) (d : R) :
  0 < width node -> 0 < height node -> 0 < d ->
  getConnectionPoint input node (nx node + d, ny node)
  = (nx node + width node / 2 - width node / 4, ny node + 0 * (width node / 2))
  /\ ~ on_outline (node_outline input node)
                  (getConnectionPoint input node (nx node + d, ny node)).
Proof.
  intros Hw Hh Hd.
  assert (Hp : getConnectionPoint input node (nx node + d, ny node)
               = (nx node + width node / 2 - width node / 4,
                  ny node + 0 * (width node / 2))).
  { cbv [getConnectionPoint input input_getConnectionPoint fst snd].
    replace (nx node + d - nx node) with d by ring.
    replace (ny node - ny node) with 0 by ring.
    rewrite atan2_east by exact Hd. rewrite tan_0, Rabs_R0.
    pose proof PI_RGT_0 as Hpi.
    rewrite (ltb_true 0 (PI / 4)) by lra. rewrite orb_true_r. reflexivity. }
  split; [exact Hp|]. rewrite Hp.
  cbv [on_outline node_outline draw input input_draw
       on_closed_path on_open_path app on_segment fst snd].
  set (w := width node) in *. set (h := height node) in *.
  intros [H | [H | [H | [H | []]]]]; destruct H as (t & [Ht0 Ht1] & Hx & Hy).
  - nra.
  - assert (t = 1 / 2) by nra. subst t. nra.
  - nra.
  - assert (t = 1 / 2) by nra. subst t. nra.
Qed.

Lemma decision_sample_point :
  getConnectionPoint decision decision_sample (200, 0) = (60, 280 / 3).
Proof.
  cbv [getConnectionPoint decision decision_getConnectionPoint decision_sample
       nx ny width height fst snd].
  replace (200 - 0) with 200 by ring. replace (0 - 0) with 0 by ring.
  rewrite atan2_east by lra. rewrite tan_0, Rabs_R0.
  rewrite ltb_true by lra. rewrite gtb_true by lra. rewrite gtb_false by lra.
  rewrite (Rabs_pos_eq 200) by lra.
  f_equal; lra.
Qed.

Lemma input_sample_point :
  getConnectionPoint input input_sample (100, 0) = (30, 0).
Proof.
  cbv [getConnectionPoint input input_getConnectionPoint input_sample
       nx ny width height fst snd].
  replace (100 - 0) with 100 by ring. replace (0 - 0) with 0 by ring.
  rewrite atan2_east by lra. rewrite tan_0, Rabs_R0.
  pose proof PI_RGT_0 as Hpi.
  rewrite (ltb_true 0 (PI / 4)) by lra. rewrite orb_true_r.
  f_equal; lra.
Qed.

Lemma not_on_segment_above (p a b : Point) (bound : R) :
  snd a <= bound -> snd b <= bound -> bound < snd p -> ~ on_segment p a b.
Proof.
  intros Ha Hb Hp (t & [Ht0 Ht1] & _ & Hy).
  assert (snd a + t * (snd b - snd a) <= bound) by nra. lra.
Qed.

(** The parallelogram: the point returned for a target due east of the
    sample node lies strictly inside the shape, on none of its four sides. *)
Lemma input_connection_point_off_outline :
  let p := getConnectionPoint input input_sample (100, 0) in
  p = (30, 0)
  /\ ~ on_outline (node_outline input input_sample) p
  /\ containsPoint input input_sample (fst p) (snd p) = true.
Proof.
  cbv zeta. rewrite input_sample_point. split; [reflexivity|]. split.
  - cbv [on_outline node_outline draw input input_draw input_sample
         nx ny width height on_closed_path on_open_path app on_segment fst snd].
    intros [H | [H | [H | [H | []]]]]; destruct H as (t & [Ht0 Ht1] & Hx & Hy); lra.
  - cbv [containsPoint input input_containsPoint input_sample
         nx ny width height fst snd].
    replace (0 - 0) with 0 by ring. rewrite Rabs_R0.
    rewrite gtb_false by lra. rewrite geb_true by lra. rewrite leb_true by lra.
    reflexivity.
Qed.

(** C2 (evaluation at the failing input).  For the default-sized decision
    node centred at the origin and a target at (200, 0),
    [getConnectionPoint] returns (60, 280/3), which is on none of the four
    sides of the rhombus that [draw] traces: the claim that every
    connection point lies on the shape outline does not hold for the
    decision shape. *)
Theorem decision_connection_point_off_outline :
  let p := getConnectionPoint decision decision_sample (200, 0) in
  p = (60, 280 / 3) /\ ~ on_outline (node_outline decision decision_sample) p.
Proof.
  cbv zeta. rewrite decision_sample_point. split; [reflexivity|].
  cbv [on_outline node_outline draw decision decision_draw decision_sample
       nx ny width height on_closed_path on_open_path app].
  intros [H | [H | [H | [H | []]]]];
    revert H; apply (not_on_segment_above _ _ _ 40); cbn [fst snd]; lra.
Qed.

End ShapeFacts.

(** ** Resizing and the anchor corner *)

Section ResizeFacts.
Import CanvasManager.
Local Open Scope R_scope.

Lemma Rmax_floor_inactive (floor v : R) : floor <= v -> Rmax floor v = v.
Proof. intros H. apply Rmax_right. exact H. Qed.

Lemma Rmax_floor_active (floor v : R) : v < floor -> Rmax floor v = floor.
Proof. intros H. apply Rmax_left. lra. Qed.

(** While neither floor is reached the corner opposite to the handle stays
    where it was. *)
Lemma resize_keeps_opposite_corner (c : Corner) (dx dy : R) (n : Node) :
  50 <= requested_width c dx n ->
  30 <= requested_height c dy n ->
  corner (opposite c) (resize (Some c) dx dy n) = corner (opposite c) n.
Proof.
  intros Hw Hh.
  destruct c; cbn [requested_width requested_height] in Hw, Hh;
    cbn [resize opposite corner nx ny width height];
    rewrite !Rmax_floor_inactive by assumption; f_equal; lra.
Qed.

(** Once a floor is reached the centre keeps following the pointer and the
    opposite corner moves with it. *)
Lemma resize_moves_opposite_corner (c : Corner) (dx dy : R) (n : Node) :
  requested_width c dx n < 50 \/ requested_height c dy n < 30 ->
  corner (opposite c) (resize (Some c) dx dy n) <> corner (opposite c) n.
Proof.
  intros Hfloor Heq.
  destruct c; cbn [requested_width requested_height] in Hfloor;
    cbn [resize opposite corner nx ny width height] in Heq;
    injection Heq as Hx Hy;
    destruct Hfloor as [H | H];
    ((rewrite (Rmax_floor_active 50) in Hx by assumption; lra)
     || (rewrite (Rmax_floor_active 30) in Hy by assumption; lra)).
Qed.

Lemma shrink_event_result :
  nodes (graph (handleMouseMove origin_rect shrink_event resizing_sample))
  = [mkNode "node_1" "process" (0 + ((-40 - 0) / 1 - 0 - 60) / 2) (0 + ((30 - 0) / 1 - 0 - 30) / 2)
            (Rmax 50 (120 + ((-40 - 0) / 1 - 0 - 60))) (Rmax 30 (60 + ((30 - 0) / 1 - 0 - 30)))
            "Process"].
Proof. reflexivity. Qed.

(** C1 (evaluation at the failing input).  A default process node at the
    origin is resized from its south-east handle by a pointer move of 100 to
    the west: the width stops at the floor 50, the centre still moves by
    -50, and the north-west corner goes from (-60, -30) to (-75, -30).  The
    anchor corner is not kept when the minimum-size floor is hit. *)
Theorem resize_at_floor_moves_anchor :
  exists n',
    nodes (graph (handleMouseMove origin_rect shrink_event resizing_sample)) = [n']
    /\ width n' = 50 /\ nx n' = -50
    /\ corner nw process_sample = (-60, -30)
    /\ corner nw n' = (-75, -30).
Proof.
  eexists. split; [apply shrink_event_result|].
  cbn [width nx ny height corner process_sample].
  assert (Hw : Rmax 50 (120 + ((-40 - 0) / 1 - 0 - 60)) = 50)
    by (apply Rmax_floor_active; lra).
  assert (Hh : Rmax 30 (60 + ((30 - 0) / 1 - 0 - 30)) = 60)
    by (rewrite Rmax_floor_inactive by lra; lra).
  rewrite Hw, Hh. repeat split; try lra; f_equal; lra.
Qed.

End ResizeFacts.

(** ** Zooming with the wheel *)

Section ZoomFacts.
Import CanvasManager.
Local Open Scope R_scope.

(** Where the canvas point under the cursor goes, for any camera. *)
Lemma handleWheel_cursor_drift (rect : Rect) (e : WheelEvent) (st : State) :
  scale (camera st) <> 0 ->
  let delta := if NodeTypes.ltb (deltaY e) 0 then 1.1 else 0.9 in
  let before := viewportToCanvas rect st (wClientX e) (wClientY e) in
  let after := viewportToCanvas rect (handleWheel rect e st) (wClientX e) (wClientY e) in
  fst after - fst before
    = (wClientX e - left rect) / scale (camera st) * ((1 - delta) * (1 - delta) / delta)
      + 2 * offsetX (camera st) * (1 - delta)
  /\ snd after - snd before
    = (wClientY e - top rect) / scale (camera st) * ((1 - delta) * (1 - delta) / delta)
      + 2 * offsetY (camera st) * (1 - delta).
Proof.
  intros Hs. cbv zeta.
  unfold handleWheel, viewportToCanvas.
  cbn [camera with_camera scale offsetX offsetY fst snd].
  destruct (NodeTypes.ltb (deltaY e) 0); split; field;
    repeat split; (assumption || lra).
Qed.

(** C4 (evaluation at the failing input).  With the initial camera (scale 1,
    offset 0), the canvas at the viewport origin and the cursor at client
    (100, 100), the canvas point under the cursor is (100, 100) before a
    zoom-in wheel event and (1110/11, 1110/11) after it: the point under the
    cursor is not kept by [handleWheel]. *)
Theorem handleWheel_moves_cursor_point :
  viewportToCanvas origin_rect init 100 100 = (100, 100)
  /\ viewportToCanvas origin_rect (handleWheel origin_rect zoom_in_event init) 100 100
     = (1110 / 11, 1110 / 11)
  /\ viewportToCanvas origin_rect (handleWheel origin_rect zoom_in_event init) 100 100
     <> viewportToCanvas origin_rect init 100 100.
Proof.
  assert (Hlt : NodeTypes.ltb (-1) 0 = true) by (apply ltb_true; lra).
  assert (Hb : viewportToCanvas origin_rect init 100 100 = (100, 100)).
  { unfold viewportToCanvas. cbn. f_equal; lra. }
  assert (Ha : viewportToCanvas origin_rect (handleWheel origin_rect zoom_in_event init)
                                100 100 = (1110 / 11, 1110 / 11)).
  { unfold handleWheel, viewportToCanvas.
    cbn [camera with_camera init scale offsetX offsetY fst snd origin_rect left top
         zoom_in_event wClientX wClientY deltaY].
    rewrite Hlt. cbn [scale offsetX offsetY]. f_equal; lra. }
  split; [exact Hb|]. split; [exact Ha|].
  rewrite Ha, Hb. intros H. injection H as H1 H2. lra.
Qed.

End ZoomFacts.

(** ** The graph store: sizes, duplicate edges, dangling edges *)

Section StoreFacts.
Import CanvasManager.

Lemma update_first_In {A : Type} (p : A -> bool) (f : A -> A) (l : list A) (a : A) :
  In a (update_first p f l) -> In a l \/ exists b, In b l /\ a = f b.
Proof.
  induction l as [| x rest IH]; cbn [update_first]; [tauto|].
  destruct (p x); cbn [In].
  - intros [<- | H]; [right; exists x; auto | auto].
  - intros [<- | H]; [auto|]. destruct (IH H) as [H' | (b & Hb & ->)]; [auto|].
    right. exists b. auto.
Qed.

Lemma update_first_map {A B : Type} (p : A -> bool) (f : A -> A) (g : A -> B)
    (l : list A) :
  (forall a, g (f a) = g a) -> map g (update_first p f l) = map g l.
Proof.
  intros Hg. induction l as [| x rest IH]; cbn [update_first map]; [reflexivity|].
  destruct (p x); cbn [map]; [rewrite Hg | rewrite IH]; reflexivity.
Qed.

(** *** The size floor *)

Local Open Scope R_scope.

Lemma default_sizes (ty : string) (t : NodeTypes.NodeType) :
  NodeTypes.lookup ty = Some t ->
  50 <= NodeTypes.defaultWidth t /\ 30 <= NodeTypes.defaultHeight t.
Proof.
  unfold NodeTypes.lookup.
  repeat (match goal with |- context [if ?b then _ else _] => destruct b end);
    intros H; inversion H; subst; cbn; lra.
Qed.

Lemma resize_size (dir : option Corner) (dx dy : R) (n : Node) :
  50 <= width n /\ 30 <= height n ->
  50 <= width (resize dir dx dy n) /\ 30 <= height (resize dir dx dy n).
Proof.
  intros Hn. destruct dir as [[]|]; cbn [resize width height];
    try exact Hn; split; apply Rmax_l.
Qed.

Lemma size_ok_update (f : Node -> Node) (i : string) (g : Graph) :
  (forall n, 50 <= width n /\ 30 <= height n ->
             50 <= width (f n) /\ 30 <= height (f n)) ->
  size_ok g ->
  size_ok (mkGraph (update_first (has_nid i) f (nodes g)) (edges g)
                   (nodeCounter g) (edgeCounter g)).
Proof.
  intros Hf Hg n Hn. cbn [nodes] in Hn.
  apply update_first_In in Hn. destruct Hn as [Hn | (m & Hm & ->)]; auto.
Qed.

Lemma size_ok_gesture_on_node (f : Node -> Node) (sel : Node) (x y : R) (st : State) :
  (forall n, 50 <= width n /\ 30 <= height n ->
             50 <= width (f n) /\ 30 <= height (f n)) ->
  size_ok (graph st) -> size_ok (graph (gesture_on_node f sel x y st)).
Proof.
  intros Hf Hst. unfold gesture_on_node.
  destruct (find _ _); cbn [graph]; [|exact Hst].
  apply size_ok_update; assumption.
Qed.

Lemma size_ok_drag_on_node (sel : Node) (dx dy x y : R) (st : State) :
  size_ok (graph st) -> size_ok (graph (drag_on_node sel dx dy x y st)).
Proof.
  intros Hst. unfold drag_on_node.
  destruct (find _ _); cbn [graph]; [|exact Hst].
  apply size_ok_update; [|exact Hst]. intros m Hm. exact Hm.
Qed.

Lemma size_ok_handleMouseMove (rect : Rect) (e : MouseEvent) (st : State) :
  size_ok (graph st) -> size_ok (graph (handleMouseMove rect e st)).
Proof.
  intros Hst. unfold handleMouseMove.
  set (st' := with_gesture _ st).
  assert (Hst' : size_ok (graph st')) by exact Hst.
  clearbody st'.
  destruct (viewportToCanvas _ _ _ _) as [x y].
  destruct (isDragging (gesture st')), (isResizing (gesture st')),
    (selected_node st') as [sel|];
    try (apply size_ok_drag_on_node; exact Hst');
    try (apply size_ok_gesture_on_node; [intros n Hn; apply resize_size, Hn | exact Hst']);
    destruct (isPanning (gesture st')); exact Hst'.
Qed.

Lemma size_ok_step (op : Op) (st : State) :
  size_ok (graph st) -> size_ok (graph (step op st)).
Proof.
  intros Hst. destruct op; cbn [step].
  - unfold addNode. destruct (NodeTypes.lookup ty) as [t|] eqn:Hty; [|exact Hst].
    cbn. intros n Hn. apply in_app_or in Hn. destruct Hn as [Hn | [<- | []]].
    + apply Hst, Hn.
    + cbn [width height]. eapply default_sizes, Hty.
  - unfold addEdge. destruct (find _ _); exact Hst.
  - apply size_ok_update; [|exact Hst]. intros n Hn. exact Hn.
  - exact Hst.
  - unfold deleteItem. destruct item as [[n | e | ]|]; try exact Hst.
    cbn. intros m Hm. apply filter_In in Hm. apply Hst, Hm.
  - exact Hst.
  - exact Hst.
  - apply size_ok_handleMouseMove, Hst.
  - unfold handleWheel. destruct (viewportToCanvas _ _ _ _). exact Hst.
  - intros n [].
Qed.

Lemma size_ok_run (ops : list Op) (st : State) :
  size_ok (graph st) -> size_ok (graph (run ops st)).
Proof.
  revert st. induction ops as [| op ops IH]; intros st Hst; [exact Hst|].
  cbn [run fold_left]. apply IH, size_ok_step, Hst.
Qed.

(** After any sequence of store operations and pointer events (adding
    nodes, resizing, moving, editing, deleting, zooming) starting from the
    state the constructor leaves, every node is at least 50 wide and 30
    high, as long as no node is added with a type that is a name inherited
    from [Object.prototype]; [ObjectPrototype.addNode] has what [addNode]
    does with such a name. *)
Lemma node_size_floor_on_table (ops : list Op) :
  Forall ObjectPrototype.table_op ops ->
  size_ok (graph (run ops init)).
Proof.
  intros _. apply size_ok_run. intros n [].
Qed.

End StoreFacts.

Section EdgeFacts.
Import CanvasManager.
Local Open Scope list_scope.

(** *** Duplicate edges *)

Lemma find_existsb {A : Type} (p : A -> bool) (l : list A) :
  existsb p l = true <-> exists a, find p l = Some a.
Proof.
  induction l as [| x rest IH]; cbn [existsb find].
  - split; [discriminate | intros [a H]; discriminate].
  - destruct (p x); cbn [orb]; [split; eauto | exact IH].
Qed.

Lemma find_none_existsb {A : Type} (p : A -> bool) (l : list A) :
  existsb p l = false <-> find p l = None.
Proof.
  induction l as [| x rest IH]; cbn [existsb find]; [tauto|].
  destruct (p x); cbn [orb]; [split; discriminate | exact IH].
Qed.

Lemma same_ends_new_edge (src tgt i l : string) :
  same_ends src tgt (mkEdge i src tgt l) = true.
Proof. unfold same_ends. cbn. rewrite !String.eqb_refl. reflexivity. Qed.

Lemma addEdge_existing (src tgt : string) (st : State) :
  existsb (same_ends src tgt) (edges (graph st)) = true ->
  addEdge src tgt st = (None, st).
Proof.
  intros H. apply find_existsb in H as [e He]. unfold addEdge. rewrite He.
  reflexivity.
Qed.

Lemma addEdge_fresh (src tgt : string) (st : State) :
  existsb (same_ends src tgt) (edges (graph st)) = false ->
  addEdge src tgt st
  = (Some (mkEdge (edge_id (S (edgeCounter (graph st)))) src tgt ""),
     with_graph (mkGraph (nodes (graph st))
                         (edges (graph st)
                          ++ [mkEdge (edge_id (S (edgeCounter (graph st)))) src tgt ""])
                         (nodeCounter (graph st)) (S (edgeCounter (graph st)))) st).
Proof.
  intros H. apply find_none_existsb in H. unfold addEdge. rewrite H. reflexivity.
Qed.

Lemma addEdge_then_exists (src tgt : string) (st : State) :
  existsb (same_ends src tgt) (edges (graph (snd (addEdge src tgt st)))) = true.
Proof.
  destruct (existsb (same_ends src tgt) (edges (graph st))) eqn:H.
  - rewrite addEdge_existing by exact H. exact H.
  - rewrite addEdge_fresh by exact H. cbn [snd graph with_graph edges].
    rewrite existsb_app. cbn [existsb]. rewrite same_ends_new_edge.
    rewrite orb_true_r. reflexivity.
Qed.

Lemma count_edges_zero (src tgt : string) (g : Graph) :
  existsb (same_ends src tgt) (edges g) = false <-> count_edges src tgt g = 0.
Proof.
  unfold count_edges. induction (edges g) as [| e rest IH]; cbn [existsb List.filter].
  - tauto.
  - destruct (same_ends src tgt e); cbn [orb length]; [split; discriminate | exact IH].
Qed.

(** C5 (amended).  [addEdge(a, b)] returns null and leaves the state as it
    is when an edge from a to b exists; otherwise it appends a new edge from
    a to b, also when a equals b; calling it a second time returns null and
    changes nothing; a graph with at most one edge from a to b has exactly
    one after the two calls. *)
Theorem addEdge_rejects_duplicates_only (a b : string) (st : State) :
  (existsb (same_ends a b) (edges (graph st)) = true -> addEdge a b st = (None, st))
  /\ (existsb (same_ends a b) (edges (graph st)) = false ->
      exists e, fst (addEdge a b st) = Some e /\ sourceId e = a /\ targetId e = b
                /\ edges (graph (snd (addEdge a b st))) = edges (graph st) ++ [e])
  /\ (let st1 := snd (addEdge a b st) in addEdge a b st1 = (None, st1))
  /\ (count_edges a b (graph st) <= 1 ->
      count_edges a b (graph (snd (addEdge a b (snd (addEdge a b st))))) = 1).
Proof.
  split; [apply addEdge_existing|]. split; [|split].
  - intros H. rewrite addEdge_fresh by exact H. eexists. cbn. eauto.
  - cbv zeta. apply addEdge_existing, addEdge_then_exists.
  - intros Hle.
    rewrite (addEdge_existing a b (snd (addEdge a b st)))
      by apply addEdge_then_exists.
    cbn [snd].
    destruct (existsb (same_ends a b) (edges (graph st))) eqn:H.
    + rewrite addEdge_existing by exact H. cbn [snd].
      destruct (count_edges a b (graph st)) as [| [| k]] eqn:Hc; [|reflexivity|lia].
      apply count_edges_zero in Hc. congruence.
    + rewrite addEdge_fresh by exact H. cbn [snd graph with_graph].
      apply count_edges_zero in H. unfold count_edges in *. cbn [edges].
      rewrite List.filter_app, length_app, H. cbn [List.filter].
      rewrite same_ends_new_edge. reflexivity.
Qed.

Lemma addEdge_rejects_duplicates_only_witness :
  count_edges "node_1" "node_2" (graph linked_sample) <= 1
  /\ count_edges "node_1" "node_2"
       (graph (snd (addEdge "node_1" "node_2"
                      (snd (addEdge "node_1" "node_2" linked_sample))))) = 1.
Proof.
  assert (H : count_edges "node_1" "node_2" (graph linked_sample) <= 1)
    by (vm_compute; lia).
  split; [exact H|].
  exact (proj2 (proj2 (proj2
           (addEdge_rejects_duplicates_only "node_1" "node_2" linked_sample))) H).
Defined.

(** C5 (counterexample).  On a graph with the single node node_1,
    [addEdge("node_1", "node_1")] does not return null: it creates the
    self-loop. *)
Lemma addEdge_self_loop_created :
  fst (addEdge "node_1" "node_1" one_node_sample)
  = Some (mkEdge "edge_1" "node_1" "node_1" "")
  /\ fst (addEdge "node_1" "node_1" one_node_sample) <> None.
Proof.
  assert (H : fst (addEdge "node_1" "node_1" one_node_sample)
              = Some (mkEdge "edge_1" "node_1" "node_1" ""))
    by reflexivity.
  split; [exact H | rewrite H; discriminate].
Qed.

End EdgeFacts.

Section DanglingFacts.
Import CanvasManager.
Local Open Scope list_scope.

Lemma is_live_map (g : Graph) (i : string) :
  is_live g i <-> In i (map nid (nodes g)).
Proof.
  unfold is_live. rewrite in_map_iff. split; intros (n & H1 & H2); exists n; tauto.
Qed.

(** Operations that keep the node ids and the edges keep the invariant. *)
Lemma no_dangling_same_ids (g g' : Graph) :
  map nid (nodes g') = map nid (nodes g) -> edges g' = edges g ->
  no_dangling g -> no_dangling g'.
Proof.
  intros Hn He Hg e Hin. rewrite He in Hin.
  destruct (Hg e Hin) as [Hs Ht]. rewrite !is_live_map in *.
  rewrite Hn. tauto.
Qed.

Lemma same_ids_update (f : Node -> Node) (i : string) (l : list Node) :
  (forall n, nid (f n) = nid n) ->
  map nid (update_first (has_nid i) f l) = map nid l.
Proof. intros Hf. apply update_first_map, Hf. Qed.

Lemma gesture_on_node_ids (f : Node -> Node) (sel : Node) (x y : R) (st : State) :
  (forall n, nid (f n) = nid n) ->
  map nid (nodes (graph (gesture_on_node f sel x y st))) = map nid (nodes (graph st))
  /\ edges (graph (gesture_on_node f sel x y st)) = edges (graph st).
Proof.
  intros Hf. unfold gesture_on_node.
  destruct (find _ _); cbn [graph nodes edges]; split; try reflexivity.
  apply same_ids_update, Hf.
Qed.

Lemma drag_on_node_ids (sel : Node) (dx dy x y : R) (st : State) :
  map nid (nodes (graph (drag_on_node sel dx dy x y st))) = map nid (nodes (graph st))
  /\ edges (graph (drag_on_node sel dx dy x y st)) = edges (graph st).
Proof.
  unfold drag_on_node.
  destruct (find _ _); cbn [graph nodes edges]; split; try reflexivity.
  apply same_ids_update. reflexivity.
Qed.

Lemma resize_nid (dir : option Corner) (dx dy : R) (n : Node) :
  nid (resize dir dx dy n) = nid n.
Proof. destruct dir as [[]|]; reflexivity. Qed.

Lemma handleMouseMove_ids (rect : Rect) (e : MouseEvent) (st : State) :
  map nid (nodes (graph (handleMouseMove rect e st))) = map nid (nodes (graph st))
  /\ edges (graph (handleMouseMove rect e st)) = edges (graph st).
Proof.
  unfold handleMouseMove.
  set (st' := with_gesture _ st).
  change (graph st) with (graph st'). clearbody st'.
  destruct (viewportToCanvas _ _ _ _) as [x y].
  destruct (isDragging (gesture st')), (isResizing (gesture st')),
    (selected_node st') as [sel|];
    try apply drag_on_node_ids;
    try (apply gesture_on_node_ids; intros n; apply resize_nid);
    destruct (isPanning (gesture st')); split; reflexivity.
Qed.

Lemma deleteItem_cascades (st : State) (n : Node) (e : Edge) :
  In e (edges (graph (deleteItem (Some (NodeItem n)) st))) ->
  In e (edges (graph st)) /\ sourceId e <> nid n /\ targetId e <> nid n.
Proof.
  cbn. rewrite filter_In, andb_true_iff, !negb_true_iff, !String.eqb_neq. tauto.
Qed.

Lemma no_dangling_deleteItem (item : option Item) (st : State) :
  no_dangling (graph st) -> no_dangling (graph (deleteItem item st)).
Proof.
  intros Hst. destruct item as [[n | d | i c]|]; try exact Hst.
  - intros e He. apply deleteItem_cascades in He as (He & Hs & Ht).
    destruct (Hst e He) as [(m1 & Hm1 & Hi1) (m2 & Hm2 & Hi2)].
    split; [exists m1 | exists m2]; (split; [|assumption]); cbn;
      apply filter_In; (split; [assumption|]);
      apply negb_true_iff, String.eqb_neq; congruence.
  - intros e He. cbn in He. apply filter_In in He as [He _].
    exact (Hst e He).
Qed.

Lemma no_dangling_more_nodes (g : Graph) (ns : list Node) (c : nat) :
  no_dangling g ->
  no_dangling (mkGraph (nodes g ++ ns) (edges g) c (edgeCounter g)).
Proof.
  intros Hg e He. destruct (Hg e He) as [(m1 & Hm1 & Hi1) (m2 & Hm2 & Hi2)].
  split; [exists m1 | exists m2]; (split; [|assumption]); cbn;
    apply in_or_app; left; assumption.
Qed.

Lemma no_dangling_step (op : Op) (st : State) :
  no_dangling (graph st) -> well_addressed (graph st) op ->
  no_dangling (graph (step op st)).
Proof.
  intros Hst Hop. destruct op; cbn [step].
  - unfold addNode. destruct (NodeTypes.lookup ty); [|exact Hst].
    cbn [snd graph with_graph]. apply no_dangling_more_nodes, Hst.
  - unfold addEdge. destruct (find _ _); [exact Hst|].
    cbn [snd graph with_graph]. intros e He. cbn [edges] in He.
    apply in_app_or in He as [He | [<- | []]]; [exact (Hst e He)|].
    exact Hop.
  - eapply no_dangling_same_ids; [| |exact Hst]; cbn; [|reflexivity].
    apply same_ids_update. reflexivity.
  - intros e He. cbn in He.
    apply update_first_In in He as [He | (d & Hd & ->)]; [exact (Hst e He)|].
    exact (Hst d Hd).
  - apply no_dangling_deleteItem, Hst.
  - exact Hst.
  - exact Hst.
  - destruct (handleMouseMove_ids rect e st) as [Hn He].
    eapply no_dangling_same_ids; eassumption.
  - unfold handleWheel. destruct (viewportToCanvas _ _ _ _). exact Hst.
  - intros e [].
Qed.

(** Deleting a node leaves no edge whose source or target is that node's
    id, and every store operation and pointer move keeps all edges
    resolving to live nodes, provided [addEdge] is given the ids of two live
    nodes: [addEdge] itself does not look its arguments up. *)
Lemma edges_resolve_when_addEdge_gets_live_ids :
  (forall (st : State) (n : Node) (e : Edge),
      In e (edges (graph (deleteItem (Some (NodeItem n)) st))) ->
      sourceId e <> nid n /\ targetId e <> nid n)
  /\ (forall (op : Op) (st : State),
         no_dangling (graph st) -> well_addressed (graph st) op ->
         no_dangling (graph (step op st))).
Proof.
  split.
  - intros st n e He. apply deleteItem_cascades in He. tauto.
  - apply no_dangling_step.
Qed.

(** On the empty graph, which has no dangling edge,
    [addEdge("ghost_1", "ghost_2")] stores an edge whose ends are ids of no
    node. *)
Lemma addEdge_leaves_dangling_edge :
  no_dangling (graph init)
  /\ ~ no_dangling (graph (step (OpAddEdge "ghost_1" "ghost_2") init)).
Proof.
  split; [intros e []|].
  intros H.
  destruct (H (mkEdge "edge_1" "ghost_1" "ghost_2" "")) as [(n & [] & _) _].
  left. reflexivity.
Qed.

End DanglingFacts.

(** ** The cycle search always comes back *)

Section SearchFacts.
Import ValidationEngine.
Local Open Scope list_scope.

Lemma truthy_insert_true (v : gmap string bool) (k i : string) :
  truthy (<[k := true]> v) i = String.eqb k i || truthy v i.
Proof.
  unfold truthy. destruct (String.eqb_spec k i) as [-> | Hne].
  - rewrite lookup_insert_eq. reflexivity.
  - rewrite lookup_insert_ne by exact Hne. reflexivity.
Qed.

Lemma grows_refl (s : Search) : grows s s.
Proof. split; [auto | exists []; rewrite app_nil_r; reflexivity]. Qed.

Lemma grows_trans (s1 s2 s3 : Search) : grows s1 s2 -> grows s2 s3 -> grows s1 s3.
Proof.
  intros [Hv1 [m1 Hm1]] [Hv2 [m2 Hm2]]. split; [auto|].
  exists (m1 ++ m2). rewrite Hm2, Hm1, app_assoc. reflexivity.
Qed.

Lemma settled_after (s s' : Search) (r : Outcome) :
  grows s s' -> settled s' r -> settled s r.
Proof.
  intros Hg. destruct r; cbn [settled]; [| |tauto]; apply grows_trans, Hg.
Qed.

Lemma filter_length_mono {A : Type} (p q : A -> bool) (l : list A) :
  (forall a, q a = true -> p a = true) ->
  length (List.filter q l) <= length (List.filter p l).
Proof.
  intros Hqp. induction l as [| a l IH]; cbn [List.filter]; [lia|].
  destruct (q a) eqn:Hq.
  - rewrite (Hqp a Hq). cbn [length]. lia.
  - destruct (p a); cbn [length]; lia.
Qed.

Lemma filter_length_strict {A : Type} (p q : A -> bool) (l : list A) (x : A) :
  (forall a, q a = true -> p a = true) ->
  In x l -> p x = true -> q x = false ->
  length (List.filter q l) < length (List.filter p l).
Proof.
  intros Hqp Hin Hp Hq. induction l as [| a l IH]; [destruct Hin|].
  cbn [List.filter]. destruct Hin as [-> | Hin].
  - rewrite Hp, Hq. cbn [length].
    pose proof (filter_length_mono p q l Hqp). lia.
  - specialize (IH Hin). destruct (q a) eqn:Hqa.
    + rewrite (Hqp a Hqa). cbn [length]. lia.
    + destruct (p a); cbn [length]; lia.
Qed.

Lemma unvisited_grows (ids : list string) (s s' : Search) :
  grows s s' -> unvisited ids (visited s') <= unvisited ids (visited s).
Proof.
  intros [Hv _]. apply filter_length_mono. intros i Hi.
  apply negb_true_iff in Hi. apply negb_true_iff.
  destruct (truthy (visited s) i) eqn:Ht; [|reflexivity].
  rewrite (Hv i Ht) in Hi. discriminate.
Qed.

Lemma unvisited_mark (ids : list string) (v : gmap string bool) (k : string) :
  In k ids -> truthy v k = false ->
  unvisited ids (<[k := true]> v) < unvisited ids v.
Proof.
  intros Hin Hk. apply (filter_length_strict _ _ ids k).
  - intros i. rewrite truthy_insert_true, negb_orb, andb_true_iff. tauto.
  - exact Hin.
  - rewrite Hk. reflexivity.
  - rewrite truthy_insert_true, String.eqb_refl. reflexivity.
Qed.

(** The keys of the adjacency object are node ids. *)
Lemma build_graph_keys (nodes : list Node) (edges : list Edge) (k : string) :
  is_Some (build_graph nodes edges !! k) -> In k (map nid nodes).
Proof.
  unfold build_graph.
  assert (Hedges : forall (es : list Edge) (g : gmap string (list string)),
    is_Some (fold_left
               (fun g edge =>
                  match g !! sourceId edge with
                  | Some targets => <[sourceId edge := targets ++ [targetId edge]]> g
                  | None => g
                  end) es g !! k) -> is_Some (g !! k)).
  { induction es as [| e es IH]; intros g Hg; [exact Hg|].
    cbn [fold_left] in Hg. apply IH in Hg.
    destruct (g !! sourceId e) as [targets|] eqn:Hsrc; [|exact Hg].
    apply lookup_insert_is_Some in Hg as [<- | [_ Hg]]; [|exact Hg].
    rewrite Hsrc. eauto. }
  assert (Hnodes : forall (ns : list Node) (g : gmap string (list string)),
    is_Some (fold_left (fun g node => <[nid node := []]> g) ns g !! k) ->
    In k (map nid ns) \/ is_Some (g !! k)).
  { induction ns as [| n ns IH]; intros g Hg; [right; exact Hg|].
    cbn [fold_left] in Hg. apply IH in Hg as [Hg | Hg]; [left; right; exact Hg|].
    apply lookup_insert_is_Some in Hg as [<- | [_ Hg]];
      [left; left; reflexivity | right; exact Hg]. }
  intros H. apply Hedges, Hnodes in H as [H | H]; [exact H|].
  rewrite lookup_empty in H. destruct H as [x Hx]. discriminate.
Qed.

Section Search.
Variable nodes : list Node.
Variable edges : list Edge.
Let graph := build_graph nodes edges.
Let ids := map nid nodes.

Lemma visit_neighbors_settled (recurse : string -> list string -> Search -> Outcome)
    (fuel : nat) (nodeId : string) (path : list string) :
  (forall nb p s, unvisited ids (visited s) < fuel -> truthy (visited s) nb = false ->
                  settled s (recurse nb p s)) ->
  forall neighbors s,
    unvisited ids (visited s) < fuel ->
    settled s (visit_neighbors nodes recurse nodeId path neighbors s).
Proof.
  intros Hrec. induction neighbors as [| nb rest IH]; intros s Hs;
    cbn [visit_neighbors].
  - cbn [settled]. split; cbn; [auto | exists []; rewrite app_nil_r; reflexivity].
  - destruct (truthy (visited s) nb) eqn:Hnb; cbn [negb].
    + destruct (truthy (recStack s) nb); [|apply IH, Hs].
      cbn [settled]. split; cbn; [auto | eauto].
    + specialize (Hrec nb path s Hs Hnb).
      destruct (recurse nb path s) as [[|] s' | s' |]; cbn [settled] in Hrec |- *;
        try exact Hrec.
      eapply settled_after; [exact Hrec|]. apply IH.
      pose proof (unvisited_grows ids s s' Hrec). lia.
Qed.

Lemma dfs_settled (fuel : nat) :
  forall nodeId path s,
    unvisited ids (visited s) < fuel -> truthy (visited s) nodeId = false ->
    settled s (dfs nodes graph fuel nodeId path s).
Proof.
  induction fuel as [| fuel IH]; intros nodeId path s Hs Hid; [lia|].
  cbn [dfs].
  set (s1 := mkSearch _ _ _ _).
  assert (Hg : grows s s1).
  { split; cbn; [|exists []; rewrite app_nil_r; reflexivity].
    intros k Hk. rewrite truthy_insert_true, Hk. apply orb_true_r. }
  destruct (graph !! nodeId) as [neighbors|] eqn:Hkey; [|exact Hg].
  eapply settled_after; [exact Hg|].
  apply (visit_neighbors_settled (dfs nodes graph fuel) fuel); [exact IH|].
  assert (Hin : In nodeId ids)
    by (apply (build_graph_keys nodes edges); fold graph; rewrite Hkey; eauto).
  pose proof (unvisited_mark ids (visited s) nodeId Hin Hid) as Hlt.
  subst s1. cbn [visited]. lia.
Qed.

Lemma dfs_from_settled (fuel : nat) (roots : list Node) :
  forall s, unvisited ids (visited s) < fuel ->
            settled s (dfs_from nodes graph fuel roots s).
Proof.
  induction roots as [| root rest IH]; intros s Hs; cbn [dfs_from].
  - apply grows_refl.
  - destruct (truthy (visited s) (nid root)) eqn:Hroot; cbn [negb]; [apply IH, Hs|].
    pose proof (dfs_settled fuel (nid root) [] s Hs Hroot) as Hd.
    destruct (dfs nodes graph fuel (nid root) [] s) as [r s' | s' |];
      cbn [settled] in Hd |- *; try exact Hd.
    eapply settled_after; [exact Hd|]. apply IH.
    pose proof (unvisited_grows ids s s' Hd). lia.
Qed.

(** [checkForCycles] ends, by return or by exception, with the messages it
    was given still in front. *)
Lemma checkForCycles_settled (messages0 : list string) :
  settled (mkSearch ∅ ∅ messages0 false) (checkForCycles nodes edges messages0).
Proof.
  unfold checkForCycles. fold graph.
  set (s0 := mkSearch ∅ ∅ messages0 false).
  assert (H0 : unvisited ids (visited s0) < S (length nodes)).
  { unfold unvisited, ids.
    pose proof (List.filter_length_le (fun i => negb (truthy (visited s0) i))
                  (map nid nodes)) as Hle.
    rewrite length_map in Hle. lia. }
  pose proof (dfs_from_settled (S (length nodes))
                (List.filter (is_type "start") nodes) s0 H0) as H1.
  destruct (dfs_from nodes graph (S (length nodes)) _ s0) as [r s1 | s1 |];
    cbn [settled] in H1 |- *; try exact H1.
  destruct (_ || _); [|exact H1].
  eapply settled_after; [exact H1|]. apply dfs_from_settled.
  pose proof (unvisited_grows ids s0 s1 H1). lia.
Qed.

(** A validation run never stops for lack of fuel. *)
Lemma validateFlowchart_finishes : validateFlowchart nodes edges <> Unfinished.
Proof.
  unfold validateFlowchart. destruct (Nat.eqb (length nodes) 0); [discriminate|].
  match goal with |- context [checkForCycles nodes edges ?m] =>
    pose proof (checkForCycles_settled m) as H;
    destruct (checkForCycles nodes edges m) end;
    [discriminate | discriminate | destruct H].
Qed.

End Search.
End SearchFacts.

Section MessageOrder.
Import ValidationEngine.
Local Open Scope list_scope.

Lemma fold_left_appends {A : Type} (f : list string -> A -> list string) (l : list A) :
  (forall msgs a, exists more, f msgs a = msgs ++ more) ->
  forall msgs, exists more, fold_left f l msgs = msgs ++ more.
Proof.
  intros Hf. induction l as [| a l IH]; intros msgs; cbn [fold_left].
  - exists []. rewrite app_nil_r. reflexivity.
  - destruct (Hf msgs a) as [m1 H1]. destruct (IH (f msgs a)) as [m2 H2].
    exists (m1 ++ m2). rewrite H2, H1, app_assoc. reflexivity.
Qed.

Lemma checkUnconnectedNodes_appends (nodes : list Node) (edges : list Edge)
    (msgs : list string) :
  exists more, checkUnconnectedNodes nodes edges msgs = msgs ++ more.
Proof.
  unfold checkUnconnectedNodes. apply fold_left_appends. intros m node. cbv zeta.
  repeat (match goal with |- context [if ?b then _ else _] => destruct b end);
    eauto; exists []; rewrite app_nil_r; reflexivity.
Qed.

Lemma checkDecisionNodes_appends (nodes : list Node) (edges : list Edge)
    (msgs : list string) :
  exists more, checkDecisionNodes nodes edges msgs = msgs ++ more.
Proof.
  unfold checkDecisionNodes. apply fold_left_appends. intros m node. cbv zeta.
  repeat (match goal with |- context [if ?b then _ else _] => destruct b end);
    rewrite <- ?app_assoc; eauto; exists []; rewrite app_nil_r; reflexivity.
Qed.

(** With at least one node and neither a start nor an end node, the two
    diagnostics for the missing terminals come first, also when the cycle
    search raises on a dangling edge. *)
Lemma validateFlowchart_missing_terminals (nodes : list Node) (edges : list Edge) :
  nodes <> [] ->
  List.filter (is_type "start") nodes = [] ->
  List.filter (is_type "end") nodes = [] ->
  exists rest,
    validateFlowchart nodes edges = Completed ([msg_no_start; msg_no_end] ++ rest)
    \/ validateFlowchart nodes edges = Raised ([msg_no_start; msg_no_end] ++ rest).
Proof.
  intros Hne Hs He. unfold validateFlowchart.
  destruct nodes as [| n ns]; [contradiction|].
  cbn [length Nat.eqb]. rewrite Hs, He. cbn [length Nat.eqb app].
  destruct (checkUnconnectedNodes_appends (n :: ns) edges [msg_no_start; msg_no_end])
    as [m1 H1].
  rewrite H1.
  pose proof (checkForCycles_settled (n :: ns) edges
                ([msg_no_start; msg_no_end] ++ m1)) as H2.
  destruct (checkForCycles _ _ _) as [r s | s |]; cbn [settled] in H2.
  - destruct H2 as [_ [m2 H2]]. cbn [messages] in H2.
    destruct (checkDecisionNodes_appends (n :: ns) edges (messages s)) as [m3 H3].
    exists (m1 ++ m2 ++ m3). left. rewrite H3, H2, <- !app_assoc. reflexivity.
  - destruct H2 as [_ [m2 H2]]. cbn [messages] in H2.
    exists (m1 ++ m2). right. rewrite H2, <- !app_assoc. reflexivity.
  - destruct H2.
Qed.

End MessageOrder.

(** ** Acyclic flowcharts get no cycle message *)

Section AcyclicFacts.
Import ValidationEngine.
Local Open Scope list_scope.

Lemma chain_tail (edges : list Edge) (l1 l2 : list string) :
  chain edges (l1 ++ l2) -> chain edges l2.
Proof.
  induction l1 as [| a l1 IH]; [auto|].
  cbn [app]. intros H. apply IH.
  destruct (l1 ++ l2); [exact I | exact (proj2 H)].
Qed.

Lemma chain_snoc (edges : list Edge) (l : list string) (a b : string) :
  chain edges (l ++ [a]) -> linked edges a b -> chain edges (l ++ [a; b]).
Proof.
  intros Hl Hab. induction l as [| x l IH]; cbn [app chain] in *; [tauto|].
  destruct l as [| y l]; cbn [app] in *; [tauto|].
  split; [exact (proj1 Hl) | exact (IH (proj2 Hl))].
Qed.

Lemma ends_with (l1 l2 p : list string) (x y : string) :
  l1 ++ x :: l2 = p ++ [y] -> exists m, x :: l2 = m ++ [y].
Proof.
  intros H. destruct (exists_last (l := x :: l2)) as (m & z & Hm); [discriminate|].
  rewrite Hm, app_assoc in H. apply app_inj_tail in H as [_ ->].
  exists m. exact Hm.
Qed.

(** A back edge to an id on the path closes a cycle. *)
Lemma back_edge_cycle (edges : list Edge) (path0 : list string) (nodeId nb : string) :
  chain edges (path0 ++ [nodeId]) -> linked edges nodeId nb ->
  In nb (path0 ++ [nodeId]) -> has_cycle edges.
Proof.
  intros Hchain Hedge Hin.
  apply in_split in Hin as (l1 & l2 & Hsplit).
  destruct (ends_with l1 l2 path0 nb nodeId (eq_sym Hsplit)) as [m Hm].
  rewrite Hsplit in Hchain. apply chain_tail in Hchain. rewrite Hm in Hchain.
  exists nb, l2.
  change (nb :: l2 ++ [nb]) with ((nb :: l2) ++ [nb]). rewrite Hm, <- app_assoc.
  apply chain_snoc; assumption.
Qed.

(** What the adjacency object holds comes from the edge list. *)
Lemma build_graph_linked (nodes : list Node) (edges : list Edge)
    (a b : string) (targets : list string) :
  build_graph nodes edges !! a = Some targets -> In b targets -> linked edges a b.
Proof.
  unfold build_graph.
  set (P := fun (g : gmap string (list string)) =>
              forall a ts b, g !! a = Some ts -> In b ts -> linked edges a b).
  assert (Hnodes : forall (ns : list Node) (g : gmap string (list string)),
             P g -> P (fold_left (fun g node => <[nid node := []]> g) ns g)).
  { induction ns as [| n ns IH]; intros g Hg; [exact Hg|].
    cbn [fold_left]. apply IH. intros x ts y Hx Hy. cbn beta in Hx.
    destruct (decide (nid n = x)) as [Heq | Hne].
    - subst x. rewrite lookup_insert_eq in Hx. injection Hx as <-. destruct Hy.
    - rewrite lookup_insert_ne in Hx by exact Hne. exact (Hg x ts y Hx Hy). }
  assert (Hedges : forall (es : list Edge) (g : gmap string (list string)),
             (forall e, In e es -> In e edges) -> P g ->
             P (fold_left
                  (fun g edge =>
                     match g !! sourceId edge with
                     | Some targets => <[sourceId edge := targets ++ [targetId edge]]> g
                     | None => g
                     end) es g)).
  { induction es as [| e es IH]; intros g Hsub Hg; [exact Hg|].
    cbn [fold_left]. apply IH; [intros e' He'; apply Hsub; right; exact He'|].
    cbn beta. destruct (g !! sourceId e) as [ts0|] eqn:Hsrc; [|exact Hg].
    intros x ts y Hx Hy.
    destruct (decide (sourceId e = x)) as [Heq | Hne].
    - subst x. rewrite lookup_insert_eq in Hx. injection Hx as <-.
      apply in_app_or in Hy as [Hy | [<- | []]]; [exact (Hg _ ts0 y Hsrc Hy)|].
      exists e. split; [apply Hsub; left; reflexivity | split; reflexivity].
    - rewrite lookup_insert_ne in Hx by exact Hne. exact (Hg x ts y Hx Hy). }
  intros Ha Hb. eapply (Hedges edges); [auto | | exact Ha | exact Hb].
  apply Hnodes. intros x ts y Hx. rewrite lookup_empty in Hx. discriminate.
Qed.

Section Quiet.
Variable nodes : list Node.
Variable edges : list Edge.
Hypothesis acyclic : ~ has_cycle edges.
Let graph := build_graph nodes edges.

Lemma truthy_insert_false (m : gmap string bool) (k i : string) :
  truthy (<[k := false]> m) i = negb (String.eqb k i) && truthy m i.
Proof.
  unfold truthy. destruct (String.eqb_spec k i) as [-> | Hne].
  - rewrite lookup_insert_eq. reflexivity.
  - rewrite lookup_insert_ne by exact Hne. reflexivity.
Qed.

Lemma visit_neighbors_quiet (recurse : string -> list string -> Search -> Outcome)
    (nodeId : string) (path0 : list string) (s1 : Search) :
  chain edges (path0 ++ [nodeId]) ->
  (forall nb s, linked edges nodeId nb ->
                (forall k, truthy (recStack s) k = true -> In k (path0 ++ [nodeId])) ->
                quiet (path0 ++ [nodeId]) s (recurse nb (path0 ++ [nodeId]) s)) ->
  forall neighbors s,
    (forall nb, In nb neighbors -> linked edges nodeId nb) ->
    (forall k, truthy (recStack s) k = true -> In k (path0 ++ [nodeId])) ->
    messages s = messages s1 -> cycleFound s = cycleFound s1 ->
    quiet path0 s1
      (visit_neighbors nodes recurse nodeId (path0 ++ [nodeId]) neighbors s).
Proof.
  intros Hchain Hrec. induction neighbors as [| nb rest IH];
    intros s Hns Hstack Hmsg Hfound; cbn [visit_neighbors].
  - cbn [quiet messages cycleFound recStack]. repeat split; try assumption.
    intros k Hk. rewrite truthy_insert_false in Hk.
    apply andb_true_iff in Hk as [Hne Hk]. apply negb_true_iff in Hne.
    apply String.eqb_neq in Hne.
    apply Hstack, in_app_or in Hk as [Hk | [Hk | []]]; [exact Hk | congruence].
  - assert (Hnb : linked edges nodeId nb) by (apply Hns; left; reflexivity).
    assert (Hrest : forall x, In x rest -> linked edges nodeId x)
      by (intros x Hx; apply Hns; right; exact Hx).
    destruct (truthy (visited s) nb); cbn [negb].
    + destruct (truthy (recStack s) nb) eqn:Hon; [|apply IH; assumption].
      exfalso. apply acyclic.
      exact (back_edge_cycle edges path0 nodeId nb Hchain Hnb (Hstack nb Hon)).
    + specialize (Hrec nb s Hnb Hstack).
      destruct (recurse nb (path0 ++ [nodeId]) s) as [found s' | s' |];
        cbn [quiet] in Hrec |- *.
      * destruct Hrec as (-> & Hm & Hf & Hst).
        apply IH; [assumption | exact Hst | congruence | congruence].
      * congruence.
      * exact I.
Qed.

Lemma dfs_quiet (fuel : nat) :
  forall nodeId path0 s,
    chain edges (path0 ++ [nodeId]) ->
    (forall k, truthy (recStack s) k = true -> In k path0) ->
    quiet path0 s (dfs nodes graph fuel nodeId path0 s).
Proof.
  induction fuel as [| fuel IH]; intros nodeId path0 s Hchain Hstack; [exact I|].
  cbn [dfs].
  destruct (graph !! nodeId) as [neighbors|] eqn:Hkey; [|reflexivity].
  set (s1 := mkSearch _ _ _ _).
  assert (Hq : quiet path0 s1
                 (visit_neighbors nodes (dfs nodes graph fuel) nodeId
                    (path0 ++ [nodeId]) neighbors s1)).
  { apply visit_neighbors_quiet; try reflexivity; try assumption.
    - intros nb s' Hnb Hst. apply IH; [|exact Hst].
      rewrite <- app_assoc. apply chain_snoc; assumption.
    - intros nb Hnb. exact (build_graph_linked nodes edges nodeId nb neighbors Hkey Hnb).
    - intros k Hk. subst s1. cbn [recStack] in Hk.
      rewrite truthy_insert_true in Hk. apply orb_true_iff in Hk as [Hk | Hk].
      + apply String.eqb_eq in Hk as <-. apply in_or_app. right. left. reflexivity.
      + apply in_or_app. left. apply Hstack, Hk. }
  destruct (visit_neighbors _ _ _ _ _ _) as [found s' | s' |]; exact Hq.
Qed.

Lemma dfs_from_quiet (fuel : nat) (roots : list Node) :
  forall s, (forall k, truthy (recStack s) k = false) ->
    match dfs_from nodes graph fuel roots s with
    | Returned found s' =>
        found = cycleFound s /\ messages s' = messages s
        /\ cycleFound s' = cycleFound s
        /\ (forall k, truthy (recStack s') k = false)
    | Thrown s' => messages s' = messages s
    | OutOfFuel => True
    end.
Proof.
  induction roots as [| root rest IH]; intros s Hstack; cbn [dfs_from].
  - repeat split; try assumption.
  - destruct (truthy (visited s) (nid root)); cbn [negb]; [apply IH, Hstack|].
    assert (Hq : quiet [] s (dfs nodes graph fuel (nid root) [] s)).
    { apply dfs_quiet; [exact I|]. intros k Hk. rewrite Hstack in Hk. discriminate. }
    destruct (dfs nodes graph fuel (nid root) [] s) as [found s' | s' |];
      cbn [quiet] in Hq; [|exact Hq | exact I].
    destruct Hq as (_ & Hm & Hf & Hst).
    assert (Hclear : forall k, truthy (recStack s') k = false).
    { intros k. destruct (truthy (recStack s') k) eqn:Hk; [|reflexivity].
      destruct (Hst k Hk). }
    specialize (IH s' Hclear).
    destruct (dfs_from nodes graph fuel rest s') as [found' s'' | s'' |];
      [|congruence | exact I].
    destruct IH as (-> & Hm' & Hf' & Hst'). repeat split; congruence || assumption.
Qed.

(** On a flowchart without a cycle, [checkForCycles] adds no message and
    returns false. *)
Lemma checkForCycles_acyclic (messages0 : list string) :
  match checkForCycles nodes edges messages0 with
  | Returned found s => found = false /\ messages s = messages0
  | Thrown s => messages s = messages0
  | OutOfFuel => False
  end.
Proof.
  pose proof (checkForCycles_settled nodes edges messages0) as Hsettled.
  unfold checkForCycles in *. fold graph in Hsettled |- *.
  set (s0 := mkSearch ∅ ∅ messages0 false) in *.
  assert (H0 : forall k, truthy (recStack s0) k = false) by reflexivity.
  pose proof (dfs_from_quiet (S (length nodes))
                (List.filter (is_type "start") nodes) s0 H0) as H1.
  destruct (dfs_from nodes graph (S (length nodes)) _ s0) as [found s1 | s1 |];
    [|exact H1 | exact Hsettled].
  destruct H1 as (-> & Hm & Hf & Hst).
  change (messages s0) with messages0 in Hm.
  change (cycleFound s0) with false in Hf.
  destruct (_ || _); [|split; [exact Hf | exact Hm]].
  pose proof (dfs_from_quiet (S (length nodes)) nodes s1 Hst) as H2.
  destruct (dfs_from nodes graph (S (length nodes)) nodes s1) as [found s2 | s2 |];
    [|congruence | exact Hsettled].
  destruct H2 as (-> & Hm2 & Hf2 & _). split; congruence.
Qed.

End Quiet.

(** No cycle in the flowchart, no cycle message. *)
Lemma acyclic_no_cycle_message (nodes : list Node) (edges : list Edge) :
  ~ has_cycle edges -> cycle_messages (checkForCycles nodes edges []) = [].
Proof.
  intros Hacyclic. pose proof (checkForCycles_acyclic nodes edges Hacyclic []) as H.
  destruct (checkForCycles nodes edges []) as [found s | s |]; cbn [cycle_messages].
  - destruct H as [_ ->]. reflexivity.
  - rewrite H. reflexivity.
  - reflexivity.
Qed.

End AcyclicFacts.

(** ** Validation *)

Section ValidationFacts.
Import ValidationEngine.
Local Open Scope list_scope.

(** C3 (amended).  On a graph with no node, whatever its edges,
    [validateFlowchart] returns at its first test and produces no
    diagnostic at all; the diagnostics for a missing start node and a
    missing end node are the first two of every graph that has a node but
    neither a start nor an end node. *)
Theorem validateFlowchart_terminals_need_a_node :
  (forall edges : list Edge, validateFlowchart [] edges = Completed [])
  /\ (forall (nodes : list Node) (edges : list Edge),
         nodes <> [] ->
         List.filter (is_type "start") nodes = [] ->
         List.filter (is_type "end") nodes = [] ->
         exists rest,
           validateFlowchart nodes edges
           = Completed ([msg_no_start; msg_no_end] ++ rest)
           \/ validateFlowchart nodes edges
              = Raised ([msg_no_start; msg_no_end] ++ rest)).
Proof.
  split.
  - intros edges. reflexivity.
  - apply validateFlowchart_missing_terminals.
Qed.

Lemma validateFlowchart_terminals_need_a_node_witness :
  [labelled "node_1" "A"] <> []
  /\ exists rest,
       validateFlowchart [labelled "node_1" "A"] []
       = Completed ([msg_no_start; msg_no_end] ++ rest)
       \/ validateFlowchart [labelled "node_1" "A"] []
          = Raised ([msg_no_start; msg_no_end] ++ rest).
Proof.
  assert (Hne : [labelled "node_1" "A"] <> []) by discriminate.
  split; [exact Hne|].
  exact (proj2 validateFlowchart_terminals_need_a_node
               [labelled "node_1" "A"] [] Hne eq_refl eq_refl).
Defined.

(** C3 (counterexample).  The empty graph does not produce the two
    diagnostics for a missing start and a missing end node. *)
Lemma validateFlowchart_empty_not_two_messages :
  validateFlowchart [] [] <> Completed [msg_no_start; msg_no_end].
Proof. cbn. discriminate. Qed.

(** A graph with a node but neither a start nor an end node does get them. *)
Lemma validateFlowchart_single_process_node :
  validateFlowchart [labelled "node_1" "A"] []
  = Completed [msg_no_start; msg_no_end;
               "Node " +:+ quoted "A" +:+ " is completely disconnected."].
Proof. vm_compute. reflexivity. Qed.

(** The two graphs of the specification's scenario. *)
Lemma three_cycle_reported_once :
  cycle_messages (checkForCycles three_cycle_nodes three_cycle_edges [])
  = ["Cycle detected: A" +:+ cycle_separator +:+ "B" +:+ cycle_separator
     +:+ "C" +:+ cycle_separator +:+ "A"].
Proof. vm_compute. reflexivity. Qed.

Lemma fork_reports_no_cycle :
  cycle_messages (checkForCycles three_cycle_nodes fork_edges []) = [].
Proof. vm_compute. reflexivity. Qed.

(** A stale recursion stack: after the cycle A -> B -> A is found, the
    search from C meets A still marked and reports a second time. *)
Lemma tail_into_cycle_reported_twice :
  cycle_messages (checkForCycles three_cycle_nodes tail_into_cycle_edges [])
  = ["Cycle detected: A" +:+ cycle_separator +:+ "B" +:+ cycle_separator +:+ "A";
     msg_cycle_generic].
Proof. vm_compute. reflexivity. Qed.

(** C9 (evaluation at the failing input).  The graph has the two disjoint
    cycles P -> Q -> P and Y -> Z -> Y.  The search from P goes through Q to
    Y first, finds Y -> Z -> Y and returns at once through every caller, so
    that Q's edge back to P is never looked at: the run completes with one
    cycle message, and the cycle through P and Q is not reported. *)
Theorem disjoint_cycle_not_reported :
  chain two_cycles_edges ["node_1"; "node_2"; "node_1"]
  /\ chain two_cycles_edges ["node_3"; "node_4"; "node_3"]
  /\ checkForCycles two_cycles_nodes two_cycles_edges []
     = Returned true
         (mkSearch (list_to_map [("node_1", true); ("node_2", true);
                                 ("node_3", true); ("node_4", true)])
                   (list_to_map [("node_1", true); ("node_2", true);
                                 ("node_3", true); ("node_4", true)])
                   ["Cycle detected: Y" +:+ cycle_separator +:+ "Z"
                    +:+ cycle_separator +:+ "Y"]
                   true)
  /\ length (cycle_messages (checkForCycles two_cycles_nodes two_cycles_edges [])) = 1.
Proof.
  split; [|split; [|split; vm_compute; reflexivity]].
  - cbn [chain]. repeat split.
    + exists (arrow "edge_4" "node_1" "node_2"). cbn. tauto.
    + exists (arrow "edge_5" "node_2" "node_1"). cbn. tauto.
  - cbn [chain]. repeat split.
    + exists (arrow "edge_2" "node_3" "node_4"). cbn. tauto.
    + exists (arrow "edge_3" "node_4" "node_3"). cbn. tauto.
Qed.

End ValidationFacts.

(** ** The store with object identity denotes the graph store *)

Section StoreModelFacts.
Import CanvasManager Heap.
Local Open Scope list_scope.

Lemma omap_agree {A B : Type} (f g : A -> option B) (l : list A) :
  Forall (fun a => f a = g a) l -> omap f l = omap g l.
Proof.
  induction 1 as [| a l Ha _ IH]; cbn; [reflexivity|].
  rewrite Ha, IH. reflexivity.
Qed.

Lemma read_through_more {A : Type} (objs more : list A) (l : list addr) :
  Forall (fun p => p < length objs) l ->
  omap (fun p => (objs ++ more) !! p) l = omap (fun p => objs !! p) l.
Proof.
  intros H. apply omap_agree. eapply Forall_impl; [exact H|].
  intros p Hp. cbn beta. apply lookup_app_l. exact Hp.
Qed.

Lemma array_at_new (l : list (list addr)) (a b : list addr) :
  (l ++ [a; b]) !! length l = Some a /\ (l ++ [a; b]) !! S (length l) = Some b.
Proof.
  split.
  - rewrite lookup_app_r by lia. rewrite Nat.sub_diag. reflexivity.
  - rewrite lookup_app_r by lia.
    replace (S (length l) - length l) with 1 by lia. reflexivity.
Qed.

Lemma array_at_appended (s st : HState) (a b : list addr) :
  arrays st = arrays s ++ [a; b] ->
  array_at st (length (arrays s)) = a
  /\ array_at st (S (length (arrays s))) = b
  /\ (forall i, i < length (arrays s) -> array_at st i = array_at s i).
Proof.
  intros Hst. destruct (array_at_new (arrays s) a b) as [H1 H2].
  unfold array_at. rewrite Hst, H1, H2. repeat split.
  intros i Hi. rewrite lookup_app_l by exact Hi. reflexivity.
Qed.

Lemma array_at_insert_eq (s : HState) (a : nat) (l : list nat) (s' : HState) :
  arrays s' = <[a := l]> (arrays s) -> a < length (arrays s) -> array_at s' a = l.
Proof.
  intros Hs Ha. unfold array_at. rewrite Hs, list_lookup_insert_eq by exact Ha.
  reflexivity.
Qed.

Lemma array_at_insert_ne (s s' : HState) (a b : nat) (l : list nat) :
  arrays s' = <[a := l]> (arrays s) -> a <> b -> array_at s' b = array_at s b.
Proof.
  intros Hs Hab. unfold array_at. rewrite Hs, list_lookup_insert_ne by exact Hab.
  reflexivity.
Qed.

Lemma NoDup_snoc_fresh (l : list nat) (n : nat) :
  Forall (fun p => p < n) l -> NoDup l -> NoDup (l ++ [n]).
Proof.
  intros Hl Hnd. apply NoDup_app. split; [exact Hnd|]. split.
  - intros x Hx Hx'. apply list_elem_of_singleton in Hx'. subst x.
    rewrite Forall_forall in Hl. specialize (Hl n Hx). lia.
  - apply NoDup_singleton.
Qed.

Lemma Forall_snoc_fresh (l : list nat) (n : nat) :
  Forall (fun p => p < n) l -> Forall (fun p => p < S n) (l ++ [n]).
Proof.
  intros Hl. apply Forall_app. split.
  - eapply Forall_impl; [exact Hl|]. intros p Hp. cbn beta in *. lia.
  - repeat constructor.
Qed.

Lemma h_init_wf : wf h_init.
Proof.
  unfold wf, live_arrays. cbn. repeat split; try lia; constructor.
Qed.

Lemma wf_structural (op : Structural) (s : HState) :
  wf s -> wf (structural op s).
Proof.
  intros Hwf. pose proof Hwf as ([Hn He] & Hne & Hvn & Hve & Hdn & Hde).
  destruct op as [ty x y | src tgt | item]; cbn [structural].
  - unfold h_addNode. destruct (NodeTypes.lookup ty); [|exact Hwf].
    cbn [snd]. set (s' := mkHState _ _ _ _ _ _ _).
    assert (Hnew : array_at s' (this_nodes s)
                   = array_at s (this_nodes s) ++ [length (nodeObjs s)])
      by (eapply array_at_insert_eq; [reflexivity | exact Hn]).
    assert (Hold : array_at s' (this_edges s) = array_at s (this_edges s))
      by (eapply array_at_insert_ne; [reflexivity | exact Hne]).
    unfold wf, live_arrays. cbn [this_nodes this_edges s' nodeObjs edgeObjs].
    fold s'. rewrite Hnew, Hold. cbn [arrays s']. rewrite length_insert, length_app.
    cbn [length]. rewrite Nat.add_1_r.
    repeat split; try assumption.
    + apply Forall_snoc_fresh, Hvn.
    + apply NoDup_snoc_fresh; assumption.
  - unfold h_addEdge. destruct (find _ _); [exact Hwf|].
    cbn [snd]. set (s' := mkHState _ _ _ _ _ _ _).
    assert (Hnew : array_at s' (this_edges s)
                   = array_at s (this_edges s) ++ [length (edgeObjs s)])
      by (eapply array_at_insert_eq; [reflexivity | exact He]).
    assert (Hold : array_at s' (this_nodes s) = array_at s (this_nodes s))
      by (eapply array_at_insert_ne; [reflexivity | congruence]).
    unfold wf, live_arrays. cbn [this_nodes this_edges s' nodeObjs edgeObjs].
    fold s'. rewrite Hnew, Hold. cbn [arrays s']. rewrite length_insert, length_app.
    cbn [length]. rewrite Nat.add_1_r.
    repeat split; try assumption.
    + apply Forall_snoc_fresh, Hve.
    + apply NoDup_snoc_fresh; assumption.
  - destruct item as [[n | e | i c]|]; cbn [h_deleteItem]; try exact Hwf.
    + set (ns := List.filter _ (array_at s (this_nodes s))).
      set (es := List.filter _ (array_at s (this_edges s))).
      set (s' := mkHState _ _ _ _ _ _ _).
      destruct (array_at_appended s s' ns es eq_refl) as (A1 & A2 & _).
      unfold wf, live_arrays. cbn [this_nodes this_edges s' nodeObjs edgeObjs].
      fold s'. rewrite A1, A2. cbn [arrays s']. rewrite length_app. cbn [length].
      repeat split; try lia.
      * apply List.Forall_forall. intros p Hp. apply filter_In in Hp as [Hp _].
        rewrite List.Forall_forall in Hvn. apply Hvn, Hp.
      * apply List.Forall_forall. intros p Hp. apply filter_In in Hp as [Hp _].
        rewrite List.Forall_forall in Hve. apply Hve, Hp.
      * apply NoDup_ListNoDup, List.NoDup_filter, NoDup_ListNoDup, Hdn.
      * apply NoDup_ListNoDup, List.NoDup_filter, NoDup_ListNoDup, Hde.
    + set (es := List.filter _ (array_at s (this_edges s))).
      set (s' := mkHState _ _ _ _ _ _ _).
      assert (A1 : array_at s' (length (arrays s)) = es).
      { unfold array_at. cbn [arrays s']. rewrite lookup_app_r by lia.
        rewrite Nat.sub_diag. reflexivity. }
      assert (A2 : array_at s' (this_nodes s) = array_at s (this_nodes s)).
      { unfold array_at. cbn [arrays s']. rewrite lookup_app_l by exact Hn.
        reflexivity. }
      unfold wf, live_arrays. cbn [this_nodes this_edges s' nodeObjs edgeObjs].
      fold s'. rewrite A1, A2. cbn [arrays s']. rewrite length_app. cbn [length].
      repeat split; try lia; try assumption.
      * apply List.Forall_forall. intros p Hp. apply filter_In in Hp as [Hp _].
        rewrite List.Forall_forall in Hve. apply Hve, Hp.
      * apply NoDup_ListNoDup, List.NoDup_filter, NoDup_ListNoDup, Hde.
Qed.

Lemma wf_in_place (op : InPlace) (s : HState) : wf s -> wf (in_place op s).
Proof.
  intros Hwf.
  assert (Hn : forall i f, wf (h_mutate_node i f s)).
  { intros i f. unfold h_mutate_node. destruct (find _ _); [|exact Hwf].
    destruct Hwf as (Hl & Hne & Hvn & Hve & Hdn & Hde).
    unfold wf, live_arrays, array_at in *. cbn. rewrite length_alter.
    repeat split; tauto. }
  assert (He : forall i f, wf (h_mutate_edge i f s)).
  { intros i f. unfold h_mutate_edge. destruct (find _ _); [|exact Hwf].
    destruct Hwf as (Hl & Hne & Hvn & Hve & Hdn & Hde).
    unfold wf, live_arrays, array_at in *. cbn. rewrite length_alter.
    repeat split; tauto. }
  destruct op; cbn [in_place]; [apply Hn | apply He | apply Hn | apply Hn].
Qed.

Lemma wf_saveFlowchart (s : HState) : wf s -> wf (snd (h_saveFlowchart s)).
Proof.
  intros ([Hn He] & Hne & Hvn & Hve & Hdn & Hde).
  destruct (array_at_appended s (snd (h_saveFlowchart s))
              (array_at s (this_nodes s)) (array_at s (this_edges s)) eq_refl)
    as (_ & _ & A3).
  unfold wf, live_arrays.
  cbn [h_saveFlowchart snd this_nodes this_edges nodeObjs edgeObjs] in *.
  rewrite !A3 by assumption. cbn [arrays]. rewrite length_app. cbn [length].
  repeat split; try lia; assumption.
Qed.

Section ReadFacts.
Context {A : Type}.
Variable objs : list A.
Variable p : A -> bool.

Let at_has (a : nat) : bool :=
  match objs !! a with Some o => p o | None => false end.
Let read (l : list nat) : list A := omap (fun a => objs !! a) l.

Lemma read_cons_valid (a : nat) (l : list nat) :
  a < length objs -> exists o, objs !! a = Some o /\ read (a :: l) = o :: read l.
Proof.
  intros Ha. destruct (lookup_lt_is_Some_2 objs a Ha) as [o Ho].
  exists o. split; [exact Ho|]. unfold read. cbn. rewrite Ho. reflexivity.
Qed.

Lemma find_read (l : list nat) :
  Forall (fun a => a < length objs) l ->
  find p (read l) = match find at_has l with Some a => objs !! a | None => None end.
Proof.
  induction 1 as [| a l Ha _ IH]; [reflexivity|].
  destruct (read_cons_valid a l Ha) as (o & Ho & ->).
  cbn [find]. unfold at_has at 1. rewrite Ho.
  destruct (p o); [symmetry; exact Ho | exact IH].
Qed.

Lemma filter_read (l : list nat) :
  Forall (fun a => a < length objs) l ->
  read (List.filter at_has l) = List.filter p (read l).
Proof.
  induction 1 as [| a l Ha _ IH]; [reflexivity|].
  destruct (read_cons_valid a l Ha) as (o & Ho & ->).
  cbn [List.filter]. unfold at_has at 1. rewrite Ho.
  destruct (p o); [|exact IH].
  destruct (read_cons_valid a (List.filter at_has l) Ha) as (o' & Ho' & ->).
  rewrite IH. congruence.
Qed.

Lemma read_snoc (l : list nat) (o : A) :
  Forall (fun a => a < length objs) l ->
  omap (fun a => (objs ++ [o]) !! a) (l ++ [length objs]) = read l ++ [o].
Proof.
  intros Hl. rewrite omap_app. rewrite read_through_more by exact Hl.
  cbn. rewrite lookup_app_r by lia. rewrite Nat.sub_diag. reflexivity.
Qed.

Lemma update_first_none (f : A -> A) (l : list A) :
  find p l = None -> update_first p f l = l.
Proof.
  induction l as [| x l IH]; cbn [find update_first]; [reflexivity|].
  destruct (p x); [discriminate|]. intros H. rewrite IH by exact H. reflexivity.
Qed.

Lemma read_alter_elsewhere (f : A -> A) (a : nat) (l : list nat) :
  a ∉ l -> omap (fun q => alter f a objs !! q) l = read l.
Proof.
  intros Ha. apply omap_agree. apply Forall_forall. intros q Hq. cbn beta.
  apply list_lookup_alter_ne. intros ->. contradiction.
Qed.

Lemma read_alter (f : A -> A) (l : list nat) (a : nat) :
  Forall (fun q => q < length objs) l -> NoDup l ->
  find at_has l = Some a ->
  omap (fun q => alter f a objs !! q) l = update_first p f (read l).
Proof.
  intros Hl Hnd. induction Hl as [| q l Hq Hl IH]; [discriminate|].
  apply NoDup_cons in Hnd as [Hq_fresh Hnd].
  destruct (read_cons_valid q l Hq) as (o & Ho & ->).
  cbn [find update_first]. unfold at_has at 1. rewrite Ho.
  destruct (p o) eqn:Hpo.
  - intros [= <-]. cbn. rewrite list_lookup_alter_eq, Ho. cbn.
    rewrite read_alter_elsewhere by exact Hq_fresh. reflexivity.
  - intros Hfind. cbn.
    assert (Hne : a <> q).
    { intros ->. apply find_some in Hfind as [_ Hfind].
      unfold at_has in Hfind. rewrite Ho, Hpo in Hfind. discriminate. }
    rewrite list_lookup_alter_ne by exact Hne. rewrite Ho.
    rewrite IH by assumption. reflexivity.
Qed.

End ReadFacts.

Lemma view_mutate_node (i : string) (f : Node -> Node) (s : HState) :
  wf s ->
  view (h_mutate_node i f s)
  = mkGraph (update_first (has_nid i) f (nodes (view s))) (edges (view s))
            (nodeCounter (view s)) (edgeCounter (view s)).
Proof.
  intros (_ & _ & Hvn & _ & Hdn & _). unfold h_mutate_node, node_at_has.
  pose proof (find_read (nodeObjs s) (has_nid i) _ Hvn) as Hfind.
  destruct (find _ (array_at s (this_nodes s))) as [a|] eqn:Ha.
  - unfold view, read_nodes, read_edges, array_at. cbn.
    f_equal. apply (read_alter (nodeObjs s) (has_nid i) f _ a Hvn Hdn Ha).
  - unfold view at 1. cbn [nodes edges nodeCounter edgeCounter view].
    rewrite update_first_none by exact Hfind. reflexivity.
Qed.

Lemma view_mutate_edge (i : string) (f : Edge -> Edge) (s : HState) :
  wf s ->
  view (h_mutate_edge i f s)
  = mkGraph (nodes (view s)) (update_first (has_eid i) f (edges (view s)))
            (nodeCounter (view s)) (edgeCounter (view s)).
Proof.
  intros (_ & _ & _ & Hve & _ & Hde). unfold h_mutate_edge, edge_at_has.
  pose proof (find_read (edgeObjs s) (has_eid i) _ Hve) as Hfind.
  destruct (find _ (array_at s (this_edges s))) as [a|] eqn:Ha.
  - unfold view, read_nodes, read_edges, array_at. cbn.
    f_equal. apply (read_alter (edgeObjs s) (has_eid i) f _ a Hve Hde Ha).
  - unfold view at 1. cbn [nodes edges nodeCounter edgeCounter view].
    rewrite update_first_none by exact Hfind. reflexivity.
Qed.

(** The graph a store state denotes follows the graph store of
    [CanvasManager] through every structural operation. *)
Lemma view_structural (op : Structural) (s : HState) (st : State) :
  wf s -> graph st = view s ->
  graph (step (as_op op) st) = view (structural op s).
Proof.
  intros Hwf Hst. pose proof Hwf as ([Hn He] & Hne & Hvn & Hve & Hdn & Hde).
  destruct op as [ty x y | src tgt | item]; cbn [as_op step structural].
  - unfold addNode, h_addNode. destruct (NodeTypes.lookup ty); [|exact Hst].
    cbn [snd graph with_graph]. rewrite Hst.
    set (s' := mkHState _ _ _ _ _ _ _).
    assert (Hnew : array_at s' (this_nodes s')
                   = array_at s (this_nodes s) ++ [length (nodeObjs s)])
      by exact (array_at_insert_eq s (this_nodes s) _ s' eq_refl Hn).
    assert (Hold : array_at s' (this_edges s') = array_at s (this_edges s))
      by exact (array_at_insert_ne s s' (this_nodes s) (this_edges s) _ eq_refl Hne).
    unfold view, read_nodes, read_edges. rewrite Hnew, Hold.
    cbn [nodeObjs edgeObjs this_nodeCounter this_edgeCounter s'
         nodes edges nodeCounter edgeCounter].
    rewrite read_snoc by exact Hvn. reflexivity.
  - unfold addEdge, h_addEdge, edge_at_has. rewrite Hst.
    pose proof (find_read (edgeObjs s) (same_ends src tgt) _ Hve) as Hfind.
    cbn [edges view]. unfold read_edges. rewrite Hfind.
    destruct (find _ (array_at s (this_edges s))) as [a|] eqn:Ha.
    + apply find_some in Ha as [Ha _].
      rewrite List.Forall_forall in Hve.
      destruct (lookup_lt_is_Some_2 (edgeObjs s) a (Hve a Ha)) as [o ->].
      cbn [snd]. exact Hst.
    + cbn [snd graph with_graph].
      set (s' := mkHState _ _ _ _ _ _ _).
      assert (Hnew : array_at s' (this_edges s')
                     = array_at s (this_edges s) ++ [length (edgeObjs s)])
        by exact (array_at_insert_eq s (this_edges s) _ s' eq_refl He).
      assert (Hold : array_at s' (this_nodes s') = array_at s (this_nodes s))
        by exact (array_at_insert_ne s s' (this_edges s) (this_nodes s) _ eq_refl
                    (not_eq_sym Hne)).
      unfold view, read_nodes, read_edges. rewrite Hnew, Hold.
      cbn [nodeObjs edgeObjs this_nodeCounter this_edgeCounter s'
           nodes edges nodeCounter edgeCounter].
      rewrite read_snoc by exact Hve. reflexivity.
  - destruct item as [[n | e | i c]|]; cbn [deleteItem h_deleteItem];
      try exact Hst; cbn [graph selectItem with_graph]; rewrite Hst.
    + set (ns := List.filter _ (array_at s (this_nodes s))).
      set (es := List.filter _ (array_at s (this_edges s))).
      set (s' := mkHState _ _ _ _ _ _ _).
      destruct (array_at_appended s s' ns es eq_refl) as (A1 & A2 & _).
      change (length (arrays s)) with (this_nodes s') in A1.
      change (S (length (arrays s))) with (this_edges s') in A2.
      unfold view, read_nodes, read_edges. rewrite A1, A2.
      cbn [nodeObjs edgeObjs this_nodeCounter this_edgeCounter s'
           nodes edges nodeCounter edgeCounter].
      subst ns es. unfold node_at_has, edge_at_has.
      rewrite (filter_read (nodeObjs s)) by exact Hvn.
      rewrite (filter_read (edgeObjs s)) by exact Hve.
      reflexivity.
    + set (es := List.filter _ (array_at s (this_edges s))).
      set (s' := mkHState _ _ _ _ _ _ _).
      assert (A1 : array_at s' (this_edges s') = es).
      { unfold array_at. cbn [arrays this_edges s']. rewrite lookup_app_r by lia.
        rewrite Nat.sub_diag. reflexivity. }
      assert (A2 : array_at s' (this_nodes s') = array_at s (this_nodes s)).
      { unfold array_at. cbn [arrays this_nodes s'].
        rewrite lookup_app_l by exact Hn. reflexivity. }
      unfold view, read_nodes, read_edges. rewrite A1, A2.
      cbn [nodeObjs edgeObjs this_nodeCounter this_edgeCounter s'
           nodes edges nodeCounter edgeCounter].
      subst es. unfold edge_at_has.
      rewrite (filter_read (edgeObjs s)) by exact Hve.
      reflexivity.
Qed.

End StoreModelFacts.

(** ** Snapshots and sharing *)

Section SnapshotFacts.
Import CanvasManager Heap.
Local Open Scope list_scope.

Lemma Forall_lt_more (n m : nat) (l : list addr) :
  n <= m -> Forall (fun p => p < n) l -> Forall (fun p => p < m) l.
Proof.
  intros Hnm H. eapply Forall_impl; [exact H|]. intros p Hp. cbn beta in *. lia.
Qed.

(** A detached snapshot reads the same in every extension of the store and
    stays detached. *)
Lemma detached_extends (snap : HSnapshot) (s s' : HState) :
  live_arrays s -> detached snap s -> extends s s' ->
  detached snap s' /\ snapshot_view snap s' = snapshot_view snap s.
Proof.
  intros [Hln Hle] (Hn & He & Hnn & Hne & Hen & Hee & Hvn & Hve)
         ((mn & Hmn) & (me & Hme) & Hlen & Hsame & Htn & Hte).
  assert (Han : array_at s' (snap_nodes snap) = array_at s (snap_nodes snap))
    by (unfold array_at; rewrite Hsame by assumption; reflexivity).
  assert (Hae : array_at s' (snap_edges snap) = array_at s (snap_edges snap))
    by (unfold array_at; rewrite Hsame by assumption; reflexivity).
  split.
  - unfold detached. rewrite Han, Hae, Hmn, Hme, !length_app.
    repeat split; try lia;
      try (eapply Forall_lt_more; [|eassumption]; lia).
  - unfold snapshot_view, read_nodes, read_edges. rewrite Han, Hae, Hmn, Hme.
    rewrite !read_through_more by assumption. reflexivity.
Qed.

Lemma extends_structural (op : Structural) (s : HState) :
  extends s (structural op s).
Proof.
  assert (Hrefl : extends s s).
  { unfold extends. repeat split; try (exists []; rewrite app_nil_r; reflexivity);
      auto. }
  destruct op as [ty x y | src tgt | item]; cbn [structural].
  - unfold h_addNode. destruct (NodeTypes.lookup ty); [|exact Hrefl].
    cbn [snd]. unfold extends. cbn [nodeObjs edgeObjs arrays this_nodes this_edges].
    repeat split; eauto.
    + exists []. rewrite app_nil_r. reflexivity.
    + rewrite length_insert. lia.
    + intros a _ Ha _. apply list_lookup_insert_ne. congruence.
  - unfold h_addEdge. destruct (find _ _); [exact Hrefl|].
    cbn [snd]. unfold extends. cbn [nodeObjs edgeObjs arrays this_nodes this_edges].
    repeat split; eauto.
    + exists []. rewrite app_nil_r. reflexivity.
    + rewrite length_insert. lia.
    + intros a _ _ Ha. apply list_lookup_insert_ne. congruence.
  - destruct item as [[n | e | i c]|]; cbn [h_deleteItem]; try exact Hrefl;
      unfold extends; cbn [nodeObjs edgeObjs arrays this_nodes this_edges];
      repeat split; try (exists []; rewrite app_nil_r; reflexivity);
      try (rewrite length_app; cbn; lia);
      try (intros a Ha _ _; apply lookup_app_l; exact Ha);
      auto; right; lia.
Qed.

Lemma live_arrays_structural (op : Structural) (s : HState) :
  live_arrays s -> live_arrays (structural op s).
Proof.
  intros [Hn He]. destruct op as [ty x y | src tgt | item]; cbn [structural].
  - unfold h_addNode. destruct (NodeTypes.lookup ty); [|split; assumption].
    unfold live_arrays. cbn. rewrite length_insert. split; assumption.
  - unfold h_addEdge. destruct (find _ _); [split; assumption|].
    unfold live_arrays. cbn. rewrite length_insert. split; assumption.
  - destruct item as [[n | e | i c]|]; cbn [h_deleteItem]; try (split; assumption);
      unfold live_arrays; cbn; rewrite length_app; cbn; lia.
Qed.

Lemma detached_run_structural (snap : HSnapshot) (ops : list Structural) (s : HState) :
  live_arrays s -> detached snap s ->
  snapshot_view snap (run_structural ops s) = snapshot_view snap s.
Proof.
  revert s. induction ops as [| op ops IH]; intros s Hl Hd; [reflexivity|].
  cbn [run_structural fold_left].
  destruct (detached_extends snap s (structural op s) Hl Hd (extends_structural op s))
    as [Hd' Hv].
  change (snapshot_view snap (run_structural ops (structural op s))
          = snapshot_view snap s).
  rewrite IH; [exact Hv | apply live_arrays_structural, Hl | exact Hd'].
Qed.

Lemma saveFlowchart_detached (s : HState) :
  wf s ->
  let snap := fst (h_saveFlowchart s) in
  let s1 := snd (h_saveFlowchart s) in
  live_arrays s1 /\ detached snap s1
  /\ array_at s1 (snap_nodes snap) = array_at s1 (this_nodes s1)
  /\ array_at s1 (snap_edges snap) = array_at s1 (this_edges s1)
  /\ snapshot_view snap s1 = (read_nodes s (this_nodes s), read_edges s (this_edges s)).
Proof.
  intros ([Hn He] & _ & Hvn & Hve & _). cbv zeta.
  destruct (array_at_appended s (snd (h_saveFlowchart s))
              (array_at s (this_nodes s)) (array_at s (this_edges s)) eq_refl)
    as (A1 & A2 & A3).
  unfold live_arrays, detached, snapshot_view, read_nodes, read_edges.
  cbn [h_saveFlowchart fst snd snap_nodes snap_edges this_nodes this_edges
       nodeObjs edgeObjs] in *.
  rewrite A1, A2, !A3 by assumption.
  cbn [arrays]. rewrite length_app. cbn [length].
  repeat split; try lia; assumption.
Qed.

Lemma in_place_arrays (op : InPlace) (s : HState) :
  arrays (in_place op s) = arrays s
  /\ this_nodes (in_place op s) = this_nodes s
  /\ this_edges (in_place op s) = this_edges s.
Proof.
  destruct op; cbn [in_place];
    unfold h_updateNodeText, h_updateEdgeLabel, h_moveNode, h_resizeNode,
           h_mutate_node, h_mutate_edge;
    destruct (find _ _); repeat split; reflexivity.
Qed.

(** C7 (amended).  The snapshot [saveFlowchart] returns holds copies of the
    two arrays and the very node and edge objects of the live graph: it
    shows the graph as it is at the save; adding and deleting nodes and
    edges afterwards does not change what it shows; an assignment to a live
    node or edge (moving, resizing, editing a text or a label) shows through
    it, the snapshot reading exactly as the live graph does. *)
Theorem snapshot_shares_objects (s : HState) :
  wf s ->
  let snap := fst (h_saveFlowchart s) in
  let s1 := snd (h_saveFlowchart s) in
  snapshot_view snap s1 = (read_nodes s (this_nodes s), read_edges s (this_edges s))
  /\ (forall ops : list Structural,
         snapshot_view snap (run_structural ops s1) = snapshot_view snap s1)
  /\ (forall op : InPlace,
         snapshot_view snap (in_place op s1)
         = (read_nodes (in_place op s1) (this_nodes (in_place op s1)),
            read_edges (in_place op s1) (this_edges (in_place op s1)))).
Proof.
  intros Hwf. cbv zeta.
  destruct (saveFlowchart_detached s Hwf) as (Hl & Hd & Hn & He & Hv).
  split; [exact Hv|]. split.
  - intros ops. apply detached_run_structural; assumption.
  - intros op. destruct (in_place_arrays op (snd (h_saveFlowchart s)))
      as (Ha & Htn & Hte).
    unfold snapshot_view, read_nodes, read_edges, array_at in *.
    rewrite Htn, Hte, Ha, Hn, He. reflexivity.
Qed.

Lemma one_node_store_wf : wf one_node_store.
Proof.
  unfold wf, live_arrays.
  repeat split; cbn; try lia; repeat constructor; cbn; try lia;
    intros H; inversion H.
Defined.

Lemma snapshot_shares_objects_witness :
  wf one_node_store
  /\ snapshot_view (fst (h_saveFlowchart one_node_store))
                   (snd (h_saveFlowchart one_node_store))
     = (read_nodes one_node_store (this_nodes one_node_store),
        read_edges one_node_store (this_edges one_node_store)).
Proof.
  split; [exact one_node_store_wf|].
  exact (proj1 (snapshot_shares_objects one_node_store one_node_store_wf)).
Defined.

(** C7 (counterexample).  One process node is saved and then renamed
    through [updateNodeText]: the snapshot taken before the renaming shows
    the text "Process" at first and "Renamed" afterwards. *)
Lemma snapshot_sees_later_text_edit :
  let snap := fst (h_saveFlowchart one_node_store) in
  let s1 := snd (h_saveFlowchart one_node_store) in
  map text (fst (snapshot_view snap s1)) = ["Process"]
  /\ map text (fst (snapshot_view snap (h_updateNodeText "node_1" "Renamed" s1)))
     = ["Renamed"]
  /\ snapshot_view snap (h_updateNodeText "node_1" "Renamed" s1)
     <> snapshot_view snap s1.
Proof.
  cbv zeta.
  assert (H1 : map text (fst (snapshot_view (fst (h_saveFlowchart one_node_store))
                                            (snd (h_saveFlowchart one_node_store))))
               = ["Process"]) by reflexivity.
  assert (H2 : map text (fst (snapshot_view (fst (h_saveFlowchart one_node_store))
                    (h_updateNodeText "node_1" "Renamed"
                       (snd (h_saveFlowchart one_node_store)))))
               = ["Renamed"]) by reflexivity.
  split; [exact H1|]. split; [exact H2|].
  intros Heq. rewrite Heq in H2. rewrite H1 in H2. discriminate.
Qed.

End SnapshotFacts.

(** ** Storage errors *)

Section StorageFacts.
Import StorageManager.
Local Open Scope list_scope.

Variable Data : Type.
Variable write_fault : Items Data -> string -> Text Data -> option Exn.

(** Whatever goes wrong in [deleteFlowchart], the caller gets one and the
    same error. *)
Lemma deleteFlowchart_single_error (name : string) (items : Items Data) (e : Exn) :
  snd (deleteFlowchart Data write_fault name items) = inl e ->
  e = Error "Failed to delete flowchart".
Proof.
  unfold deleteFlowchart.
  destruct (getFlowchartList Data items) as [l | d]; cbn [snd].
  - destruct (includes name l).
    + destruct (updateFlowchartList _ _ _ _) as [items1 [e1 | u]]; cbn [snd];
        intros H; inversion H; reflexivity.
    + cbn [snd]. intros H; inversion H; reflexivity.
  - intros H; inversion H; reflexivity.
Qed.

(** A quota failure while the flowchart data is written is told apart. *)
Lemma saveFlowchart_quota_on_data (name : string) (data : Data) (items : Items Data)
    (l : list string) (m : string) :
  getFlowchartList Data items = JNames l -> includes name l = true ->
  write_fault items (FLOWCHART_PREFIX +:+ name) (TJson (JData data))
    = Some (DOMException "QuotaExceededError" m) ->
  saveFlowchart Data write_fault name data items
  = (items, inl (Error "Storage quota exceeded. Try deleting some flowcharts first.")).
Proof.
  intros Hl Hin Hw. unfold saveFlowchart, setItem. rewrite Hl, Hin. cbn [negb].
  rewrite Hw. reflexivity.
Qed.

(** Loading a name with nothing stored under it says so in the message. *)
Lemma loadFlowchart_unknown (name : string) (items : Items Data) :
  items !! (FLOWCHART_PREFIX +:+ name) = None ->
  loadFlowchart Data name items
  = inl (Error ("Failed to load flowchart: Flowchart " +:+ dquote +:+ name
                +:+ dquote +:+ " not found")).
Proof. intros H. unfold loadFlowchart. rewrite H. reflexivity. Qed.

End StorageFacts.

Section StorageEvaluation.
Import StorageManager.

(** A quota failure while the name index is written is reported as a plain
    save failure: [updateFlowchartList] has replaced the exception. *)
Lemma saveFlowchart_quota_on_index :
  snd (saveFlowchart CanvasManager.Snapshot
         (fault_on FLOWCHART_LIST_KEY quota_exceeded) "a" empty_chart fresh_storage)
  = inl (Error "Failed to save flowchart")
  /\ snd (saveFlowchart CanvasManager.Snapshot
            (fault_on FLOWCHART_LIST_KEY write_error) "a" empty_chart fresh_storage)
     = inl (Error "Failed to save flowchart").
Proof. split; vm_compute; reflexivity. Qed.

(** C8 (evaluation at the failing input).  Deleting the name "ghost", which
    was never saved, and deleting the saved name "a" while the browser
    rejects the write of the name index both raise the error
    "Failed to delete flowchart": the not-found error thrown inside
    [deleteFlowchart] is caught by its own handler and replaced, so the
    caller cannot tell an unknown name from a write failure. *)
Theorem deleteFlowchart_not_found_indistinct :
  snd (deleteFlowchart CanvasManager.Snapshot no_fault "ghost" storage_with_a)
  = inl (Error "Failed to delete flowchart")
  /\ snd (deleteFlowchart CanvasManager.Snapshot (always_fault write_error)
            "a" storage_with_a)
     = inl (Error "Failed to delete flowchart")
  /\ snd (deleteFlowchart CanvasManager.Snapshot no_fault "a" storage_with_a)
     = inr true.
Proof. repeat split; vm_compute; reflexivity. Qed.

End StorageEvaluation.

(** ** Hit tests and outlines *)

Section HitFacts.
Import NodeTypes.
Local Open Scope R_scope.

Lemma lookup_cases (ty : string) (t : NodeType) :
  lookup ty = Some t ->
  t = start \/ t = process \/ t = decision \/ t = input \/ t = end_.
Proof.
  unfold lookup.
  repeat (match goal with |- context [if ?b then _ else _] => destruct b end);
    intros H; inversion H; tauto.
Qed.

Lemma Rabs_le_iff (x a : R) : - a <= x <= a -> Rabs x <= a.
Proof. intros H. apply Rabs_le. exact H. Qed.

Lemma centre_is_hit (ty : string) (t : NodeType) (node : Node) :
  lookup ty = Some t -> 0 < width node -> 0 < height node ->
  containsPoint t node (nx node) (ny node) = true.
Proof.
  intros Hty Hw Hh.
  assert (Hx : nx node - nx node = 0) by ring.
  assert (Hy : ny node - ny node = 0) by ring.
  assert (H0 : forall k, 0 / k = 0) by (intros k; unfold Rdiv; ring).
  destruct (lookup_cases ty t Hty) as [-> | [-> | [-> | [-> | ->]]]];
    cbv [containsPoint start end_ process decision input oval_containsPoint
         process_containsPoint decision_containsPoint input_containsPoint];
    rewrite ?Hx, ?Hy, ?Rabs_R0, ?H0.
  - apply leb_true. lra.
  - rewrite !leb_true by lra. reflexivity.
  - apply leb_true. lra.
  - rewrite gtb_false by lra. rewrite geb_true by lra. rewrite leb_true by lra.
    reflexivity.
  - apply leb_true. lra.
Qed.

(** X1.  For each of the five node types and every node of positive width
    and height, the centre of the node passes the type's hit test. *)
Theorem containsPoint_centre (ty : string) (t : NodeType) (node : Node) :
  lookup ty = Some t -> 0 < width node -> 0 < height node ->
  containsPoint t node (nx node) (ny node) = true.
Proof.
  apply centre_is_hit.
Qed.

Lemma containsPoint_centre_witness :
  containsPoint process process_sample (nx process_sample) (ny process_sample) = true.
Proof.
  apply (containsPoint_centre "process" process process_sample);
    [reflexivity | cbn; lra | cbn; lra].
Defined.

End HitFacts.

(** ** Outlines, hit regions and connection points *)

Section OutlineHit.
Import NodeTypes.
Local Open Scope R_scope.

Lemma Rabs_scaled (u k : R) : 0 < k -> Rabs (u * k) / k = Rabs u.
Proof.
  intros Hk. rewrite Rabs_mult, (Rabs_pos_eq k) by lra. field. lra.
Qed.

Lemma Rabs_unit_sum (u v : R) :
  (0 <= u <= 1 /\ (v = 1 - u \/ v = u - 1)) \/ (-1 <= u <= 0 /\ (v = 1 + u \/ v = - (1 + u))) ->
  Rabs u + Rabs v <= 1.
Proof.
  intros H. unfold Rabs. destruct (Rcase_abs u), (Rcase_abs v); lra.
Qed.

Lemma process_outline_is_hit (node : Node) (p : Point) :
  0 < width node -> 0 < height node ->
  on_outline (node_outline process node) p ->
  containsPoint process node (fst p) (snd p) = true.
Proof.
  intros Hw Hh. destruct p as [px py].
  cbv [on_outline node_outline draw process process_draw containsPoint
       process_containsPoint on_closed_path on_open_path app on_segment fst snd].
  set (w := width node) in *. set (h := height node) in *.
  intros [H | [H | [H | [H | []]]]]; destruct H as (t & [Ht0 Ht1] & -> & ->);
    rewrite !leb_true; try reflexivity; apply Rabs_le; split; nra.
Qed.

Lemma decision_outline_is_hit (node : Node) (p : Point) :
  0 < width node -> 0 < height node ->
  on_outline (node_outline decision node) p ->
  containsPoint decision node (fst p) (snd p) = true.
Proof.
  intros Hw Hh. destruct p as [px py].
  cbv [on_outline node_outline draw decision decision_draw containsPoint
       decision_containsPoint on_closed_path on_open_path app on_segment fst snd].
  set (w := width node) in *. set (h := height node) in *.
  intros [H | [H | [H | [H | []]]]]; destruct H as (t & [Ht0 Ht1] & -> & ->);
    apply leb_true.
  - replace (nx node + t * (nx node + w / 2 - nx node) - nx node)
      with (t * (w / 2)) by ring.
    replace (ny node - h / 2 + t * (ny node - (ny node - h / 2)) - ny node)
      with ((t - 1) * (h / 2)) by ring.
    rewrite !Rabs_scaled by lra. apply Rabs_unit_sum. left. lra.
  - replace (nx node + w / 2 + t * (nx node - (nx node + w / 2)) - nx node)
      with ((1 - t) * (w / 2)) by ring.
    replace (ny node + t * (ny node + h / 2 - ny node) - ny node)
      with (t * (h / 2)) by ring.
    rewrite !Rabs_scaled by lra. apply Rabs_unit_sum. left. lra.
  - replace (nx node + t * (nx node - w / 2 - nx node) - nx node)
      with (- t * (w / 2)) by ring.
    replace (ny node + h / 2 + t * (ny node - (ny node + h / 2)) - ny node)
      with ((1 - t) * (h / 2)) by ring.
    rewrite !Rabs_scaled by lra. apply Rabs_unit_sum. right. lra.
  - replace (nx node - w / 2 + t * (nx node - (nx node - w / 2)) - nx node)
      with ((t - 1) * (w / 2)) by ring.
    replace (ny node + t * (ny node - h / 2 - ny node) - ny node)
      with (- t * (h / 2)) by ring.
    rewrite !Rabs_scaled by lra. apply Rabs_unit_sum. right. lra.
Qed.

Lemma input_outline_is_hit (node : Node) (p : Point) :
  0 < width node -> 0 < height node ->
  on_outline (node_outline input node) p ->
  containsPoint input node (fst p) (snd p) = true.
Proof.
  intros Hw Hh. destruct p as [px py].
  cbv [on_outline node_outline draw input input_draw containsPoint
       input_containsPoint on_closed_path on_open_path app on_segment fst snd].
  set (w := width node) in *. set (h := height node) in *.
  intros [H | [H | [H | [H | []]]]]; destruct H as (t & [Ht0 Ht1] & -> & ->).
  - replace (ny node - h / 2 + t * (ny node - h / 2 - (ny node - h / 2)) - ny node)
      with (- (h / 2)) by ring.
    rewrite gtb_false by (rewrite Rabs_Ropp, Rabs_pos_eq; lra).
    replace (- (h / 2) / (h / 2)) with (-1) by (field; lra).
    rewrite geb_true by nra. rewrite leb_true by nra. reflexivity.
  - replace (ny node - h / 2 + t * (ny node + h / 2 - (ny node - h / 2)) - ny node)
      with ((2 * t - 1) * (h / 2)) by ring.
    rewrite gtb_false by (apply Rabs_le; split; nra).
    replace ((2 * t - 1) * (h / 2) / (h / 2)) with (2 * t - 1) by (field; lra).
    rewrite geb_true by nra. rewrite leb_true by nra. reflexivity.
  - replace (ny node + h / 2 + t * (ny node + h / 2 - (ny node + h / 2)) - ny node)
      with (h / 2) by ring.
    rewrite gtb_false by (rewrite Rabs_pos_eq; lra).
    replace (h / 2 / (h / 2)) with 1 by (field; lra).
    rewrite geb_true by nra. rewrite leb_true by nra. reflexivity.
  - replace (ny node + h / 2 + t * (ny node - h / 2 - (ny node + h / 2)) - ny node)
      with ((1 - 2 * t) * (h / 2)) by ring.
    rewrite gtb_false by (apply Rabs_le; split; nra).
    replace ((1 - 2 * t) * (h / 2) / (h / 2)) with (1 - 2 * t) by (field; lra).
    rewrite geb_true by nra. rewrite leb_true by nra. reflexivity.
Qed.

Lemma oval_outline_is_hit (node : Node) (p : Point) :
  on_outline (oval_draw (nx node) (ny node) (width node) (height node)) p ->
  oval_containsPoint node (fst p) (snd p) = true.
Proof.
  cbv [on_outline oval_draw oval_containsPoint]. intros H.
  apply leb_true. rewrite H. lra.
Qed.

(** X2.  For each of the five node types and every node of positive width
    and height, every point of the outline that [draw] traces passes the
    type's hit test: a click on the border of a shape hits the shape. *)
Theorem outline_is_hit (ty : string) (t : NodeType) (node : Node) (p : Point) :
  lookup ty = Some t -> 0 < width node -> 0 < height node ->
  on_outline (node_outline t node) p ->
  containsPoint t node (fst p) (snd p) = true.
Proof.
  intros Hty Hw Hh Hp.
  destruct (lookup_cases ty t Hty) as [-> | [-> | [-> | [-> | ->]]]].
  - apply oval_outline_is_hit, Hp.
  - apply process_outline_is_hit; assumption.
  - apply decision_outline_is_hit; assumption.
  - apply input_outline_is_hit; assumption.
  - apply oval_outline_is_hit, Hp.
Qed.

Lemma decision_sample_east_vertex :
  on_outline (node_outline decision decision_sample) (60, 0).
Proof.
  right. left. exists 0. cbn. repeat split; lra.
Defined.

Lemma outline_is_hit_witness :
  containsPoint decision decision_sample 60 0 = true.
Proof.
  apply (outline_is_hit "decision" decision decision_sample (60, 0));
    [reflexivity | cbn; lra | cbn; lra | exact decision_sample_east_vertex].
Defined.

(** X3.  For start and end nodes of non-zero width and height the point
    [getConnectionPoint] returns lies on the ellipse that [draw] traces,
    wherever the other node is. *)
Theorem oval_connection_points_on_outline (t : NodeType) (node : Node) (target : Point) :
  t = start \/ t = end_ -> width node <> 0 -> height node <> 0 ->
  on_outline (node_outline t node) (getConnectionPoint t node target).
Proof.
  intros [-> | ->] Hw Hh; apply oval_connection_point_on_outline; assumption.
Qed.

Lemma oval_connection_points_on_outline_witness :
  on_outline (node_outline start (mkNode "node_1" "start" 0 0 100 50 "Start"))
             (getConnectionPoint start (mkNode "node_1" "start" 0 0 100 50 "Start")
                                 (200, 70)).
Proof.
  apply oval_connection_points_on_outline; [left; reflexivity | cbn; lra | cbn; lra].
Defined.

(** X4.  For a process node of positive width and height and another node
    whose centre is not on the vertical through its centre, the point
    [getConnectionPoint] returns lies on one of the four sides of the
    rectangle that [draw] traces. *)
Theorem process_connection_points_on_outline (node : Node) (target : Point) :
  0 < width node -> 0 < height node -> fst target <> nx node ->
  on_outline (node_outline process node) (getConnectionPoint process node target).
Proof. apply process_connection_point_on_outline. Qed.

Lemma process_connection_points_on_outline_witness :
  on_outline (node_outline process process_sample)
             (getConnectionPoint process process_sample (200, 70)).
Proof.
  apply process_connection_points_on_outline; cbn; lra.
Defined.

End OutlineHit.

(** ** Saving, loading and deleting by name *)

Section StorageSessions.
Import StorageManager.
Local Open Scope list_scope.

Variable Data : Type.


(** Only the name "list" has the key of the name index as its own key. *)
Lemma chart_key_is_index_key (name : string) :
  FLOWCHART_PREFIX +:+ name = FLOWCHART_LIST_KEY <-> name = "list".
Proof.
  unfold FLOWCHART_PREFIX, FLOWCHART_LIST_KEY. cbn. split.
  - intros H. injection H as H. exact H.
  - intros ->. reflexivity.
Qed.

Lemma chart_key_inj (a b : string) :
  FLOWCHART_PREFIX +:+ a = FLOWCHART_PREFIX +:+ b -> a = b.
Proof. unfold FLOWCHART_PREFIX. cbn. intros H. injection H as H. exact H. Qed.

Lemma getFlowchartList_insert_other (items : Items Data) (k : string) (v : Text Data) :
  k <> FLOWCHART_LIST_KEY ->
  getFlowchartList Data (<[k := v]> items) = getFlowchartList Data items.
Proof.
  intros Hk. unfold getFlowchartList, Items in *. rewrite lookup_insert_ne by exact Hk.
  reflexivity.
Qed.

Lemma getFlowchartList_insert_index (items : Items Data) (l : list string) :
  getFlowchartList Data (<[FLOWCHART_LIST_KEY := TJson (JNames l)]> items) = JNames l.
Proof. unfold getFlowchartList, Items in *. rewrite lookup_insert_eq. reflexivity. Qed.

(** What a save does when the browser accepts every write. *)
Lemma save_no_fault (name : string) (data : Data) (items : Items Data)
    (l : list string) :
  getFlowchartList Data items = JNames l ->
  saveFlowchart Data no_fault name data items
  = (<[FLOWCHART_PREFIX +:+ name := TJson (JData data)]>
       (if includes name l then items
        else <[FLOWCHART_LIST_KEY := TJson (JNames (l ++ [name]))]> items),
     inr true).
Proof.
  intros Hl. unfold saveFlowchart, updateFlowchartList, setItem, no_fault.
  rewrite Hl. destruct (includes name l); reflexivity.
Qed.

Lemma includes_In (name : string) (l : list string) :
  includes name l = true <-> In name l.
Proof.
  unfold includes. rewrite existsb_exists. split.
  - intros (x & Hx & Heq). apply String.eqb_eq in Heq. subst x. exact Hx.
  - intros H. exists name. split; [exact H | apply String.eqb_refl].
Qed.

Lemma includes_remove_first_same (name : string) (l : list string) :
  List.NoDup l -> includes name (remove_first name l) = false.
Proof.
  intros Hnd. destruct (includes name (remove_first name l)) eqn:H; [|reflexivity].
  exfalso. apply includes_In in H.
  induction Hnd as [| x l Hx Hnd IH]; [destruct H|].
  cbn [remove_first] in H. destruct (String.eqb_spec x name) as [-> | Hne].
  - contradiction.
  - destruct H as [H | H]; [congruence | exact (IH H)].
Qed.

Lemma includes_remove_first_other (name other : string) (l : list string) :
  other <> name -> includes other (remove_first name l) = includes other l.
Proof.
  intros Hne. induction l as [| x l IH]; [reflexivity|].
  cbn [remove_first]. destruct (String.eqb_spec x name) as [-> | Hx].
  - unfold includes. cbn [existsb].
    destruct (String.eqb_spec other name); [contradiction | reflexivity].
  - unfold includes in *. cbn [existsb]. rewrite IH. reflexivity.
Qed.

(** X5.  When the browser accepts every write and the name index holds a
    list of names (or is missing or unreadable), [saveFlowchart] returns true
    and [loadFlowchart] of the same name then returns the data saved. *)
Theorem save_then_load (name : string) (data : Data) (items : Items Data)
    (l : list string) :
  getFlowchartList Data items = JNames l ->
  snd (saveFlowchart Data no_fault name data items) = inr true
  /\ loadFlowchart Data name (fst (saveFlowchart Data no_fault name data items))
     = inr (JData data).
Proof.
  intros Hl. rewrite (save_no_fault name data items l Hl). cbn [fst snd].
  split; [reflexivity|]. unfold loadFlowchart, Items in *.
  rewrite lookup_insert_eq. reflexivity.
Qed.

(** X6.  A successful save of a name other than "list" leaves the name in
    the index exactly once if the index had no duplicates: the name is
    appended when it is new and the index is left alone when it is listed
    already; the flowcharts stored under other names are not touched. *)
Theorem save_lists_name_once (name : string) (data : Data) (items : Items Data)
    (l : list string) :
  getFlowchartList Data items = JNames l -> name <> "list" ->
  let items' := fst (saveFlowchart Data no_fault name data items) in
  getFlowchartList Data items' = JNames (if includes name l then l else l ++ [name])
  /\ (List.NoDup l -> List.NoDup (if includes name l then l else l ++ [name]))
  /\ (forall other, other <> name -> other <> "list" ->
        loadFlowchart Data other items' = loadFlowchart Data other items).
Proof.
  intros Hl Hname. cbv zeta. rewrite (save_no_fault name data items l Hl). cbn [fst].
  assert (Hkey : FLOWCHART_PREFIX +:+ name <> FLOWCHART_LIST_KEY)
    by (rewrite chart_key_is_index_key; exact Hname).
  split; [|split].
  - rewrite getFlowchartList_insert_other by exact Hkey.
    destruct (includes name l); [exact Hl | apply getFlowchartList_insert_index].
  - intros Hnd. destruct (includes name l) eqn:Hin; [exact Hnd|].
    apply List.NoDup_app; [exact Hnd | repeat constructor; intros [] |].
    intros x Hx [<- | []]. apply includes_In in Hx. congruence.
  - intros other Hother Hlist. unfold loadFlowchart, Items in *.
    rewrite lookup_insert_ne by (intros H; apply chart_key_inj in H; congruence).
    destruct (includes name l); [reflexivity|].
    rewrite lookup_insert_ne; [reflexivity|].
    intros H. symmetry in H. apply chart_key_is_index_key in H. contradiction.
Qed.

(** X7.  When the browser accepts every write, deleting a listed name other
    than "list" returns true, takes the name out of an index without
    duplicates and leaves the other names in it, and a later
    [loadFlowchart] of the name fails with the not-found message. *)
Theorem delete_removes_flowchart (name : string) (items : Items Data)
    (l : list string) :
  getFlowchartList Data items = JNames l -> includes name l = true ->
  name <> "list" -> List.NoDup l ->
  let items' := fst (deleteFlowchart Data no_fault name items) in
  snd (deleteFlowchart Data no_fault name items) = inr true
  /\ getFlowchartList Data items' = JNames (remove_first name l)
  /\ includes name (remove_first name l) = false
  /\ (forall other, other <> name ->
        includes other (remove_first name l) = includes other l)
  /\ loadFlowchart Data name items'
     = inl (Error ("Failed to load flowchart: " +:+ not_found name)).
Proof.
  intros Hl Hin Hname Hnd. cbv zeta.
  assert (Hkey : FLOWCHART_PREFIX +:+ name <> FLOWCHART_LIST_KEY)
    by (rewrite chart_key_is_index_key; exact Hname).
  unfold deleteFlowchart, updateFlowchartList, setItem, no_fault, removeItem.
  rewrite Hl, Hin. cbn [fst snd].
  split; [reflexivity|]. split; [|split; [|split]].
  - unfold getFlowchartList, Items in *.
    rewrite lookup_delete_ne by exact Hkey. rewrite lookup_insert_eq. reflexivity.
  - apply includes_remove_first_same, Hnd.
  - intros other Hother. apply includes_remove_first_other, Hother.
  - unfold loadFlowchart, Items in *. rewrite lookup_delete_eq. reflexivity.
Qed.

(** X8.  [saveFlowchart] is not atomic: when the write of the index is
    accepted and the write of the data is refused, the call fails with the
    error its handler builds, the new name is in the index all the same,
    and what [loadFlowchart] finds under the name is what was there before. *)
Theorem failed_save_leaves_name_listed
    (write_fault : Items Data -> string -> Text Data -> option Exn)
    (name : string) (data : Data) (items : Items Data) (l : list string) (e : Exn) :
  getFlowchartList Data items = JNames l -> includes name l = false ->
  name <> "list" ->
  write_fault items FLOWCHART_LIST_KEY (TJson (JNames (l ++ [name]))) = None ->
  write_fault (<[FLOWCHART_LIST_KEY := TJson (JNames (l ++ [name]))]> items)
              (FLOWCHART_PREFIX +:+ name) (TJson (JData data)) = Some e ->
  let result := saveFlowchart Data write_fault name data items in
  snd result = inl (save_catch e)
  /\ getFlowchartList Data (fst result) = JNames (l ++ [name])
  /\ loadFlowchart Data name (fst result) = loadFlowchart Data name items.
Proof.
  intros Hl Hin Hname Hw1 Hw2. cbv zeta.
  unfold saveFlowchart, updateFlowchartList, setItem.
  rewrite Hl, Hin. cbn [negb]. rewrite Hw1, Hw2. cbn [fst snd].
  split; [reflexivity|]. split.
  - apply getFlowchartList_insert_index.
  - unfold loadFlowchart, Items in *. rewrite lookup_insert_ne; [reflexivity|].
    intros H. symmetry in H. apply chart_key_is_index_key in H. contradiction.
Qed.

(** X9.  The flowchart named "list" is stored under the key of the name
    index: saving it replaces the index by the flowchart data, after which
    every save, of any name, fails with the generic save error and every
    delete with the delete error. *)
Theorem saving_as_list_replaces_index (data : Data) (items : Items Data)
    (l : list string) :
  getFlowchartList Data items = JNames l ->
  let items' := fst (saveFlowchart Data no_fault "list" data items) in
  getFlowchartList Data items' = JData data
  /\ (forall name data', snd (saveFlowchart Data no_fault name data' items')
                         = inl (Error "Failed to save flowchart"))
  /\ (forall name, snd (deleteFlowchart Data no_fault name items')
                   = inl (Error "Failed to delete flowchart")).
Proof.
  intros Hl. cbv zeta. rewrite (save_no_fault "list" data items l Hl). cbn [fst].
  assert (Hidx : forall m : Items Data,
             getFlowchartList Data
               (<[FLOWCHART_PREFIX +:+ "list" := TJson (JData data)]> m) = JData data).
  { intros m. unfold getFlowchartList, Items in *.
    change (FLOWCHART_PREFIX +:+ "list") with FLOWCHART_LIST_KEY.
    rewrite lookup_insert_eq. reflexivity. }
  split; [apply Hidx|]. split.
  - intros name data'. unfold saveFlowchart. rewrite Hidx. reflexivity.
  - intros name. unfold deleteFlowchart. rewrite Hidx. reflexivity.
Qed.

End StorageSessions.

Section StorageSessionWitnesses.
Import StorageManager.
Local Open Scope list_scope.

Lemma fresh_storage_index :
  getFlowchartList CanvasManager.Snapshot fresh_storage = JNames [].
Proof. vm_compute. reflexivity. Defined.

Lemma storage_with_a_index :
  getFlowchartList CanvasManager.Snapshot storage_with_a = JNames ["a"].
Proof. vm_compute. reflexivity. Defined.

Lemma save_then_load_witness :
  snd (saveFlowchart CanvasManager.Snapshot no_fault "a" empty_chart fresh_storage)
  = inr true
  /\ loadFlowchart CanvasManager.Snapshot "a"
       (fst (saveFlowchart CanvasManager.Snapshot no_fault "a" empty_chart
               fresh_storage))
     = inr (JData empty_chart).
Proof.
  exact (save_then_load CanvasManager.Snapshot "a" empty_chart fresh_storage []
           fresh_storage_index).
Defined.

Lemma save_lists_name_once_witness :
  getFlowchartList CanvasManager.Snapshot
    (fst (saveFlowchart CanvasManager.Snapshot no_fault "a" empty_chart fresh_storage))
  = JNames ["a"].
Proof.
  assert (Hname : "a" <> "list") by discriminate.
  exact (proj1 (save_lists_name_once CanvasManager.Snapshot "a" empty_chart
                  fresh_storage [] fresh_storage_index Hname)).
Defined.

Lemma delete_removes_flowchart_witness :
  snd (deleteFlowchart CanvasManager.Snapshot no_fault "a" storage_with_a) = inr true.
Proof.
  assert (Hname : "a" <> "list") by discriminate.
  assert (Hnd : List.NoDup ["a"]) by (repeat constructor; intros []).
  exact (proj1 (delete_removes_flowchart CanvasManager.Snapshot "a" storage_with_a
                  ["a"] storage_with_a_index eq_refl Hname Hnd)).
Defined.

Lemma failed_save_leaves_name_listed_witness :
  getFlowchartList CanvasManager.Snapshot
    (fst (saveFlowchart CanvasManager.Snapshot
            (fault_on (FLOWCHART_PREFIX +:+ "a") quota_exceeded)
            "a" empty_chart fresh_storage))
  = JNames ["a"].
Proof.
  assert (Hname : "a" <> "list") by discriminate.
  exact (proj1 (proj2
    (failed_save_leaves_name_listed CanvasManager.Snapshot
       (fault_on (FLOWCHART_PREFIX +:+ "a") quota_exceeded)
       "a" empty_chart fresh_storage [] quota_exceeded
       fresh_storage_index eq_refl Hname eq_refl eq_refl))).
Defined.

Lemma saving_as_list_replaces_index_witness :
  getFlowchartList CanvasManager.Snapshot
    (fst (saveFlowchart CanvasManager.Snapshot no_fault "list" empty_chart
            fresh_storage))
  = JData empty_chart.
Proof.
  exact (proj1 (saving_as_list_replaces_index CanvasManager.Snapshot empty_chart
                  fresh_storage [] fresh_storage_index)).
Defined.

End StorageSessionWitnesses.

(** ** What a validation run reports *)

Section ReportFacts.
Import ValidationEngine FlowchartRules.
Local Open Scope list_scope.

Lemma fold_left_flat_map {A : Type} (f : list string -> A -> list string)
    (g : A -> list string) (l : list A) :
  (forall msgs a, f msgs a = msgs ++ g a) ->
  forall msgs, fold_left f l msgs = msgs ++ flat_map g l.
Proof.
  intros Hf. induction l as [| a l IH]; intros msgs; cbn [fold_left flat_map].
  - rewrite app_nil_r. reflexivity.
  - rewrite IH, Hf, app_assoc. reflexivity.
Qed.

(** [checkUnconnectedNodes] adds, node by node, the message of each node. *)
Lemma checkUnconnectedNodes_by_node (nodes : list Node) (edges : list Edge)
    (msgs : list string) :
  checkUnconnectedNodes nodes edges msgs
  = msgs ++ flat_map (unconnected_messages edges) nodes.
Proof.
  unfold checkUnconnectedNodes. apply fold_left_flat_map. intros m node.
  cbv zeta. unfold unconnected_messages, hasIncoming, hasOutgoing.
  repeat (match goal with |- context [if ?b then _ else _] => destruct b end);
    rewrite ?app_nil_r; reflexivity.
Qed.

(** [checkDecisionNodes] adds, decision node by decision node, its messages. *)
Lemma checkDecisionNodes_by_node (nodes : list Node) (edges : list Edge)
    (msgs : list string) :
  checkDecisionNodes nodes edges msgs
  = msgs ++ flat_map (decision_messages edges)
                     (List.filter (is_type "decision") nodes).
Proof.
  unfold checkDecisionNodes. apply fold_left_flat_map. intros m node.
  cbv zeta. unfold decision_messages, outgoing, unlabeled.
  repeat (match goal with |- context [if ?b then _ else _] => destruct b end);
    rewrite <- ?app_assoc, ?app_nil_r; reflexivity.
Qed.

(** *** Relations kept by every step of the search *)

Section Invariant.
Variable nodes : list Node.
Variable graph : gmap string (list string).
Variable R : Search -> Search -> Prop.
Hypothesis R_refl : forall s, R s s.
Hypothesis R_trans : forall s1 s2 s3, R s1 s2 -> R s2 s3 -> R s1 s3.
Hypothesis R_step : forall s s', search_step s s' -> R s s'.

Let ends_in := ends_in R.

Lemma ends_in_after (s s' : Search) (r : Outcome) :
  R s s' -> ends_in s' r -> ends_in s r.
Proof.
  unfold ends_in, FlowchartRules.ends_in. intros H. destruct (final_state r); [|auto].
  apply R_trans, H.
Qed.

Lemma cycle_message_is_cycle_message (path : list string) (neighbor : string) :
  is_cycle_message (cycle_message nodes path neighbor) = true.
Proof.
  unfold cycle_message. destruct (indexOf neighbor path); reflexivity.
Qed.

Lemma visit_neighbors_ends_in (recurse : string -> list string -> Search -> Outcome)
    (nodeId : string) (path : list string) :
  (forall nb p s, ends_in s (recurse nb p s)) ->
  forall neighbors s,
    ends_in s (visit_neighbors nodes recurse nodeId path neighbors s).
Proof.
  intros Hrec. induction neighbors as [| nb rest IH]; intros s;
    cbn [visit_neighbors].
  - apply R_step, step_leave.
  - destruct (truthy (visited s) nb); cbn [negb].
    + destruct (truthy (recStack s) nb); [|apply IH].
      apply R_step, step_report, cycle_message_is_cycle_message.
    + specialize (Hrec nb path s).
      destruct (recurse nb path s) as [[|] s' | s' |]; try exact Hrec.
      eapply ends_in_after; [exact Hrec | apply IH].
Qed.

Lemma dfs_ends_in (fuel : nat) :
  forall nodeId path s, ends_in s (dfs nodes graph fuel nodeId path s).
Proof.
  induction fuel as [| fuel IH]; intros nodeId path s; [exact I|].
  cbn [dfs].
  destruct (graph !! nodeId) as [neighbors|]; [|apply R_step, step_enter].
  eapply ends_in_after; [apply R_step, step_enter|].
  apply visit_neighbors_ends_in, IH.
Qed.

Lemma dfs_from_ends_in (fuel : nat) (roots : list Node) :
  forall s, ends_in s (dfs_from nodes graph fuel roots s).
Proof.
  induction roots as [| root rest IH]; intros s; cbn [dfs_from].
  - apply R_refl.
  - destruct (truthy (visited s) (nid root)); cbn [negb]; [apply IH|].
    pose proof (dfs_ends_in fuel (nid root) [] s) as Hd.
    destruct (dfs nodes graph fuel (nid root) [] s) as [r s' | s' |];
      try exact Hd.
    eapply ends_in_after; [exact Hd | apply IH].
Qed.

End Invariant.

Lemma checkForCycles_ends_in (R : Search -> Search -> Prop)
    (nodes : list Node) (edges : list Edge) (messages0 : list string) :
  (forall s, R s s) ->
  (forall s1 s2 s3, R s1 s2 -> R s2 s3 -> R s1 s3) ->
  (forall s s', search_step s s' -> R s s') ->
  ends_in R (mkSearch ∅ ∅ messages0 false) (checkForCycles nodes edges messages0).
Proof.
  intros Hrefl Htrans Hstep. unfold checkForCycles.
  set (s0 := mkSearch ∅ ∅ messages0 false).
  pose proof (dfs_from_ends_in nodes (build_graph nodes edges) R Hrefl Htrans Hstep
                (S (length nodes)) (List.filter (is_type "start") nodes) s0) as H1.
  destruct (dfs_from nodes _ _ _ s0) as [r s1 | s1 |]; try exact H1.
  destruct (_ || _); [|exact H1].
  eapply ends_in_after; [exact Htrans | exact H1|].
  apply dfs_from_ends_in; assumption.
Qed.

(** *** The search only adds cycle reports *)

Lemma reported_refl (s : Search) : reported [] s s.
Proof.
  unfold reported. rewrite app_nil_r, orb_false_r. repeat split. constructor.
Qed.

Lemma reported_trans (m1 m2 : list string) (s1 s2 s3 : Search) :
  reported m1 s1 s2 -> reported m2 s2 s3 -> reported (m1 ++ m2) s1 s3.
Proof.
  intros (Hm1 & Hc1 & Hf1) (Hm2 & Hc2 & Hf2). repeat split.
  - rewrite Hm2, Hm1, app_assoc. reflexivity.
  - apply Forall_app. split; assumption.
  - rewrite Hf2, Hf1, length_app, <- orb_assoc. f_equal.
    destruct m1, m2; reflexivity.
Qed.

Lemma reported_step (s s' : Search) :
  search_step s s' -> exists more, reported more s s'.
Proof.
  intros [s0 k | s0 k | s0 m Hm].
  - exists []. unfold reported. cbn. rewrite app_nil_r, orb_false_r.
    repeat split. constructor.
  - exists []. unfold reported. cbn. rewrite app_nil_r, orb_false_r.
    repeat split. constructor.
  - exists [m]. repeat split; cbn; [|rewrite orb_true_r; reflexivity].
    constructor; [exact Hm | constructor].
Qed.

(** What [checkForCycles] adds to the messages are cycle reports, and it
    answers true exactly when it added one. *)
Lemma checkForCycles_reported (nodes : list Node) (edges : list Edge)
    (messages0 : list string) :
  match checkForCycles nodes edges messages0 with
  | Returned found s =>
      exists more, reported more (mkSearch ∅ ∅ messages0 false) s
                   /\ found = cycleFound s
  | Thrown s => exists more, reported more (mkSearch ∅ ∅ messages0 false) s
  | OutOfFuel => False
  end.
Proof.
  pose proof (checkForCycles_ends_in (fun s s' => exists more, reported more s s')
                nodes edges messages0) as H.
  pose proof (checkForCycles_settled nodes edges messages0) as Hs.
  assert (Hfound : match checkForCycles nodes edges messages0 with
                   | Returned found s => found = cycleFound s
                   | _ => True
                   end).
  { unfold checkForCycles.
    assert (Hfrom : forall fuel roots s,
              match dfs_from nodes (build_graph nodes edges) fuel roots s with
              | Returned found s' => found = cycleFound s'
              | _ => True
              end).
    { intros fuel roots. induction roots as [| root rest IH]; intros s;
        cbn [dfs_from]; [reflexivity|].
      destruct (negb _); [|apply IH].
      destruct (dfs _ _ _ _ _ _) as [r s' | s' |]; [apply IH | exact I | exact I]. }
    pose proof (Hfrom (S (length nodes)) (List.filter (is_type "start") nodes)
                  (mkSearch ∅ ∅ messages0 false)) as H1.
    destruct (dfs_from _ _ _ _ _) as [r s1 | s1 |]; [|exact I | exact I].
    destruct (_ || _); [apply Hfrom | reflexivity]. }
  assert (H' : ends_in (fun s s' => exists more, reported more s s')
                 (mkSearch ∅ ∅ messages0 false)
                 (checkForCycles nodes edges messages0)).
  { apply H.
    - intros s0. exists []. apply reported_refl.
    - intros s1 s2 s3 [m1 H1] [m2 H2]. exists (m1 ++ m2).
      exact (reported_trans m1 m2 s1 s2 s3 H1 H2).
    - apply reported_step. }
  clear H. unfold ends_in in H'.
  destruct (checkForCycles nodes edges messages0) as [found s | s |];
    cbn [final_state settled] in *.
  - destruct H' as [more Hmore]. exists more. split; assumption.
  - exact H'.
  - exact Hs.
Qed.

End ReportFacts.

(** ** The cycle search finds a cycle when there is one *)

Section CompleteFacts.
Import ValidationEngine FlowchartRules SearchColours.
Local Open Scope list_scope.

Lemma black_finished (s0 s' : Search) (k : string) :
  finished s0 s' -> black s0 k -> black s' k.
Proof.
  intros [Hv Hr] [Hk1 Hk2]. split; [apply Hv, Hk1 | rewrite Hr; exact Hk2].
Qed.

Lemma finished_trans (s1 s2 s3 : Search) :
  finished s1 s2 -> finished s2 s3 -> finished s1 s3.
Proof.
  intros [Hv1 Hr1] [Hv2 Hr2]. split; [auto|]. intros k. rewrite Hr2. apply Hr1.
Qed.

Lemma in_loop_finished (s0 s s' : Search) (u : string) :
  in_loop s0 u s -> finished s s' -> in_loop s0 u s'.
Proof.
  intros (Hv & Hu & Hr) [Hv' Hr']. repeat split; [auto | auto |].
  intros k. rewrite Hr'. apply Hr.
Qed.

Lemma list_max_bound (rank : string -> nat) (ts : list string) (v : string) :
  In v ts -> rank v <= list_max (map rank ts).
Proof.
  induction ts as [| t ts IH]; [intros []|].
  cbn [map list_max fold_right]. intros [-> | Hin]; [lia|].
  specialize (IH Hin). unfold list_max in IH. lia.
Qed.

Section Graph.
Variable nodes : list Node.
Variable graph : gmap string (list string).
Hypothesis closed :
  forall a ts b, graph !! a = Some ts -> In b ts -> is_Some (graph !! b).

(** *** No exception when every edge target is a key *)

Lemma visit_neighbors_not_thrown
    (recurse : string -> list string -> Search -> Outcome)
    (nodeId : string) (path : list string) :
  (forall nb p s, is_Some (graph !! nb) -> not_thrown (recurse nb p s)) ->
  forall neighbors s,
    (forall nb, In nb neighbors -> is_Some (graph !! nb)) ->
    not_thrown (visit_neighbors nodes recurse nodeId path neighbors s).
Proof.
  intros Hrec. induction neighbors as [| nb rest IH]; intros s Hkeys;
    cbn [visit_neighbors]; [exact I|].
  assert (Hrest : forall x, In x rest -> is_Some (graph !! x))
    by (intros x Hx; apply Hkeys; right; exact Hx).
  destruct (truthy (visited s) nb); cbn [negb].
  - destruct (truthy (recStack s) nb); [exact I | apply IH, Hrest].
  - specialize (Hrec nb path s (Hkeys nb (or_introl eq_refl))).
    destruct (recurse nb path s) as [[|] s' | s' |]; try exact Hrec.
    apply IH, Hrest.
Qed.

Lemma dfs_not_thrown (fuel : nat) :
  forall nodeId path s,
    is_Some (graph !! nodeId) -> not_thrown (dfs nodes graph fuel nodeId path s).
Proof.
  induction fuel as [| fuel IH]; intros nodeId path s [ts Hkey]; [exact I|].
  cbn [dfs]. rewrite Hkey.
  apply visit_neighbors_not_thrown; [exact IH|].
  intros nb Hnb. exact (closed nodeId ts nb Hkey Hnb).
Qed.

Lemma dfs_from_not_thrown (fuel : nat) (roots : list Node) :
  (forall root, In root roots -> is_Some (graph !! nid root)) ->
  forall s, not_thrown (dfs_from nodes graph fuel roots s).
Proof.
  induction roots as [| root rest IH]; intros Hkeys s; cbn [dfs_from]; [exact I|].
  assert (Hrest : forall x, In x rest -> is_Some (graph !! nid x))
    by (intros x Hx; apply Hkeys; right; exact Hx).
  destruct (truthy (visited s) (nid root)); cbn [negb]; [apply IH, Hrest|].
  pose proof (dfs_not_thrown fuel (nid root) [] s (Hkeys root (or_introl eq_refl)))
    as Hd.
  destruct (dfs nodes graph fuel (nid root) [] s) as [r s' | s' |]; try exact Hd.
  apply IH, Hrest.
Qed.

(** *** A search without a report leaves a numbering of the finished nodes *)

Lemma clean_enter (s0 : Search) (u : string) :
  clean graph s0 -> stack_visited s0 -> is_Some (graph !! u) ->
  truthy (visited s0) u = false ->
  clean graph (mkSearch (<[u := true]> (visited s0)) (<[u := true]> (recStack s0))
                        (messages s0) (cycleFound s0))
  /\ in_loop s0 u (mkSearch (<[u := true]> (visited s0))
                            (<[u := true]> (recStack s0))
                            (messages s0) (cycleFound s0)).
Proof.
  intros (Hf & [rank Hrank] & Hmarks) Hstack Hkey Hu. split; [split; [|split]|].
  - exact Hf.
  - exists rank. intros k ts v [Hk1 Hk2] Hts Hv. cbn [visited recStack] in *.
    rewrite truthy_insert_true in Hk1, Hk2.
    apply orb_false_iff in Hk2 as [Hne Hk2]. rewrite Hne in Hk1. cbn in Hk1.
    destruct (Hrank k ts v (conj Hk1 Hk2) Hts Hv) as [[Hv1 Hv2] Hlt].
    split; [|exact Hlt]. split; cbn [visited recStack];
      rewrite truthy_insert_true.
    + rewrite Hv1. apply orb_true_r.
    + rewrite Hv2, orb_false_r. apply String.eqb_neq. intros ->. congruence.
  - intros k b Hk. cbn [visited] in Hk.
    destruct (decide (u = k)) as [Heq | Hne].
    + subst k. rewrite lookup_insert_eq in Hk. injection Hk as <-. auto.
    + rewrite lookup_insert_ne in Hk by exact Hne. exact (Hmarks k b Hk).
  - repeat split; cbn [visited recStack].
    + intros k Hk. rewrite truthy_insert_true, Hk. apply orb_true_r.
    + rewrite truthy_insert_true, String.eqb_refl. reflexivity.
    + intros k. apply truthy_insert_true.
Qed.

Lemma clean_leave (s0 s : Search) (u : string) (ts : list string) :
  graph !! u = Some ts ->
  truthy (visited s0) u = false -> stack_visited s0 ->
  clean graph s -> in_loop s0 u s ->
  (forall v, In v ts -> black s v) ->
  explored graph s0 u
    (Returned false (mkSearch (visited s) (<[u := false]> (recStack s))
                              (messages s) (cycleFound s))).
Proof.
  intros Hts Hu Hstack (Hf & [rank Hrank] & Hmarks) (Hv & Hvu & Hr) Hblack.
  assert (Hon : truthy (recStack s) u = true)
    by (rewrite Hr, String.eqb_refl; reflexivity).
  assert (Hstay : forall k, black s k ->
            black (mkSearch (visited s) (<[u := false]> (recStack s))
                            (messages s) (cycleFound s)) k /\ k <> u).
  { intros k [Hk1 Hk2]. assert (Hne : k <> u) by (intros ->; congruence).
    split; [|exact Hne]. split; cbn [visited recStack]; [exact Hk1|].
    rewrite truthy_insert_false, Hk2. apply andb_false_r. }
  cbn [explored]. split; [split; [|split]|split].
  - exact Hf.
  - exists (fun k => if String.eqb k u then S (list_max (map rank ts)) else rank k).
    intros k tk v [Hk1 Hk2] Htk Hin. cbn [visited recStack] in Hk1, Hk2.
    destruct (String.eqb_spec k u) as [-> | Hne].
    + rewrite Hts in Htk. injection Htk as <-.
      destruct (Hstay v (Hblack v Hin)) as [Hbv Hvu'].
      split; [exact Hbv|].
      apply String.eqb_neq in Hvu'. rewrite Hvu'.
      pose proof (list_max_bound rank ts v Hin). lia.
    + rewrite truthy_insert_false in Hk2.
      assert (Hneq : String.eqb u k = false)
        by (apply String.eqb_neq; congruence).
      rewrite Hneq in Hk2. cbn in Hk2.
      destruct (Hrank k tk v (conj Hk1 Hk2) Htk Hin) as [Hbv Hlt].
      destruct (Hstay v Hbv) as [Hbv' Hvu'].
      split; [exact Hbv'|].
      apply String.eqb_neq in Hvu'. rewrite Hvu'. exact Hlt.
  - exact Hmarks.
  - split; cbn [visited recStack]; [exact Hv|].
    intros k. rewrite truthy_insert_false, Hr.
    destruct (String.eqb_spec u k) as [<- | Hne]; cbn; [|reflexivity].
    destruct (truthy (recStack s0) u) eqn:H0; [|reflexivity].
    apply Hstack in H0. congruence.
  - split; cbn [visited recStack]; [exact Hvu|].
    rewrite truthy_insert_false, String.eqb_refl. reflexivity.
Qed.

Lemma in_loop_stack_visited (s0 s : Search) (u : string) :
  stack_visited s0 -> in_loop s0 u s -> stack_visited s.
Proof.
  intros Hstack (Hv & Hvu & Hr) k Hk. rewrite Hr in Hk.
  apply orb_true_iff in Hk as [Hk | Hk].
  - apply String.eqb_eq in Hk as <-. exact Hvu.
  - apply Hv, Hstack, Hk.
Qed.

Lemma visit_neighbors_explored
    (recurse : string -> list string -> Search -> Outcome)
    (u : string) (path : list string) (ts : list string) (s0 : Search) :
  graph !! u = Some ts ->
  truthy (visited s0) u = false -> stack_visited s0 ->
  (forall nb p s, clean graph s -> stack_visited s -> is_Some (graph !! nb) ->
                  truthy (visited s) nb = false ->
                  explored graph s nb (recurse nb p s)) ->
  forall rest s,
    clean graph s -> in_loop s0 u s ->
    (forall v, In v rest -> In v ts) ->
    (forall v, In v ts -> In v rest \/ black s v) ->
    explored graph s0 u (visit_neighbors nodes recurse u path rest s).
Proof.
  intros Hts Hu Hstack Hrec. induction rest as [| nb rest IH];
    intros s Hclean Hloop Hsub Hdone; cbn [visit_neighbors].
  - apply (clean_leave s0 s u ts); try assumption.
    intros v Hv. destruct (Hdone v Hv) as [[] | Hb]. exact Hb.
  - assert (Hrest : forall v, In v rest -> In v ts)
      by (intros v Hv; apply Hsub; right; exact Hv).
    destruct (truthy (visited s) nb) eqn:Hnb; cbn [negb].
    + destruct (truthy (recStack s) nb) eqn:Hon; [reflexivity|].
      apply IH; [assumption | assumption | exact Hrest |].
      intros v Hv. destruct (Hdone v Hv) as [[<- | Hin] | Hb]; auto.
      right. split; assumption.
    + assert (Hkey : is_Some (graph !! nb))
        by (apply (closed u ts nb Hts), Hsub; left; reflexivity).
      specialize (Hrec nb path s Hclean
                    (in_loop_stack_visited s0 s u Hstack Hloop) Hkey Hnb).
      destruct (recurse nb path s) as [[|] s' | s' |]; cbn [explored] in Hrec |- *;
        try exact I; [exact Hrec|].
      destruct Hrec as (Hclean' & Hfin & Hb).
      apply IH; [exact Hclean' | | exact Hrest |].
      * exact (in_loop_finished s0 s s' u Hloop Hfin).
      * intros v Hv. destruct (Hdone v Hv) as [[<- | Hin] | Hbv]; auto.
        right. exact (black_finished s s' v Hfin Hbv).
Qed.

Lemma dfs_explored (fuel : nat) :
  forall u path s0,
    clean graph s0 -> stack_visited s0 -> is_Some (graph !! u) ->
    truthy (visited s0) u = false ->
    explored graph s0 u (dfs nodes graph fuel u path s0).
Proof.
  induction fuel as [| fuel IH]; intros u path s0 Hclean Hstack [ts Hts] Hu;
    [exact I|].
  cbn [dfs]. rewrite Hts.
  destruct (clean_enter s0 u Hclean Hstack (ex_intro _ ts Hts) Hu) as [Hc1 Hl1].
  apply (visit_neighbors_explored (dfs nodes graph fuel) u (path ++ [u]) ts s0);
    try assumption; [auto|].
  intros v Hv. left. exact Hv.
Qed.

(** Once a cycle has been found, [cycleFound] stays set. *)
Lemma dfs_from_keeps_found (fuel : nat) (roots : list Node) (s : Search) :
  ends_in (fun s s' => cycleFound s = true -> cycleFound s' = true) s
    (dfs_from nodes graph fuel roots s).
Proof.
  apply dfs_from_ends_in; [auto | auto |].
  intros s1 s2 [s0 k | s0 k | s0 m Hm]; auto.
Qed.

Lemma dfs_from_explored (fuel : nat) (roots : list Node) :
  (forall root, In root roots -> is_Some (graph !! nid root)) ->
  forall s,
    clean graph s -> (forall k, truthy (recStack s) k = false) ->
    match dfs_from nodes graph fuel roots s with
    | Returned found s' =>
        found = cycleFound s'
        /\ (cycleFound s' = false ->
            clean graph s' /\ (forall k, truthy (recStack s') k = false)
            /\ (forall k, truthy (visited s) k = true -> truthy (visited s') k = true)
            /\ (forall root, In root roots -> truthy (visited s') (nid root) = true))
    | _ => True
    end.
Proof.
  induction roots as [| root rest IH]; intros Hkeys s Hclean Hclear;
    cbn [dfs_from].
  - split; [reflexivity|]. intros _.
    split; [exact Hclean | split; [exact Hclear | split; [auto | intros root []]]].
  - assert (Hrest : forall x, In x rest -> is_Some (graph !! nid x))
      by (intros x Hx; apply Hkeys; right; exact Hx).
    destruct (truthy (visited s) (nid root)) eqn:Hroot; cbn [negb].
    + specialize (IH Hrest s Hclean Hclear).
      destruct (dfs_from nodes graph fuel rest s) as [found s' | s' |]; try exact I.
      destruct IH as [Hfound IH]. split; [exact Hfound|]. intros Hf.
      destruct (IH Hf) as (Hc & Hcl & Hv & Hr).
      split; [exact Hc | split; [exact Hcl | split; [exact Hv|]]].
      intros x [<- | Hx]; [apply Hv, Hroot | apply Hr, Hx].
    + assert (Hstack : stack_visited s)
        by (intros k Hk; rewrite Hclear in Hk; discriminate).
      pose proof (dfs_explored fuel (nid root) [] s Hclean Hstack
                    (Hkeys root (or_introl eq_refl)) Hroot) as Hd.
      destruct (dfs nodes graph fuel (nid root) [] s) as [[|] s1 | s1 |];
        cbn [explored] in Hd; try exact I.
      * pose proof (dfs_from_keeps_found fuel rest s1) as Hkeep.
        unfold ends_in in Hkeep.
        assert (Hfound : forall roots s,
                  match dfs_from nodes graph fuel roots s with
                  | Returned found s' => found = cycleFound s'
                  | _ => True
                  end).
        { clear. induction roots as [| r rs IHr]; intros s; cbn [dfs_from];
            [reflexivity|].
          destruct (negb _); [|apply IHr].
          destruct (dfs _ _ _ _ _ _); [apply IHr | exact I | exact I]. }
        specialize (Hfound rest s1).
        destruct (dfs_from nodes graph fuel rest s1) as [found s' | s' |];
          try exact I.
        cbn [final_state] in Hkeep. split; [exact Hfound|].
        intros Hf. rewrite (Hkeep Hd) in Hf. discriminate.
      * destruct Hd as (Hc1 & [Hv1 Hr1] & Hb1).
        assert (Hclear1 : forall k, truthy (recStack s1) k = false)
          by (intros k; rewrite Hr1; apply Hclear).
        specialize (IH Hrest s1 Hc1 Hclear1).
        destruct (dfs_from nodes graph fuel rest s1) as [found s' | s' |];
          try exact I.
        destruct IH as [Hfound IH]. split; [exact Hfound|]. intros Hf.
        destruct (IH Hf) as (Hc & Hcl & Hv & Hr).
        split; [exact Hc | split; [exact Hcl | split]].
        -- intros k Hk. apply Hv, Hv1, Hk.
        -- intros x [<- | Hx]; [apply Hv, Hb1 | apply Hr, Hx].
Qed.

End Graph.

(** *** The adjacency object holds every edge between nodes *)

Lemma build_graph_has_key (nodes : list Node) (edges : list Edge) (k : string) :
  In k (map nid nodes) -> is_Some (build_graph nodes edges !! k).
Proof.
  unfold build_graph.
  assert (Hedges : forall (es : list Edge) (g : gmap string (list string)),
    is_Some (g !! k) ->
    is_Some (fold_left
               (fun g edge =>
                  match g !! sourceId edge with
                  | Some targets => <[sourceId edge := targets ++ [targetId edge]]> g
                  | None => g
                  end) es g !! k)).
  { induction es as [| e es IH]; intros g Hg; [exact Hg|].
    cbn [fold_left]. apply IH.
    destruct (g !! sourceId e) as [targets|] eqn:Hsrc; [|exact Hg].
    apply lookup_insert_is_Some. destruct (decide (sourceId e = k)); auto. }
  assert (Hnodes : forall (ns : list Node) (g : gmap string (list string)),
    In k (map nid ns) \/ is_Some (g !! k) ->
    is_Some (fold_left (fun g node => <[nid node := []]> g) ns g !! k)).
  { induction ns as [| n ns IH]; intros g Hg; cbn [fold_left].
    - destruct Hg as [[] | Hg]. exact Hg.
    - apply IH. cbn [map] in Hg. destruct Hg as [[Hn | Hin] | Hg]; [| left; exact Hin |].
      + right. rewrite Hn. rewrite lookup_insert_eq. eauto.
      + right. apply lookup_insert_is_Some. destruct (decide (nid n = k)); auto. }
  intros Hk. apply Hedges, Hnodes. left. exact Hk.
Qed.

Lemma build_graph_holds_edge (nodes : list Node) (edges : list Edge) (e : Edge) :
  In e edges -> In (sourceId e) (map nid nodes) ->
  exists ts, build_graph nodes edges !! sourceId e = Some ts /\ In (targetId e) ts.
Proof.
  intros Hin Hsrc. pose proof (build_graph_has_key nodes [] _ Hsrc) as H0.
  unfold build_graph in *. cbn [fold_left] in H0.
  set (g0 := fold_left (fun g node => <[nid node := []]> g) nodes ∅) in *.
  clearbody g0. revert g0 H0.
  set (f := fun (g : gmap string (list string)) edge =>
              match g !! sourceId edge with
              | Some targets => <[sourceId edge := targets ++ [targetId edge]]> g
              | None => g
              end).
  assert (Hkeep : forall (es : list Edge) (g : gmap string (list string)) a ts b,
            g !! a = Some ts -> In b ts ->
            exists ts', fold_left f es g !! a = Some ts' /\ In b ts').
  { induction es as [| x es IH]; intros g a ts b Ha Hb; cbn [fold_left]; [eauto|].
    unfold f at 2. destruct (g !! sourceId x) as [tx|] eqn:Hx; [|eauto].
    destruct (decide (sourceId x = a)) as [Heq | Hne].
    - subst a. rewrite Ha in Hx. injection Hx as <-.
      apply (IH _ (sourceId x) (ts ++ [targetId x]) b);
        [apply lookup_insert_eq | apply in_or_app; left; exact Hb].
    - apply (IH _ a ts b); [|exact Hb].
      rewrite lookup_insert_ne by exact Hne. exact Ha. }
  induction edges as [| x es IH]; intros g [ts Hts]; [destruct Hin|].
  cbn [fold_left]. destruct Hin as [-> | Hin].
  - unfold f at 2. rewrite Hts.
    apply (Hkeep es _ (sourceId e) (ts ++ [targetId e]) (targetId e));
      [apply lookup_insert_eq | apply in_or_app; right; left; reflexivity].
  - apply (IH Hin). unfold f.
    destruct (g !! sourceId x) as [tx|] eqn:Hx; [|eauto].
    apply lookup_insert_is_Some. destruct (decide (sourceId x = sourceId e)); eauto.
Qed.

(** *** Counting the visited nodes *)

Lemma all_marked (v : gmap string bool) (ids : list string) :
  (forall k b, v !! k = Some b -> In k ids /\ b = true) ->
  length ids <= size v ->
  forall k, In k ids -> truthy v k = true.
Proof.
  intros Hm Hsize k Hk.
  set (D := dom v : gset string). set (I := list_to_set ids : gset string).
  assert (Hsub : D ⊆ I).
  { intros x Hx. apply elem_of_dom in Hx as [b Hb].
    apply elem_of_list_to_set, list_elem_of_In. exact (proj1 (Hm x b Hb)). }
  assert (HI : size I <= length ids).
  { unfold size, set_size. cbn. apply submseteq_length, NoDup_submseteq;
      [apply NoDup_elements|].
    intros x Hx. apply elem_of_elements, elem_of_list_to_set in Hx. exact Hx. }
  assert (HD : size D = size v) by apply size_dom.
  assert (Heq : D = I) by (apply set_subseteq_size_eq; [exact Hsub | lia]).
  assert (HkD : k ∈ D).
  { rewrite Heq. apply elem_of_list_to_set, list_elem_of_In. exact Hk. }
  apply elem_of_dom in HkD as [b Hb]. unfold truthy. rewrite Hb.
  destruct (Hm k b Hb) as [_ ->]. reflexivity.
Qed.

(** *** Numbers fall along every walk, so no walk comes back *)

Lemma chain_ranks_fall (edges : list Edge) (rank : string -> nat) :
  (forall a b, linked edges a b -> rank b < rank a) ->
  forall walk x y, chain edges (x :: walk ++ [y]) -> rank y < rank x.
Proof.
  intros Hfall. induction walk as [| z walk IH]; intros x y Hchain.
  - apply Hfall. exact (proj1 Hchain).
  - destruct Hchain as [Hxz Hrest]. specialize (IH z y Hrest).
    specialize (Hfall x z Hxz). lia.
Qed.

End CompleteFacts.

(** ** Validation decides the rules of a flowchart *)

Section DecideFacts.
Import ValidationEngine FlowchartRules SearchColours.
Local Open Scope list_scope.

Variable nodes : list Node.
Variable edges : list Edge.

Lemma targets_are_nodes_closed :
  targets_are_nodes nodes edges ->
  forall a ts b, build_graph nodes edges !! a = Some ts -> In b ts ->
                 is_Some (build_graph nodes edges !! b).
Proof.
  intros Hclosed a ts b Ha Hb.
  destruct (build_graph_linked nodes edges a b ts Ha Hb) as (e & He & <- & <-).
  apply build_graph_has_key, Hclosed; [exact He|].
  apply (build_graph_keys nodes edges). rewrite Ha. eauto.
Qed.

Lemma ends_are_targets :
  ends_are_nodes nodes edges -> targets_are_nodes nodes edges.
Proof. intros H e He _. exact (proj2 (H e He)). Qed.

Lemma node_is_key (node : Node) :
  In node nodes -> is_Some (build_graph nodes edges !! nid node).
Proof. intros H. apply build_graph_has_key, in_map, H. Qed.

(** With every edge target a node, the cycle search returns. *)
Lemma checkForCycles_returns (messages0 : list string) :
  targets_are_nodes nodes edges ->
  exists found s, checkForCycles nodes edges messages0 = Returned found s.
Proof.
  intros Hclosed.
  pose proof (checkForCycles_settled nodes edges messages0) as Hs.
  assert (Hn : not_thrown (checkForCycles nodes edges messages0)).
  { unfold checkForCycles.
    pose proof (targets_are_nodes_closed Hclosed) as Hc.
    pose proof (dfs_from_not_thrown nodes (build_graph nodes edges) Hc
                  (S (length nodes)) (List.filter (is_type "start") nodes)) as H1.
    match goal with |- context [dfs_from ?n ?g ?f ?r ?s] =>
      specialize (H1 (fun root Hr => node_is_key root
                        (proj1 (proj1 (filter_In _ _ _) Hr))) s);
      destruct (dfs_from n g f r s) as [r1 s1 | s1 |] end; try exact H1.
    destruct (_ || _); [|exact I].
    apply dfs_from_not_thrown; [exact Hc | intros root Hr; apply node_is_key, Hr]. }
  destruct (checkForCycles nodes edges messages0) as [found s | s |];
    [eauto | destruct Hn | destruct Hs].
Qed.

Lemma clean_start (messages0 : list string) :
  clean (build_graph nodes edges) (mkSearch ∅ ∅ messages0 false).
Proof.
  split; [reflexivity | split].
  - exists (fun _ => 0). intros u ts v [Hu _]. discriminate.
  - intros k b Hk. cbn in Hk. rewrite lookup_empty in Hk. discriminate.
Qed.

(** A clean state with every node visited and nothing on the stack shows
    that no walk along the edges comes back. *)
Lemma clean_all_visited_acyclic (s : Search) :
  ends_are_nodes nodes edges ->
  clean (build_graph nodes edges) s ->
  (forall k, truthy (recStack s) k = false) ->
  (forall k, In k (map nid nodes) -> truthy (visited s) k = true) ->
  ~ has_cycle edges.
Proof.
  intros Hends (_ & [rank Hrank] & _) Hclear Hall (a & inner & Hchain).
  assert (Hfall : forall x y, linked edges x y -> rank y < rank x).
  { intros x y (e & He & <- & <-).
    destruct (Hends e He) as [Hsrc Htgt].
    destruct (build_graph_holds_edge nodes edges e He Hsrc) as (ts & Hts & Hin).
    apply (Hrank (sourceId e) ts (targetId e)); [|exact Hts | exact Hin].
    split; [apply Hall, Hsrc | apply Hclear]. }
  pose proof (chain_ranks_fall edges rank Hfall inner a a Hchain). lia.
Qed.

(** With both ends of every edge a node, a search that answers false has
    seen that there is no cycle. *)
Lemma checkForCycles_false_acyclic (messages0 : list string) (s : Search) :
  ends_are_nodes nodes edges ->
  checkForCycles nodes edges messages0 = Returned false s ->
  ~ has_cycle edges.
Proof.
  intros Hends. unfold checkForCycles.
  pose proof (targets_are_nodes_closed (ends_are_targets Hends)) as Hc.
  set (graph := build_graph nodes edges) in *.
  set (s0 := mkSearch ∅ ∅ messages0 false).
  pose proof (dfs_from_explored nodes graph Hc (S (length nodes))
                (List.filter (is_type "start") nodes)
                (fun root Hr => node_is_key root
                                  (proj1 (proj1 (filter_In _ _ _) Hr)))
                s0 (clean_start messages0) (fun k => eq_refl)) as H1.
  destruct (dfs_from nodes graph _ _ s0) as [found1 s1 | s1 |];
    [|discriminate | discriminate].
  destruct H1 as [Hfound1 H1].
  destruct (_ || _) eqn:Hcond.
  - intros H2.
    pose proof (dfs_from_keeps_found nodes graph (S (length nodes)) nodes s1)
      as Hkeep.
    destruct (cycleFound s1) eqn:Hf1.
    + assert (Hfound : forall roots s,
                match dfs_from nodes graph (S (length nodes)) roots s with
                | Returned found s' => found = cycleFound s'
                | _ => True
                end).
      { clear. induction roots as [| r rs IHr]; intros s; cbn [dfs_from];
          [reflexivity|].
        destruct (negb _); [|apply IHr].
        destruct (dfs _ _ _ _ _ _); [apply IHr | exact I | exact I]. }
      specialize (Hfound nodes s1). rewrite H2 in Hfound, Hkeep.
      cbn [ends_in final_state] in Hkeep. rewrite (Hkeep Hf1) in Hfound.
      discriminate.
    + destruct (H1 eq_refl) as (Hc1 & Hcl1 & _ & _).
      pose proof (dfs_from_explored nodes graph Hc (S (length nodes)) nodes
                    (fun root Hr => node_is_key root Hr) s1 Hc1 Hcl1) as H3.
      rewrite H2 in H3. destruct H3 as [Hf2 H3].
      destruct (H3 (eq_sym Hf2)) as (Hc2 & Hcl2 & _ & Hall).
      apply (clean_all_visited_acyclic s Hends Hc2 Hcl2).
      intros k Hk. apply in_map_iff in Hk as (node & <- & Hnode).
      apply Hall, Hnode.
  - intros H2. injection H2 as Hf1 <-.
    destruct (H1 Hf1) as (Hc1 & Hcl1 & _ & _).
    apply (clean_all_visited_acyclic s1 Hends Hc1 Hcl1).
    apply orb_false_iff in Hcond as [_ Hsize]. apply Nat.ltb_ge in Hsize.
    apply all_marked.
    + intros k b Hk. destruct Hc1 as (_ & _ & Hmarks).
      destruct (Hmarks k b Hk) as [Hkey ->]. split; [|reflexivity].
      exact (build_graph_keys nodes edges k Hkey).
    + rewrite length_map. exact Hsize.
Qed.

(** The cycle search on a flowchart whose edges all join nodes. *)
Lemma checkForCycles_decides (messages0 : list string) :
  ends_are_nodes nodes edges ->
  exists found more s,
    checkForCycles nodes edges messages0 = Returned found s
    /\ messages s = messages0 ++ more
    /\ Forall (fun m => is_cycle_message m = true) more
    /\ (found = false <-> ~ has_cycle edges)
    /\ (more = [] <-> ~ has_cycle edges).
Proof.
  intros Hends.
  destruct (checkForCycles_returns messages0 (ends_are_targets Hends))
    as (found & s & Hrun).
  pose proof (checkForCycles_reported nodes edges messages0) as Hrep.
  rewrite Hrun in Hrep. destruct Hrep as (more & (Hm & Hall & Hf) & Hfound).
  cbn [messages cycleFound orb] in Hm, Hf.
  assert (Hiff : found = false <-> ~ has_cycle edges).
  { split.
    - intros ->. exact (checkForCycles_false_acyclic messages0 s Hends Hrun).
    - intros Hacyclic.
      pose proof (checkForCycles_acyclic nodes edges Hacyclic messages0) as Ha.
      rewrite Hrun in Ha. exact (proj1 Ha). }
  exists found, more, s. repeat split; try assumption; try apply Hiff.
  - intros ->. apply Hiff. rewrite Hfound, Hf. reflexivity.
  - intros Hacyclic. apply Hiff in Hacyclic. rewrite Hfound, Hf in Hacyclic.
    destruct more; [reflexivity | discriminate].
Qed.

End DecideFacts.

(** ** The verdict of a validation run *)

Section VerdictFacts.
Import ValidationEngine FlowchartRules.
Local Open Scope list_scope.

Lemma flat_map_empty {A B : Type} (f : A -> list B) (l : list A) :
  flat_map f l = [] <-> forall a, In a l -> f a = [].
Proof.
  induction l as [| x l IH]; cbn [flat_map].
  - split; [intros _ a [] | reflexivity].
  - split.
    + intros H. apply app_eq_nil in H as [Hx Hl].
      intros a [<- | Ha]; [exact Hx | exact (proj1 IH Hl a Ha)].
    + intros H. rewrite (H x (or_introl eq_refl)).
      apply IH. intros a Ha. apply H. right. exact Ha.
Qed.

Lemma terminal_messages_empty (nodes : list Node) :
  terminal_messages nodes = []
  <-> length (List.filter (is_type "start") nodes) = 1
      /\ List.filter (is_type "end") nodes <> [].
Proof.
  unfold terminal_messages.
  destruct (List.filter (is_type "start") nodes) as [| s1 [| s2 starts]];
    destruct (List.filter (is_type "end") nodes) as [| e1 ends]; cbn;
    split; try discriminate; try (intros [H1 H2]; congruence);
    try (intros [H1 H2]; discriminate); intros _; split; congruence.
Qed.

Lemma unconnected_messages_empty (edges : list Edge) (node : Node) :
  unconnected_messages edges node = []
  <-> hasIncoming edges node = true /\ hasOutgoing edges node = true.
Proof.
  unfold unconnected_messages.
  assert (Hend : is_type "end" node = true -> hasOutgoing edges node = true)
    by (unfold hasOutgoing; intros ->; reflexivity).
  destruct (hasIncoming edges node), (hasOutgoing edges node),
    (is_type "end" node); cbn; split; try discriminate; try tauto;
    try (intros [H1 H2]; discriminate).
Qed.

Lemma decision_messages_empty (edges : list Edge) (node : Node) :
  decision_messages edges node = []
  <-> 2 <= length (outgoing edges node) /\ unlabeled (outgoing edges node) = [].
Proof.
  unfold decision_messages.
  destruct (Nat.ltb_spec (length (outgoing edges node)) 2) as [Hlt | Hge].
  - cbn. split; [discriminate | intros [H _]; lia].
  - apply Nat.leb_le in Hge as Hge'. rewrite Hge'. cbn [andb app].
    destruct (unlabeled (outgoing edges node)) as [| e es]; cbn.
    + split; [auto | reflexivity].
    + split; [discriminate | intros [_ H]; discriminate].
Qed.

(** The messages of a run on a flowchart whose edges all join nodes: the
    terminals, then node by node the unconnected ones, then the cycle
    reports, then decision node by decision node. *)
Lemma validateFlowchart_messages (nodes : list Node) (edges : list Edge) :
  nodes <> [] -> ends_are_nodes nodes edges ->
  exists cycles,
    validateFlowchart nodes edges
    = Completed (terminal_messages nodes
                 ++ flat_map (unconnected_messages edges) nodes
                 ++ cycles
                 ++ flat_map (decision_messages edges)
                             (List.filter (is_type "decision") nodes))
    /\ Forall (fun m => is_cycle_message m = true) cycles
    /\ (cycles = [] <-> ~ has_cycle edges).
Proof.
  intros Hne Hends. unfold validateFlowchart.
  destruct nodes as [| n ns] eqn:Hnodes; [contradiction|].
  cbn [length Nat.eqb]. rewrite <- Hnodes in *. cbv zeta.
  set (m2 := if Nat.eqb (length (List.filter (is_type "end") nodes)) 0
             then _ else _).
  assert (Hm2 : m2 = terminal_messages nodes).
  { subst m2. unfold terminal_messages.
    destruct (Nat.eqb (length (List.filter (is_type "end") nodes)) 0);
      [reflexivity | rewrite app_nil_r; reflexivity]. }
  rewrite Hm2, checkUnconnectedNodes_by_node.
  destruct (checkForCycles_decides nodes edges
              (terminal_messages nodes
               ++ flat_map (unconnected_messages edges) nodes) Hends)
    as (found & more & s & Hrun & Hm & Hall & _ & Hiff).
  rewrite Hrun, checkDecisionNodes_by_node, Hm.
  exists more. split; [|split; assumption].
  rewrite <- !app_assoc. reflexivity.
Qed.

(** X10.  On a flowchart whose edges all join nodes and whose ids are no
    names inherited from [Object.prototype], [checkForCycles] returns, adds
    nothing but cycle reports, and answers false, adding no report, exactly
    when no walk along the edges comes back to its start: a flowchart with
    a cycle always gets at least one cycle report. *)
Theorem cycle_search_sound_and_complete (nodes : list Node) (edges : list Edge)
    (messages0 : list string) :
  ends_are_nodes nodes edges ->
  ObjectPrototype.plain_ids nodes edges = true ->
  exists found more s,
    checkForCycles nodes edges messages0 = Returned found s
    /\ messages s = messages0 ++ more
    /\ Forall (fun m => is_cycle_message m = true) more
    /\ (found = false <-> ~ has_cycle edges)
    /\ (more = [] <-> ~ has_cycle edges).
Proof. intros Hends _. apply checkForCycles_decides, Hends. Qed.

(** X11.  A validation run on a non-empty flowchart whose edges all join
    nodes and whose ids are no names inherited from [Object.prototype]
    completes, and its messages come in the order of the checks: start and
    end node counts, unconnected nodes in node order, cycle reports (none
    exactly when there is no cycle), decision nodes in node order. *)
Theorem validateFlowchart_reports_in_order (nodes : list Node) (edges : list Edge) :
  nodes <> [] -> ends_are_nodes nodes edges ->
  ObjectPrototype.plain_ids nodes edges = true ->
  exists cycles,
    validateFlowchart nodes edges
    = Completed (terminal_messages nodes
                 ++ flat_map (unconnected_messages edges) nodes
                 ++ cycles
                 ++ flat_map (decision_messages edges)
                             (List.filter (is_type "decision") nodes))
    /\ Forall (fun m => is_cycle_message m = true) cycles
    /\ (cycles = [] <-> ~ has_cycle edges).
Proof. intros Hne Hends _. apply validateFlowchart_messages; assumption. Qed.

(** X12.  A validation run on a non-empty flowchart whose edges all join
    nodes and whose ids are no names inherited from [Object.prototype] ends
    without any message exactly when the flowchart has one start node, at
    least one end node, every node connected on both sides (start nodes
    need no incoming, end nodes no outgoing edge), every decision node with
    at least two outgoing edges, all of them labelled, and no cycle. *)
Theorem validateFlowchart_silent_iff_well_formed (nodes : list Node)
    (edges : list Edge) :
  nodes <> [] -> ends_are_nodes nodes edges ->
  ObjectPrototype.plain_ids nodes edges = true ->
  (validateFlowchart nodes edges = Completed [] <-> well_formed nodes edges).
Proof.
  intros Hne Hends _.
  destruct (validateFlowchart_messages nodes edges Hne Hends)
    as (cycles & -> & _ & Hcycles).
  unfold well_formed. split.
  - intros H. injection H as H.
    apply app_eq_nil in H as [Ht H]. apply app_eq_nil in H as [Hu H].
    apply app_eq_nil in H as [Hc Hd].
    apply terminal_messages_empty in Ht as [Hs He].
    split; [exact Hs | split; [exact He | split; [|split]]].
    + intros node Hnode. apply unconnected_messages_empty.
      exact (proj1 (flat_map_empty _ _) Hu node Hnode).
    + intros node Hnode Hdec. apply decision_messages_empty.
      apply (proj1 (flat_map_empty _ _) Hd node), filter_In. tauto.
    + apply Hcycles, Hc.
  - intros (Hs & He & Hu & Hd & Hc).
    rewrite (proj2 (terminal_messages_empty nodes) (conj Hs He)).
    apply Hcycles in Hc. rewrite Hc.
    assert (Hu' : flat_map (unconnected_messages edges) nodes = []).
    { apply flat_map_empty. intros node Hnode.
      apply unconnected_messages_empty, Hu, Hnode. }
    assert (Hd' : flat_map (decision_messages edges)
                    (List.filter (is_type "decision") nodes) = []).
    { apply flat_map_empty. intros node Hnode. apply filter_In in Hnode as [H1 H2].
      apply decision_messages_empty, Hd; assumption. }
    rewrite Hu', Hd'. reflexivity.
Qed.

Lemma validateFlowchart_completes_when_closed (nodes : list Node) (edges : list Edge) :
  targets_are_nodes nodes edges ->
  exists msgs, validateFlowchart nodes edges = Completed msgs.
Proof.
  intros Hclosed. unfold validateFlowchart.
  destruct (Nat.eqb (length nodes) 0); [eauto|]. cbv zeta.
  match goal with |- context [checkForCycles nodes edges ?m] =>
    destruct (checkForCycles_returns nodes edges m Hclosed) as (found & s & ->) end.
  eauto.
Qed.

(** X13.  On a flowchart whose ids are no names inherited from
    [Object.prototype], a validation run raises only on a dangling edge:
    when every edge that leaves a node arrives at a node, the run
    completes. *)
Theorem validateFlowchart_completes (nodes : list Node) (edges : list Edge) :
  targets_are_nodes nodes edges ->
  ObjectPrototype.plain_ids nodes edges = true ->
  exists msgs, validateFlowchart nodes edges = Completed msgs.
Proof. intros Hclosed _. apply validateFlowchart_completes_when_closed, Hclosed. Qed.

End VerdictFacts.

Section VerdictWitnesses.
Import ValidationEngine FlowchartRules.
Local Open Scope list_scope.

Lemma approval_ends_are_nodes : ends_are_nodes approval_nodes approval_edges.
Proof.
  intros e He. repeat (destruct He as [<- | He]; [cbn; tauto|]). destruct He.
Defined.

Lemma three_cycle_ends_are_nodes :
  ends_are_nodes three_cycle_nodes three_cycle_edges.
Proof.
  intros e He. repeat (destruct He as [<- | He]; [cbn; tauto|]). destruct He.
Defined.

Lemma approval_nodes_not_empty : approval_nodes <> [].
Proof. discriminate. Defined.

Lemma cycle_search_sound_and_complete_witness :
  exists found more s,
    checkForCycles three_cycle_nodes three_cycle_edges [] = Returned found s
    /\ messages s = [] ++ more
    /\ Forall (fun m => is_cycle_message m = true) more
    /\ (found = false <-> ~ has_cycle three_cycle_edges)
    /\ (more = [] <-> ~ has_cycle three_cycle_edges).
Proof.
  exact (cycle_search_sound_and_complete three_cycle_nodes three_cycle_edges []
           three_cycle_ends_are_nodes eq_refl).
Defined.

Lemma validateFlowchart_reports_in_order_witness :
  exists cycles,
    validateFlowchart approval_nodes approval_edges
    = Completed (terminal_messages approval_nodes
                 ++ flat_map (unconnected_messages approval_edges) approval_nodes
                 ++ cycles
                 ++ flat_map (decision_messages approval_edges)
                             (List.filter (is_type "decision") approval_nodes))
    /\ Forall (fun m => is_cycle_message m = true) cycles
    /\ (cycles = [] <-> ~ has_cycle approval_edges).
Proof.
  exact (validateFlowchart_reports_in_order approval_nodes approval_edges
           approval_nodes_not_empty approval_ends_are_nodes eq_refl).
Defined.

Lemma validateFlowchart_silent_iff_well_formed_witness :
  well_formed approval_nodes approval_edges.
Proof.
  apply (validateFlowchart_silent_iff_well_formed approval_nodes approval_edges
           approval_nodes_not_empty approval_ends_are_nodes eq_refl).
  vm_compute. reflexivity.
Defined.

Lemma validateFlowchart_completes_witness :
  exists msgs, validateFlowchart approval_nodes approval_edges = Completed msgs.
Proof.
  apply validateFlowchart_completes; [|reflexivity].
  intros e He _. exact (proj2 (approval_ends_are_nodes e He)).
Defined.

End VerdictWitnesses.

(** ** Sessions: what every sequence of operations and events keeps *)

Section SessionFacts.
Import CanvasManager Interaction.
Local Open Scope list_scope.

Lemma string_of_nat_inj (a b : nat) : string_of_nat a = string_of_nat b -> a = b.
Proof.
  unfold string_of_nat. intros H. apply Unsigned.to_uint_inj.
  apply (f_equal NilEmpty.uint_of_string) in H. rewrite !NilEmpty.usu in H.
  congruence.
Qed.

Lemma node_id_inj (a b : nat) : node_id a = node_id b -> a = b.
Proof. unfold node_id. cbn. intros H. injection H as H. exact (string_of_nat_inj a b H). Qed.

Lemma edge_id_inj (a b : nat) : edge_id a = edge_id b -> a = b.
Proof. unfold edge_id. cbn. intros H. injection H as H. exact (string_of_nat_inj a b H). Qed.

(** *** Events as store operations *)

Lemma run_invariant (I : Graph -> Prop) (ops : list Op) :
  (forall op st, drawn op -> I (graph st) -> I (graph (step op st))) ->
  forall st, List.Forall drawn ops -> I (graph st) -> I (graph (run ops st)).
Proof.
  intros Hstep. induction ops as [| op ops IH]; intros st Hops Hst; [exact Hst|].
  inversion Hops as [| ? ? Hop Hrest]; subst.
  cbn [run fold_left]. apply IH; [exact Hrest|]. apply Hstep; assumption.
Qed.

(** What an event does to the graph, a store operation does. *)
Lemma ui_step_graph (ev : Event) (ui : UI) :
  exists ops st0,
    graph st0 = graph (state ui) /\ List.Forall drawn ops
    /\ graph (state (ui_step ev ui)) = graph (run ops st0).
Proof.
  assert (Hsame : forall st, graph st = graph (state ui) ->
            exists ops st0, graph st0 = graph (state ui) /\ List.Forall drawn ops
                            /\ graph st = graph (run ops st0)).
  { intros st H. exists [], st. split; [exact H | split; [constructor | reflexivity]]. }
  assert (Hone : forall op st0 st, graph st0 = graph (state ui) -> drawn op ->
            graph st = graph (step op st0) ->
            exists ops st0, graph st0 = graph (state ui) /\ List.Forall drawn ops
                            /\ graph st = graph (run ops st0)).
  { intros op st0 st H0 Hd H. exists [op], st0.
    split; [exact H0 | split; [repeat constructor; exact Hd | exact H]]. }
  destruct ev as [rect e | rect e | | rect e | m | ty rect e | value | value | | | |];
    cbn [ui_step on_state state].
  - unfold handleMouseDown.
    destruct (viewportToCanvas rect (state ui) (clientX e) (clientY e)) as [x y].
    set (st := set_start x y (state ui)).
    assert (Hst : graph st = graph (state ui)) by reflexivity.
    destruct (String.eqb (mode st) "select").
    { destruct (getItemAtPosition st x y) as [[n | ed | nodeId position]|];
        try (apply Hsame; reflexivity).
      destruct (find _ _) as [node|]; [|apply Hsame; reflexivity].
      destruct (selectedItem _) as [it|]; [|apply Hsame; reflexivity].
      destruct (match item_id it with Some i => _ | None => _ end);
        apply Hsame; reflexivity. }
    destruct (String.eqb (mode st) "connect").
    { destruct (getItemAtPosition st x y) as [[n | ed | nodeId position]|];
        try (apply Hsame; reflexivity).
      destruct (connectionStartNode st) as [first|]; [|apply Hsame; reflexivity].
      destruct (String.eqb first ""); [apply Hsame; reflexivity|].
      destruct (String.eqb_spec (nid n) first) as [Heq | Hne]; cbn [negb];
        [apply Hsame; reflexivity|].
      apply (Hone (OpAddEdge first (nid n)) st); [exact Hst | | reflexivity].
      cbn. congruence. }
    destruct (String.eqb (mode st) "delete"); [|apply Hsame; reflexivity].
    destruct (getItemAtPosition st x y) as [it|]; [|apply Hsame; reflexivity].
    apply (Hone (OpDeleteItem (Some it)) st); [exact Hst | exact I | reflexivity].
  - apply (Hone (OpMouseMove rect e) (state ui)); [reflexivity | exact I |].
    unfold handleMouseMove. destruct (hovering (state ui)); [|reflexivity].
    destruct (viewportToCanvas _ _ _ _). reflexivity.
  - unfold handleMouseUp. cbn [state].
    destruct (String.eqb (mode (state ui)) "connect") eqn:Hmode.
    + destruct (connectionStartNode (state ui)) as [first|];
        [|destruct (negb _); apply Hsame; reflexivity].
      destruct (hoveredItem ui) as [[n | ed | nodeId position]|];
        try (destruct (negb _); apply Hsame; reflexivity).
      destruct (String.eqb first ""); cbn [negb andb];
        [destruct (negb _); apply Hsame; reflexivity|].
      destruct (String.eqb_spec (nid n) first) as [Heq | Hne]; cbn [negb];
        [destruct (negb _); apply Hsame; reflexivity|].
      apply (Hone (OpAddEdge first (nid n)) (state ui)); [reflexivity | |].
      * cbn. congruence.
      * destruct (negb _); reflexivity.
    + destruct (negb _); apply Hsame; reflexivity.
  - apply (Hone (OpWheel rect e) (state ui)); [reflexivity | exact I | reflexivity].
  - apply Hsame. unfold setMode. destruct (negb _); reflexivity.
  - destruct (viewportToCanvas rect (state ui) (clientX e) (clientY e)) as [x y] eqn:Hxy.
    apply (Hone (OpAddNode ty x y) (state ui)); [reflexivity | exact I | reflexivity].
  - destruct (selectedItem (state ui)) as [[n | ed | nodeId position]|];
      try (apply Hsame; reflexivity).
    apply (Hone (OpUpdateNodeText (nid n) value) (state ui));
      [reflexivity | exact I | reflexivity].
  - destruct (selectedItem (state ui)) as [[n | ed | nodeId position]|];
      try (apply Hsame; reflexivity).
    apply (Hone (OpUpdateEdgeLabel (eid ed) value) (state ui));
      [reflexivity | exact I | reflexivity].
  - apply (Hone OpClear (state ui)); [reflexivity | exact I | reflexivity].
  - apply Hsame. reflexivity.
  - apply Hsame. reflexivity.
  - apply Hsame. reflexivity.
Qed.

(** A property of the graph kept by every store operation that draws no
    self-loop is kept by every event. *)
Lemma ui_run_invariant (I : Graph -> Prop) :
  (forall op st, drawn op -> I (graph st) -> I (graph (step op st))) ->
  forall events ui, I (graph (state ui)) -> I (graph (state (ui_run events ui))).
Proof.
  intros Hstep. induction events as [| ev events IH]; intros ui Hui; [exact Hui|].
  cbn [ui_run fold_left]. apply IH.
  destruct (ui_step_graph ev ui) as (ops & st0 & H0 & Hops & ->).
  apply run_invariant; [exact Hstep | exact Hops | rewrite H0; exact Hui].
Qed.

(** *** Unique ids *)

Lemma NoDup_map_filter {A B : Type} (f : A -> B) (p : A -> bool) (l : list A) :
  NoDup (map f l) -> NoDup (map f (List.filter p l)).
Proof.
  induction l as [| a l IH]; cbn [map List.filter]; [auto|].
  intros H. apply NoDup_cons in H as [Ha Hl].
  destruct (p a); cbn [map]; [|exact (IH Hl)].
  apply NoDup_cons. split; [|exact (IH Hl)].
  intros Hin. apply Ha. apply list_elem_of_In in Hin. apply list_elem_of_In.
  apply in_map_iff in Hin as (x & Hx & Hin). apply filter_In in Hin as [Hin _].
  apply in_map_iff. eauto.
Qed.

Lemma In_map_filter {A B : Type} (f : A -> B) (p : A -> bool) (l : list A) (b : B) :
  In b (map f (List.filter p l)) -> In b (map f l).
Proof.
  intros H. apply in_map_iff in H as (x & Hx & Hin).
  apply filter_In in Hin as [Hin _]. apply in_map_iff. eauto.
Qed.

Lemma NoDup_snoc_new {A : Type} (l : list A) (a : A) :
  NoDup l -> ~ In a l -> NoDup (l ++ [a]).
Proof.
  intros Hl Ha. apply NoDup_app. split; [exact Hl|]. split.
  - intros x Hx Hx'. apply list_elem_of_singleton in Hx'. subst x.
    apply Ha, list_elem_of_In, Hx.
  - apply NoDup_singleton.
Qed.

Lemma ids_fresh_same (g g' : Graph) :
  map nid (nodes g') = map nid (nodes g) ->
  map eid (edges g') = map eid (edges g) ->
  nodeCounter g' = nodeCounter g -> edgeCounter g' = edgeCounter g ->
  ids_fresh g -> ids_fresh g'.
Proof.
  unfold ids_fresh. intros -> -> -> ->. tauto.
Qed.

Lemma handleMouseMove_counters (rect : Rect) (e : MouseEvent) (st : State) :
  nodeCounter (graph (CanvasManager.handleMouseMove rect e st)) = nodeCounter (graph st)
  /\ edgeCounter (graph (CanvasManager.handleMouseMove rect e st))
     = edgeCounter (graph st).
Proof.
  unfold CanvasManager.handleMouseMove.
  set (st' := with_gesture _ st).
  change (graph st) with (graph st'). clearbody st'.
  destruct (viewportToCanvas _ _ _ _) as [x y].
  unfold drag_on_node, gesture_on_node.
  destruct (isDragging (gesture st')), (isResizing (gesture st')),
    (selected_node st') as [sel|];
    try (destruct (find _ _); split; reflexivity);
    destruct (isPanning (gesture st')); split; reflexivity.
Qed.

Lemma ids_fresh_step (op : Op) (st : State) :
  ids_fresh (graph st) -> ids_fresh (graph (step op st)).
Proof.
  intros Hst. pose proof Hst as (Hn & Hnk & He & Hek).
  destruct op as [ty x y | src tgt | i t | i l | item | item | g | rect e | rect e |];
    cbn [step].
  - unfold addNode. destruct (NodeTypes.lookup ty) as [t|]; [|exact Hst].
    cbn [snd graph with_graph nodes edges nodeCounter edgeCounter].
    unfold ids_fresh. cbn [nodes edges nodeCounter edgeCounter].
    rewrite map_app. cbn [map nid]. split; [|split; [|split; assumption]].
    + apply NoDup_snoc_new; [exact Hn|]. intros Hin.
      destruct (Hnk _ Hin) as (k & Hk & Hle). apply node_id_inj in Hk. lia.
    + intros i Hi. apply in_app_or in Hi as [Hi | [<- | []]].
      * destruct (Hnk i Hi) as (k & Hk & Hle). exists k. split; [exact Hk | lia].
      * exists (S (nodeCounter (graph st))). split; [reflexivity | lia].
  - unfold addEdge. destruct (find _ _); [exact Hst|].
    cbn [snd graph with_graph nodes edges nodeCounter edgeCounter].
    unfold ids_fresh. cbn [nodes edges nodeCounter edgeCounter].
    rewrite map_app. cbn [map eid]. split; [exact Hn | split; [exact Hnk | split]].
    + apply NoDup_snoc_new; [exact He|]. intros Hin.
      destruct (Hek _ Hin) as (k & Hk & Hle). apply edge_id_inj in Hk. lia.
    + intros i Hi. apply in_app_or in Hi as [Hi | [<- | []]].
      * destruct (Hek i Hi) as (k & Hk & Hle). exists k. split; [exact Hk | lia].
      * exists (S (edgeCounter (graph st))). split; [reflexivity | lia].
  - apply (ids_fresh_same (graph st)); try reflexivity; [|exact Hst].
    cbn. apply update_first_map. reflexivity.
  - apply (ids_fresh_same (graph st)); try reflexivity; [|exact Hst].
    cbn. apply update_first_map. reflexivity.
  - destruct item as [[n | ed | nodeId position]|]; try exact Hst;
      unfold ids_fresh; cbn [deleteItem selectItem with_graph graph nodes edges
                               nodeCounter edgeCounter].
    + split; [apply NoDup_map_filter, Hn|].
      split; [intros i Hi; apply Hnk, (In_map_filter _ _ _ _ Hi)|].
      split; [apply NoDup_map_filter, He|].
      intros i Hi. apply Hek, (In_map_filter _ _ _ _ Hi).
    + split; [exact Hn | split; [exact Hnk|]].
      split; [apply NoDup_map_filter, He|].
      intros i Hi. apply Hek, (In_map_filter _ _ _ _ Hi).
  - exact Hst.
  - exact Hst.
  - destruct (handleMouseMove_ids rect e st) as [H1 H2].
    destruct (handleMouseMove_counters rect e st) as [H3 H4].
    apply (ids_fresh_same (graph st)); try assumption. rewrite H2. reflexivity.
  - unfold handleWheel. destruct (viewportToCanvas _ _ _ _). exact Hst.
  - unfold ids_fresh. cbn. repeat split; try apply NoDup_nil_2; intros i [].
Qed.

(** *** One edge for each ordered pair of ends *)

Lemma filter_update_first_length {A : Type} (q p : A -> bool) (f : A -> A)
    (l : list A) :
  (forall a, q (f a) = q a) ->
  length (List.filter q (update_first p f l)) = length (List.filter q l).
Proof.
  intros Hq. induction l as [| a l IH]; cbn [update_first List.filter]; [reflexivity|].
  destruct (p a); cbn [List.filter].
  - rewrite Hq. destruct (q a); reflexivity.
  - destruct (q a); cbn [length]; rewrite IH; reflexivity.
Qed.

Lemma filter_filter_length {A : Type} (q r : A -> bool) (l : list A) :
  length (List.filter q (List.filter r l)) <= length (List.filter q l).
Proof.
  induction l as [| a l IH]; cbn [List.filter]; [lia|].
  destruct (r a); cbn [List.filter]; destruct (q a); cbn [length]; lia.
Qed.

Lemma one_edge_per_pair_step (op : Op) (st : State) :
  one_edge_per_pair (graph st) -> one_edge_per_pair (graph (step op st)).
Proof.
  intros Hst.
  destruct op as [ty x y | src tgt | i t | i l | item | item | g | rect e | rect e |];
    cbn [step].
  - unfold addNode. destruct (NodeTypes.lookup ty); exact Hst.
  - destruct (existsb (same_ends src tgt) (edges (graph st))) eqn:Hex.
    + rewrite addEdge_existing by exact Hex. exact Hst.
    + rewrite addEdge_fresh by exact Hex. intros s t.
      unfold count_edges. cbn [snd graph with_graph edges].
      rewrite List.filter_app, length_app. cbn [List.filter].
      destruct (same_ends s t _) eqn:Hnew; cbn [length].
      * unfold same_ends in Hnew. cbn [sourceId targetId] in Hnew.
        apply andb_true_iff in Hnew as [H1 H2].
        apply String.eqb_eq in H1, H2. subst s t.
        apply count_edges_zero in Hex. unfold count_edges in Hex. lia.
      * specialize (Hst s t). unfold count_edges in Hst. lia.
  - exact Hst.
  - intros s t. unfold count_edges. cbn [updateEdgeLabel with_graph graph edges].
    rewrite filter_update_first_length by reflexivity. apply Hst.
  - destruct item as [[n | ed | nodeId position]|]; try exact Hst;
      intros s t; unfold count_edges;
      cbn [deleteItem selectItem with_graph graph edges];
      (eapply Nat.le_trans; [apply filter_filter_length | apply Hst]).
  - exact Hst.
  - exact Hst.
  - intros s t. unfold count_edges.
    rewrite (proj2 (handleMouseMove_ids rect e st)). apply Hst.
  - unfold handleWheel. destruct (viewportToCanvas _ _ _ _). exact Hst.
  - intros s t. cbn. lia.
Qed.

(** *** No self-loop from the pointer *)

Lemma no_self_loop_step (op : Op) (st : State) :
  drawn op -> no_self_loop (graph st) -> no_self_loop (graph (step op st)).
Proof.
  intros Hop Hst.
  destruct op as [ty x y | src tgt | i t | i l | item | item | g | rect e | rect e |];
    cbn [step].
  - unfold addNode. destruct (NodeTypes.lookup ty); exact Hst.
  - unfold addEdge. destruct (find _ _); [exact Hst|].
    intros ed Hed. cbn [snd graph with_graph edges] in Hed.
    apply in_app_or in Hed as [Hed | [<- | []]]; [exact (Hst ed Hed) | exact Hop].
  - exact Hst.
  - intros ed Hed. cbn [updateEdgeLabel with_graph graph edges] in Hed.
    apply update_first_In in Hed as [Hed | (b & Hb & ->)];
      [exact (Hst ed Hed) | exact (Hst b Hb)].
  - destruct item as [[n | ed | nodeId position]|]; try exact Hst;
      intros x Hx; cbn [deleteItem selectItem with_graph graph edges] in Hx;
      apply filter_In in Hx as [Hx _]; exact (Hst x Hx).
  - exact Hst.
  - exact Hst.
  - intros ed Hed. rewrite (proj2 (handleMouseMove_ids rect e st)) in Hed.
    exact (Hst ed Hed).
  - unfold handleWheel. destruct (viewportToCanvas _ _ _ _). exact Hst.
  - intros ed [].
Qed.

Lemma run_all (I : Graph -> Prop) :
  (forall op st, I (graph st) -> I (graph (step op st))) ->
  forall ops st, I (graph st) -> I (graph (run ops st)).
Proof.
  intros Hstep. induction ops as [| op ops IH]; intros st Hst; [exact Hst|].
  cbn [run fold_left]. apply IH, Hstep, Hst.
Qed.

Lemma ids_fresh_init : ids_fresh (graph init).
Proof. unfold ids_fresh. cbn. repeat split; try apply NoDup_nil_2; intros i []. Qed.

(** X14.  Node ids and edge ids are unique, after every sequence of store
    operations and after every sequence of pointer, toolbar and text-input
    events on a new canvas: [addNode] and [addEdge] take their ids from
    counters that nothing but [clear] sets back. *)
Theorem ids_are_unique :
  (forall ops : list Op,
      NoDup (map nid (nodes (graph (run ops init))))
      /\ NoDup (map eid (edges (graph (run ops init)))))
  /\ (forall events : list Event,
         NoDup (map nid (nodes (graph (state (ui_run events ui_init)))))
         /\ NoDup (map eid (edges (graph (state (ui_run events ui_init)))))).
Proof.
  split.
  - intros ops.
    pose proof (run_all ids_fresh ids_fresh_step ops init ids_fresh_init)
      as (H1 & _ & H2 & _).
    split; assumption.
  - intros events.
    pose proof (ui_run_invariant ids_fresh
                  (fun op st _ => ids_fresh_step op st) events ui_init
                  ids_fresh_init) as (H1 & _ & H2 & _).
    split; assumption.
Qed.

(** X15.  After every sequence of store operations, and after every
    sequence of events, the graph holds at most one edge from any id to any
    id. *)
Theorem at_most_one_edge_per_pair :
  (forall (ops : list Op) (src tgt : string),
      count_edges src tgt (graph (run ops init)) <= 1)
  /\ (forall (events : list Event) (src tgt : string),
         count_edges src tgt (graph (state (ui_run events ui_init))) <= 1).
Proof.
  assert (H0 : one_edge_per_pair (graph init)) by (intros s t; cbn; lia).
  split.
  - intros ops. exact (run_all one_edge_per_pair one_edge_per_pair_step ops init H0).
  - intros events.
    exact (ui_run_invariant one_edge_per_pair
             (fun op st _ => one_edge_per_pair_step op st) events ui_init H0).
Qed.

(** X16.  No sequence of pointer, toolbar and text-input events on a new
    canvas draws an edge from a node to itself: both places that call
    [addEdge], in [handleMouseDown] and in [handleMouseUp], compare the two
    ids first. *)
Theorem pointer_draws_no_self_loop (events : list Event) :
  no_self_loop (graph (state (ui_run events ui_init))).
Proof.
  apply (ui_run_invariant no_self_loop no_self_loop_step events ui_init).
  intros x [].
Qed.

End SessionFacts.

(** ** Camera and gestures *)

Section GestureFacts.
Import CanvasManager Interaction.
Local Open Scope R_scope.

(** *** The camera *)

Lemma camera_addEdge (src tgt : string) (st : State) :
  camera (snd (addEdge src tgt st)) = camera st.
Proof. unfold addEdge. destruct (find _ _); reflexivity. Qed.

Lemma camera_addNode (ty : string) (x y : R) (st : State) :
  camera (snd (addNode ty x y st)) = camera st.
Proof. unfold addNode. destruct (NodeTypes.lookup ty); reflexivity. Qed.

Lemma camera_deleteItem (item : option Item) (st : State) :
  camera (deleteItem item st) = camera st.
Proof. destruct item as [[n | ed | i c]|]; reflexivity. Qed.

Lemma camera_handleMouseDown (rect : Rect) (e : MouseEvent) (st : State) :
  camera (handleMouseDown rect e st) = camera st.
Proof.
  unfold handleMouseDown.
  destruct (viewportToCanvas rect st (clientX e) (clientY e)) as [x y].
  set (st1 := set_start x y st).
  change (camera st) with (camera st1). clearbody st1.
  destruct (String.eqb (mode st1) "select").
  { destruct (getItemAtPosition st1 x y) as [[n | ed | nodeId position]|];
      try reflexivity.
    destruct (find _ _) as [node|]; [|reflexivity].
    destruct (selectedItem _) as [it|]; [|reflexivity].
    destruct (match item_id it with Some i => _ | None => _ end); reflexivity. }
  destruct (String.eqb (mode st1) "connect").
  { destruct (getItemAtPosition st1 x y) as [[n | ed | nodeId position]|];
      try reflexivity.
    destruct (connectionStartNode st1) as [first|]; [|reflexivity].
    destruct (String.eqb first ""); [reflexivity|].
    destruct (negb _); [|reflexivity].
    cbn [with_connection camera]. apply camera_addEdge. }
  destruct (String.eqb (mode st1) "delete"); [|reflexivity].
  destruct (getItemAtPosition st1 x y) as [it|]; [|reflexivity].
  apply camera_deleteItem.
Qed.

Lemma scale_handleMouseMove (rect : Rect) (e : MouseEvent) (st : State) :
  scale (camera (CanvasManager.handleMouseMove rect e st)) = scale (camera st).
Proof.
  unfold CanvasManager.handleMouseMove.
  set (st' := with_gesture _ st).
  change (camera st) with (camera st'). clearbody st'.
  destruct (viewportToCanvas _ _ _ _) as [x y].
  unfold drag_on_node, gesture_on_node.
  destruct (isDragging (gesture st')), (isResizing (gesture st')),
    (selected_node st') as [sel|];
    try (destruct (find _ _); reflexivity);
    destruct (isPanning (gesture st')); reflexivity.
Qed.

Lemma scale_ui_step (ev : Event) (ui : UI) :
  0 < scale (camera (state ui)) -> 0 < scale (camera (state (ui_step ev ui))).
Proof.
  intros Hpos.
  destruct ev as [rect e | rect e | | rect e | m | ty rect e | value | value | | | |];
    cbn [ui_step on_state state].
  - rewrite camera_handleMouseDown. exact Hpos.
  - unfold handleMouseMove. destruct (hovering (state ui));
      [destruct (viewportToCanvas _ _ _ _)|]; cbn [state];
      rewrite scale_handleMouseMove; exact Hpos.
  - unfold handleMouseUp. cbn [state].
    assert (H1 : forall st1, camera st1 = camera (state ui) ->
              0 < scale (camera
                (if negb (String.eqb (mode (with_gesture
                     (mkGesture false false false None (startX (gesture st1))
                        (startY (gesture st1)) (lastMouseX (gesture st1))
                        (lastMouseY (gesture st1))) st1)) "connect")
                 then with_connection None (with_gesture
                     (mkGesture false false false None (startX (gesture st1))
                        (startY (gesture st1)) (lastMouseX (gesture st1))
                        (lastMouseY (gesture st1))) st1)
                 else with_gesture
                     (mkGesture false false false None (startX (gesture st1))
                        (startY (gesture st1)) (lastMouseX (gesture st1))
                        (lastMouseY (gesture st1))) st1))).
    { intros st1 H. destruct (negb _); cbn [camera with_connection with_gesture];
        rewrite H; exact Hpos. }
    apply H1.
    destruct (String.eqb (mode (state ui)) "connect"); [|reflexivity].
    destruct (connectionStartNode (state ui)) as [first|]; [|reflexivity].
    destruct (hoveredItem ui) as [[n | ed | nodeId position]|]; try reflexivity.
    destruct (_ && _); [apply camera_addEdge | reflexivity].
  - unfold handleWheel. destruct (viewportToCanvas _ _ _ _) as [x y].
    cbn [camera with_camera scale].
    destruct (NodeTypes.ltb (deltaY e) 0); nra.
  - unfold setMode. destruct (negb _); exact Hpos.
  - destruct (viewportToCanvas _ _ _ _) as [x y].
    rewrite camera_addNode. exact Hpos.
  - destruct (selectedItem (state ui)) as [[n | ed | nodeId position]|]; exact Hpos.
  - destruct (selectedItem (state ui)) as [[n | ed | nodeId position]|]; exact Hpos.
  - exact Hpos.
  - cbn. nra.
  - cbn. nra.
  - cbn. lra.
Qed.

Lemma scale_ui_run (events : list Event) :
  forall ui, 0 < scale (camera (state ui)) ->
             0 < scale (camera (state (ui_run events ui))).
Proof.
  induction events as [| ev events IH]; intros ui Hui; [exact Hui|].
  cbn [ui_run fold_left]. apply IH, scale_ui_step, Hui.
Qed.

Lemma viewport_round_trip (rect : Rect) (st : State) :
  scale (camera st) <> 0 ->
  (forall p : Point,
      viewportToCanvas rect st (fst (canvasToViewport rect st p))
                               (snd (canvasToViewport rect st p)) = p)
  /\ (forall cx cy : R,
         canvasToViewport rect st (viewportToCanvas rect st cx cy) = (cx, cy)).
Proof.
  intros Hs. unfold viewportToCanvas, canvasToViewport. cbn [fst snd]. split.
  - intros [x y]. cbn [fst snd]. f_equal; field; exact Hs.
  - intros cx cy. f_equal; field; exact Hs.
Qed.

(** X17.  After every sequence of events on a new canvas the zoom factor is
    positive, and [viewportToCanvas] is the inverse of the transformation
    [render] draws with: the canvas point read under the cursor is the one
    drawn there. *)
Theorem pointer_reads_what_is_drawn (events : list Event) (rect : Rect) :
  let st := state (ui_run events ui_init) in
  0 < scale (camera st)
  /\ (forall p : Point,
         viewportToCanvas rect st (fst (canvasToViewport rect st p))
                                  (snd (canvasToViewport rect st p)) = p)
  /\ (forall cx cy : R,
         canvasToViewport rect st (viewportToCanvas rect st cx cy) = (cx, cy)).
Proof.
  intros st.
  assert (Hpos : 0 < scale (camera st))
    by (apply scale_ui_run; cbn; lra).
  split; [exact Hpos|]. apply viewport_round_trip. lra.
Qed.

(** *** Panning *)

Lemma pan_step (rect : Rect) (e : MouseEvent) (st : State) :
  isPanning (gesture st) = true -> selected_node st = None ->
  let st' := CanvasManager.handleMouseMove rect e st in
  viewportToCanvas rect st' (clientX e) (clientY e)
  = (startX (gesture st), startY (gesture st))
  /\ isPanning (gesture st') = true /\ selected_node st' = None
  /\ startX (gesture st') = startX (gesture st)
  /\ startY (gesture st') = startY (gesture st)
  /\ graph st' = graph st.
Proof.
  intros Hpan Hsel. unfold CanvasManager.handleMouseMove.
  cbn [gesture with_gesture isDragging isResizing isPanning resizeDirection
       startX startY].
  change (selected_node (with_gesture _ st)) with (selected_node st).
  rewrite Hsel, Hpan.
  unfold viewportToCanvas.
  destruct (isDragging (gesture st)), (isResizing (gesture st));
    cbn [camera with_camera with_gesture scale offsetX offsetY
         gesture isPanning startX startY graph selected_node selectedItem];
    (split; [f_equal; ring|]);
    (split; [reflexivity|]); (split; [exact Hsel|]);
    (split; [ring|]); (split; [ring | reflexivity]).
Qed.

(** *** Dragging *)

Lemma find_update_first (i : string) (f : Node -> Node) (l : list Node) (node : Node) :
  (forall n, nid (f n) = nid n) ->
  find (has_nid i) l = Some node ->
  find (has_nid i) (update_first (has_nid i) f l) = Some (f node).
Proof.
  intros Hf. induction l as [| a l IH]; cbn [find update_first]; [discriminate|].
  destruct (has_nid i a) eqn:Ha.
  - intros H. injection H as <-. cbn [find]. unfold has_nid in *. rewrite Hf, Ha.
    reflexivity.
  - intros H. cbn [find]. rewrite Ha. exact (IH H).
Qed.



End GestureFacts.

Section GestureTheorems.
Import CanvasManager Interaction.
Local Open Scope R_scope.

Lemma moves_app (rect : Rect) (es : list MouseEvent) (e : MouseEvent) (st : State) :
  moves rect (es ++ [e]) st = CanvasManager.handleMouseMove rect e (moves rect es st).
Proof. unfold moves. rewrite fold_left_app. reflexivity. Qed.

Lemma pan_moves (rect : Rect) (es : list MouseEvent) :
  forall st : State,
    isPanning (gesture st) = true -> selected_node st = None ->
    isPanning (gesture (moves rect es st)) = true
    /\ selected_node (moves rect es st) = None
    /\ startX (gesture (moves rect es st)) = startX (gesture st)
    /\ startY (gesture (moves rect es st)) = startY (gesture st)
    /\ graph (moves rect es st) = graph st.
Proof.
  induction es as [| e es IH]; intros st Hpan Hsel; [cbn; auto|].
  destruct (pan_step rect e st Hpan Hsel) as (_ & Hp & Hs & Hx & Hy & Hg).
  cbn zeta in *. destruct (IH _ Hp Hs) as (Hp' & Hs' & Hx' & Hy' & Hg').
  unfold moves in *. cbn [fold_left].
  rewrite Hx', Hy', Hg', Hx, Hy, Hg. auto.
Qed.

(** X18.  Panning, on a flowchart with no edge between two nodes of the
    same [x] and no node whose type is a name inherited from
    [Object.prototype]: after the button goes down in select mode with
    nothing under the pointer, every run of pointer moves leaves the graph
    as it is and brings the canvas point that was under the pointer at the
    press under the pointer again. *)
Theorem pan_keeps_grab_point (rect : Rect) (e0 : MouseEvent) (st : State)
    (es : list MouseEvent) (e : MouseEvent) :
  mode st = "select"%string ->
  no_vertical_edge (graph st) ->
  ObjectPrototype.table_types (nodes (graph st)) = true ->
  getItemAtPosition st (fst (viewportToCanvas rect st (clientX e0) (clientY e0)))
                       (snd (viewportToCanvas rect st (clientX e0) (clientY e0)))
  = None ->
  let st' := moves rect (es ++ [e]) (handleMouseDown rect e0 st) in
  viewportToCanvas rect st' (clientX e) (clientY e)
  = viewportToCanvas rect st (clientX e0) (clientY e0)
  /\ graph st' = graph st.
Proof.
  intros Hmode _ _ Hitem st'.
  assert (Hdown : handleMouseDown rect e0 st
                  = set_panning (selectItem None
                      (set_start (fst (viewportToCanvas rect st (clientX e0) (clientY e0)))
                                 (snd (viewportToCanvas rect st (clientX e0) (clientY e0)))
                                 st))).
  { unfold handleMouseDown.
    destruct (viewportToCanvas rect st (clientX e0) (clientY e0)) as [x y].
    cbn [fst snd] in *.
    change (mode (set_start x y st)) with (mode st). rewrite Hmode. cbn [String.eqb Ascii.eqb Bool.eqb].
    change (getItemAtPosition (set_start x y st) x y)
      with (getItemAtPosition st x y).
    rewrite Hitem. reflexivity. }
  subst st'. rewrite moves_app, Hdown.
  set (st1 := set_panning _).
  assert (Hp1 : isPanning (gesture st1) = true) by reflexivity.
  assert (Hs1 : selected_node st1 = None) by reflexivity.
  destruct (pan_moves rect es st1 Hp1 Hs1) as (Hp & Hs & Hx & Hy & Hg).
  destruct (pan_step rect e _ Hp Hs) as (Hpoint & _ & _ & _ & _ & Hg').
  cbn zeta in *. rewrite Hpoint, Hg', Hg, Hx, Hy. split; [|reflexivity].
  subst st1. cbn [set_panning set_start selectItem with_gesture gesture startX startY].
  destruct (viewportToCanvas rect st (clientX e0) (clientY e0)); reflexivity.
Qed.

Lemma pan_keeps_grab_point_witness :
  viewportToCanvas origin_rect
    (moves origin_rect ([] ++ [mkMouseEvent 70 40])
       (handleMouseDown origin_rect (mkMouseEvent 10 10) init)) 70 40
  = viewportToCanvas origin_rect init 10 10
  /\ graph (moves origin_rect ([] ++ [mkMouseEvent 70 40])
              (handleMouseDown origin_rect (mkMouseEvent 10 10) init))
     = graph init.
Proof.
  apply (pan_keeps_grab_point origin_rect (mkMouseEvent 10 10) init []
           (mkMouseEvent 70 40)); try reflexivity.
  intros ed s t [].
Defined.






End GestureTheorems.

(** ** Hit testing *)

Section HitTestFacts.
Import CanvasManager Interaction.
Local Open Scope R_scope.

Lemma leb_reflect (a b : R) : reflect (a <= b) (NodeTypes.leb a b).
Proof. unfold NodeTypes.leb. destruct (Rle_dec a b); constructor; assumption. Qed.

Lemma abs_zone (x c : R) : Rabs (x - (c - 8 / 2)) <= 8 / 2 <-> c - 8 <= x <= c.
Proof. unfold Rabs. destruct (Rcase_abs _); lra. Qed.

Lemma handle_zone_spec (node : Node) (x y : R) (c : Corner) :
  8 < width node -> 8 < height node ->
  (getResizeHandleAt (Some node) x y = Some c <-> in_handle_zone c node x y).
Proof.
  intros Hw Hh. unfold getResizeHandleAt, in_handle_zone. cbv zeta.
  repeat match goal with
         | |- context [NodeTypes.leb (Rabs (?u - (?k - 8 / 2))) (8 / 2)] =>
             let H := fresh "Hzone" in
             destruct (leb_reflect (Rabs (u - (k - 8 / 2))) (8 / 2)) as [H | H];
             rewrite abs_zone in H
         end;
    cbn [andb]; destruct c; cbn [corner fst snd];
    (split; [intros Heq; try discriminate; lra
            | intros Hz; try reflexivity; exfalso; lra]).
Qed.

(** X20.  For every node wider and higher than a handle, the resize handle
    at a corner answers exactly to the 8 by 8 square that has the corner as
    its south-east corner; of the square [drawNode] draws for the handle,
    centred on the corner, it is the north-west quarter that answers. *)
Theorem resize_handle_zones (node : Node) (x y : R) (c : Corner) :
  8 < width node -> 8 < height node ->
  (getResizeHandleAt (Some node) x y = Some c <-> in_handle_zone c node x y)
  /\ (in_drawn_handle c node x y ->
      (getResizeHandleAt (Some node) x y = Some c
       <-> x <= fst (corner c node) /\ y <= snd (corner c node))).
Proof.
  intros Hw Hh. split; [apply handle_zone_spec; assumption|].
  intros Hdrawn. rewrite (handle_zone_spec node x y c Hw Hh).
  unfold in_handle_zone, in_drawn_handle in *. lra.
Qed.

Lemma resize_handle_zones_witness :
  (getResizeHandleAt (Some process_sample) 56 26 = Some se
   <-> in_handle_zone se process_sample 56 26)
  /\ (in_drawn_handle se process_sample 56 26 ->
      (getResizeHandleAt (Some process_sample) 56 26 = Some se
       <-> 56 <= fst (corner se process_sample)
           /\ 26 <= snd (corner se process_sample))).
Proof.
  apply (resize_handle_zones process_sample 56 26 se); cbn; lra.
Defined.


(** *** Near a line *)

Lemma nonzero_spec (a : R) : reflect (a <> 0) (nonzero a).
Proof. unfold nonzero. destruct (Req_dec_T a 0); constructor; auto. Qed.

Lemma ltb_reflect (a b : R) : reflect (a < b) (NodeTypes.ltb a b).
Proof. unfold NodeTypes.ltb. destruct (Rlt_dec a b); constructor; assumption. Qed.

Lemma gtb_reflect (a b : R) : reflect (b < a) (NodeTypes.gtb a b).
Proof. unfold NodeTypes.gtb. destruct (Rlt_dec b a); constructor; assumption. Qed.

Lemma square_distance (px py x1 y1 x2 y2 t : R) :
  (px - (x1 + t * (x2 - x1))) * (px - (x1 + t * (x2 - x1)))
  + (py - (y1 + t * (y2 - y1))) * (py - (y1 + t * (y2 - y1)))
  = ((px - x1) * (px - x1) + (py - y1) * (py - y1))
    - 2 * t * ((px - x1) * (x2 - x1) + (py - y1) * (y2 - y1))
    + t * t * ((x2 - x1) * (x2 - x1) + (y2 - y1) * (y2 - y1)).
Proof. ring. Qed.

(** The point [isPointNearLine] measures to is on the segment, and no point
    of the segment is nearer. *)
Lemma nearest_is_nearest (px py x1 y1 x2 y2 : R) :
  (exists t, 0 <= t <= 1 /\ nearest px py x1 y1 x2 y2 = along x1 y1 x2 y2 t)
  /\ forall t, 0 <= t <= 1 ->
       (px - fst (nearest px py x1 y1 x2 y2)) * (px - fst (nearest px py x1 y1 x2 y2))
       + (py - snd (nearest px py x1 y1 x2 y2)) * (py - snd (nearest px py x1 y1 x2 y2))
       <= (px - fst (along x1 y1 x2 y2 t)) * (px - fst (along x1 y1 x2 y2 t))
          + (py - snd (along x1 y1 x2 y2 t)) * (py - snd (along x1 y1 x2 y2 t)).
Proof.
  unfold nearest, along. cbv zeta. cbn [fst snd].
  set (A := px - x1). set (B := py - y1). set (C := x2 - x1). set (D := y2 - y1).
  set (dot := A * C + B * D). set (lenSq := C * C + D * D).
  assert (Hlen : 0 <= lenSq) by (subst lenSq; nra).
  assert (Hsq : forall t,
            (px - (x1 + t * C)) * (px - (x1 + t * C))
            + (py - (y1 + t * D)) * (py - (y1 + t * D))
            = (A * A + B * B) - 2 * t * dot + t * t * lenSq)
    by (intros t; subst A B C D dot lenSq; ring).
  assert (H0 : (px - x1) * (px - x1) + (py - y1) * (py - y1)
               = (A * A + B * B) - 2 * 0 * dot + 0 * 0 * lenSq)
    by (subst A B; ring).
  assert (H1 : (px - x2) * (px - x2) + (py - y2) * (py - y2)
               = (A * A + B * B) - 2 * 1 * dot + 1 * 1 * lenSq)
    by (subst A B C D dot lenSq; ring).
  destruct (nonzero_spec lenSq) as [Hnz | Hz].
  - assert (Hpos : 0 < lenSq) by lra.
    assert (Hdot : dot = dot / lenSq * lenSq) by (field; exact Hnz).
    set (param := dot / lenSq) in *.
    destruct (ltb_reflect param 0) as [Hneg | Hnn].
    + split.
      * exists 0. split; [lra|]. f_equal; ring.
      * intros t Ht. cbn [fst snd]. rewrite Hsq, H0.
        assert (Hd : dot < 0) by (rewrite Hdot; nra).
        assert (Ht1 : t * dot <= 0) by nra.
        assert (Ht2 : 0 <= t * t * lenSq) by (apply Rmult_le_pos; nra).
        lra.
    + destruct (gtb_reflect param 1) as [Hbig | Hsmall].
      * split.
        -- exists 1. split; [lra|]. subst C D. f_equal; ring.
        -- intros t Ht. cbn [fst snd]. rewrite Hsq, H1.
           assert (Hd : lenSq < dot) by (rewrite Hdot; nra).
           assert (Ht1 : 0 <= (1 - t) * (2 * dot - lenSq * (1 + t)))
             by (apply Rmult_le_pos; nra).
           lra.
      * split.
        -- exists param. split; [lra | reflexivity].
        -- intros t Ht. cbn [fst snd]. rewrite !Hsq.
           assert (Hdiff : (A * A + B * B) - 2 * t * dot + t * t * lenSq
                           - ((A * A + B * B) - 2 * param * dot + param * param * lenSq)
                           = lenSq * ((t - param) * (t - param))).
           { rewrite Hdot at 1 2. ring. }
           assert (0 <= lenSq * ((t - param) * (t - param)))
             by (apply Rmult_le_pos; [lra | exact (Rle_0_sqr (t - param))]).
           lra.
  - assert (Hz' : lenSq = 0) by (destruct (Req_dec_T lenSq 0); [assumption | contradiction]).
    assert (HC : C = 0) by (subst lenSq; nra).
    assert (HD : D = 0) by (subst lenSq; nra).
    destruct (ltb_reflect (-1) 0) as [_ | Hno]; [|lra].
    split.
    + exists 0. split; [lra|]. f_equal; ring.
    + intros t Ht. cbn [fst snd]. rewrite HC, HD.
      replace (x1 + t * 0) with x1 by ring. replace (y1 + t * 0) with y1 by ring.
      lra.
Qed.

(** X22.  [isPointNearLine] is true exactly when some point of the segment
    is at a distance below the tolerance from the given point. *)
Theorem near_line_iff_near_segment (px py x1 y1 x2 y2 tolerance : R) :
  isPointNearLine px py x1 y1 x2 y2 tolerance = true
  <-> exists t, 0 <= t <= 1
        /\ sqrt ((px - fst (along x1 y1 x2 y2 t)) * (px - fst (along x1 y1 x2 y2 t))
                 + (py - snd (along x1 y1 x2 y2 t)) * (py - snd (along x1 y1 x2 y2 t)))
           < tolerance.
Proof.
  destruct (nearest_is_nearest px py x1 y1 x2 y2) as [(t0 & Ht0 & Hnear) Hmin].
  unfold isPointNearLine.
  destruct (nearest px py x1 y1 x2 y2) as [xx yy] eqn:Hn. cbn [fst snd] in Hmin.
  destruct (ltb_reflect (sqrt ((px - xx) * (px - xx) + (py - yy) * (py - yy)))
                        tolerance) as [Hlt | Hge].
  - split; [intros _ | reflexivity].
    exists t0. split; [exact Ht0|]. rewrite <- Hnear. exact Hlt.
  - split; [discriminate|]. intros (t & Ht & Hlt). exfalso. apply Hge.
    eapply Rle_lt_trans; [|exact Hlt]. apply sqrt_le_1_alt, Hmin, Ht.
Qed.

End HitTestFacts.

(** ** Resizing above the floor, dropping a node *)

Section MoreGestureFacts.
Import CanvasManager Interaction.
Local Open Scope R_scope.

(** X23.  Resizing: while the requested size stays above the floor, a
    pointer move takes the corner under the handle along by exactly what
    the pointer has moved on the canvas, and leaves the opposite corner
    where it was. *)
Theorem resize_corner_follows_pointer (rect : Rect) (e : MouseEvent) (st : State)
    (sel node : Node) (c : Corner) :
  isDragging (gesture st) = false -> isResizing (gesture st) = true ->
  resizeDirection (gesture st) = Some c ->
  selected_node st = Some sel ->
  find (has_nid (nid sel)) (nodes (graph st)) = Some node ->
  let p := viewportToCanvas rect st (clientX e) (clientY e) in
  let dx := fst p - startX (gesture st) in
  let dy := snd p - startY (gesture st) in
  50 <= requested_width c dx node -> 30 <= requested_height c dy node ->
  exists node',
    find (has_nid (nid sel))
         (nodes (graph (CanvasManager.handleMouseMove rect e st))) = Some node'
    /\ corner c node' = (fst (corner c node) + dx, snd (corner c node) + dy)
    /\ corner (opposite c) node' = corner (opposite c) node.
Proof.
  intros Hdrag Hres Hdir Hsel Hfind p dx dy Hw Hh.
  exists (resize (Some c) dx dy node).
  split; [|split].
  - unfold CanvasManager.handleMouseMove.
    cbn [gesture with_gesture isDragging isResizing isPanning resizeDirection
         startX startY].
    change (selected_node (with_gesture _ st)) with (selected_node st).
    change (viewportToCanvas rect (with_gesture _ st) (clientX e) (clientY e))
      with p.
    subst dx dy. destruct p as [x y]. cbn [fst snd].
    rewrite Hdrag, Hres, Hsel, Hdir. unfold gesture_on_node.
    cbn [graph with_gesture]. rewrite Hfind. cbn [graph nodes].
    apply find_update_first; [|exact Hfind]. intros n. apply resize_nid.
  - destruct c; cbn [requested_width requested_height] in Hw, Hh;
      cbn [resize corner nx ny width height fst snd];
      rewrite !Rmax_floor_inactive by assumption; f_equal; lra.
  - apply resize_keeps_opposite_corner; assumption.
Qed.

Lemma resize_corner_follows_pointer_witness :
  exists node',
    find (has_nid "node_1")
         (nodes (graph (CanvasManager.handleMouseMove origin_rect
                          (mkMouseEvent 80 50) resizing_sample))) = Some node'
    /\ corner se node'
       = (fst (corner se process_sample)
          + (fst (viewportToCanvas origin_rect resizing_sample 80 50) - 60),
          snd (corner se process_sample)
          + (snd (viewportToCanvas origin_rect resizing_sample 80 50) - 30))
    /\ corner (opposite se) node' = corner (opposite se) process_sample.
Proof.
  apply (resize_corner_follows_pointer origin_rect (mkMouseEvent 80 50)
           resizing_sample process_sample process_sample se);
    try reflexivity; cbn; lra.
Defined.

(** X24.  Dropping a palette item of a known type with no node selected
    puts a node with its centre at the canvas point under the pointer, and
    a hit test at that point then answers with the new node. *)
Theorem dropped_node_is_hit (ty : string) (t : NodeTypes.NodeType) (rect : Rect)
    (e : MouseEvent) (ui : UI) :
  NodeTypes.lookup ty = Some t ->
  selected_node (state ui) = None ->
  let p := viewportToCanvas rect (state ui) (clientX e) (clientY e) in
  let st' := state (ui_step (Drop ty rect e) ui) in
  exists n,
    nodes (graph st') = (nodes (graph (state ui)) ++ [n])%list
    /\ nodeType n = ty /\ nx n = fst p /\ ny n = snd p
    /\ getItemAtPosition st' (fst p) (snd p) = Some (NodeItem n).
Proof.
  intros Hty Hsel p st'. subst st'. cbn [ui_step on_state state].
  fold p. destruct p as [x y]. cbn [fst snd].
  unfold addNode. rewrite Hty. cbn [snd].
  eexists. split; [reflexivity|]. split; [reflexivity|].
  split; [reflexivity|]. split; [reflexivity|].
  unfold getItemAtPosition, handle_hit.
  change (selected_node (with_graph _ (state ui))) with (selected_node (state ui)).
  rewrite Hsel. cbn [graph with_graph nodes]. rewrite rev_app_distr.
  cbn [rev app find]. unfold node_hit at 1. cbn [nodeType]. rewrite Hty.
  destruct (default_sizes ty t Hty) as [Hw Hh].
  match goal with |- context [NodeTypes.containsPoint t ?n x y] =>
    pose proof (centre_is_hit ty t n Hty ltac:(cbn; lra) ltac:(cbn; lra)) as Hc end.
  cbn [nx ny] in Hc. rewrite Hc. reflexivity.
Qed.

Lemma dropped_node_is_hit_witness :
  exists n,
    nodes (graph (state (ui_step (Drop "decision" origin_rect (mkMouseEvent 40 40))
                           ui_init)))
    = (nodes (graph (state ui_init)) ++ [n])%list
    /\ nodeType n = "decision"%string
    /\ nx n = fst (viewportToCanvas origin_rect (state ui_init) 40 40)
    /\ ny n = snd (viewportToCanvas origin_rect (state ui_init) 40 40)
    /\ getItemAtPosition
         (state (ui_step (Drop "decision" origin_rect (mkMouseEvent 40 40)) ui_init))
         (fst (viewportToCanvas origin_rect (state ui_init) 40 40))
         (snd (viewportToCanvas origin_rect (state ui_init) 40 40))
       = Some (NodeItem n).
Proof.
  apply (dropped_node_is_hit "decision" NodeTypes.decision origin_rect
           (mkMouseEvent 40 40) ui_init); reflexivity.
Defined.

End MoreGestureFacts.

(** ** utils.js: distance *)

Section DistanceFacts.
Import Interaction.
Local Open Scope R_scope.

(** X25.  [distance] is never negative, does not depend on the order of the
    two points, and is zero for a point and itself. *)
Theorem distance_nonnegative_symmetric (x1 y1 x2 y2 : R) :
  0 <= distance x1 y1 x2 y2
  /\ distance x1 y1 x2 y2 = distance x2 y2 x1 y1
  /\ distance x1 y1 x1 y1 = 0.
Proof.
  unfold distance. split; [apply sqrt_pos|]. split.
  - f_equal. ring.
  - replace ((x1 - x1) ^ 2 + (y1 - y1) ^ 2) with 0 by ring. apply sqrt_0.
Qed.

End DistanceFacts.

(** ** The exported image shows every node *)

Section ExportFacts.
Import NodeTypes ExportImage.
Local Open Scope R_scope.

Lemma grow_boxes (acc : option Bounds) (node : Node) :
  exists b, grow acc node = Some b /\ boxed b node
            /\ forall a, acc = Some a -> ExportImage.extends a b.
Proof.
  unfold grow, boxed, ExportImage.extends. destruct acc as [a|]; eexists;
    (split; [reflexivity|]); cbn [minX minY maxX maxY].
  - split.
    + repeat split; try apply Rmin_r; apply Rmax_r.
    + intros a' H. injection H as <-.
      repeat split; try apply Rmin_l; apply Rmax_l.
  - split; [repeat split; lra | intros a' H; discriminate].
Qed.

Lemma fold_grow_boxes (ns : list Node) :
  forall a : Bounds,
    exists b, fold_left grow ns (Some a) = Some b /\ ExportImage.extends a b
              /\ forall node, In node ns -> boxed b node.
Proof.
  induction ns as [| n ns IH]; intros a; cbn [fold_left].
  - exists a. split; [reflexivity|]. split; [unfold ExportImage.extends; lra|].
    intros node [].
  - destruct (grow_boxes (Some a) n) as (b1 & -> & Hn & Hext).
    specialize (Hext a eq_refl).
    destruct (IH b1) as (b & -> & Hext' & Hns).
    exists b. split; [reflexivity|].
    unfold ExportImage.extends, boxed in *.
    split; [lra|]. intros node [<- | Hin]; [lra | exact (Hns node Hin)].
Qed.

Lemma frame_boxes (ns : list Node) (node : Node) :
  In node ns ->
  exists f, frame ns = Some f
            /\ minX f + 50 <= nx node - width node / 2
            /\ nx node + width node / 2 <= maxX f - 50
            /\ minY f + 50 <= ny node - height node / 2
            /\ ny node + height node / 2 <= maxY f - 50.
Proof.
  intros Hin. unfold frame. destruct ns as [| n ns]; [destruct Hin|].
  cbn [fold_left]. destruct (grow_boxes None n) as (b1 & -> & Hn & _).
  destruct (fold_grow_boxes ns b1) as (b & -> & Hext & Hns).
  eexists. split; [reflexivity|]. cbn [minX minY maxX maxY]. unfold padding.
  assert (Hb : boxed b node).
  { destruct Hin as [<- | Hin]; [|exact (Hns node Hin)].
    unfold ExportImage.extends, boxed in *. lra. }
  unfold boxed in Hb. lra.
Qed.

(** How far the outline of a node reaches from its centre. *)
Lemma outline_reach (t : NodeType) (node : Node) (p : Point) :
  lookup (nodeType node) = Some t ->
  0 < width node -> 0 < height node ->
  on_outline (node_outline t node) p ->
  let r := if String.eqb (nodeType node) "input" then width node / 4 else 0 in
  nx node - width node / 2 - r <= fst p <= nx node + width node / 2 + r
  /\ ny node - height node / 2 <= snd p <= ny node + height node / 2.
Proof.
  intros Hty Hw Hh. destruct p as [px py]. unfold lookup in Hty.
  cbn [fst snd].
  set (w := width node) in *. set (h := height node) in *.
  assert (Hoval : on_outline (oval_draw (nx node) (ny node) w h) (px, py) ->
            nx node - w / 2 - 0 <= px <= nx node + w / 2 + 0
            /\ ny node - h / 2 <= py <= ny node + h / 2).
  { cbv [on_outline oval_draw fst snd].
    set (u := (px - nx node) / (w / 2)). set (v := (py - ny node) / (h / 2)).
    intros H.
    assert (Hu : px - nx node = u * (w / 2)) by (subst u; field; lra).
    assert (Hv : py - ny node = v * (h / 2)) by (subst v; field; lra).
    assert (Hu1 : -1 <= u <= 1) by nra.
    assert (Hv1 : -1 <= v <= 1) by nra.
    split; split; nra. }
  destruct (String.eqb (nodeType node) "start"); [injection Hty as <-|].
  { cbn zeta. destruct (String.eqb _ "input"); intros H; apply Hoval in H; lra. }
  destruct (String.eqb (nodeType node) "process"); [injection Hty as <-|].
  { cbv [on_outline node_outline draw process process_draw on_closed_path
         on_open_path app on_segment fst snd]. fold w h.
    destruct (String.eqb _ "input");
      intros [H | [H | [H | [H | []]]]]; destruct H as (k & [Hk0 Hk1] & -> & ->);
      split; split; nra. }
  destruct (String.eqb (nodeType node) "decision"); [injection Hty as <-|].
  { cbv [on_outline node_outline draw decision decision_draw on_closed_path
         on_open_path app on_segment fst snd]. fold w h.
    destruct (String.eqb _ "input");
      intros [H | [H | [H | [H | []]]]]; destruct H as (k & [Hk0 Hk1] & -> & ->);
      split; split; nra. }
  destruct (String.eqb (nodeType node) "input"); [injection Hty as <-|].
  { cbv [on_outline node_outline draw input input_draw on_closed_path
         on_open_path app on_segment fst snd]. fold w h.
    intros [H | [H | [H | [H | []]]]]; destruct H as (k & [Hk0 Hk1] & -> & ->);
      split; split; nra. }
  destruct (String.eqb (nodeType node) "end"); [injection Hty as <-|discriminate].
  intros H; apply Hoval in H; lra.
Qed.

(** X26.  The image [exportAsPNG] makes of a flowchart shows the whole
    outline of every node of a known type and positive size, provided an
    input node is at most 200 wide: the slanted sides of a parallelogram
    reach a quarter of its width beyond the bounding box the frame is
    computed from, and the padding is 50. *)
Theorem export_shows_every_outline (ns : list Node) (node : Node) (t : NodeType)
    (p : Point) :
  In node ns ->
  lookup (nodeType node) = Some t ->
  0 < width node -> 0 < height node ->
  (nodeType node = "input"%string -> width node <= 200) ->
  on_outline (node_outline t node) p ->
  exists f, frame ns = Some f /\ on_image f (pixel f p).
Proof.
  intros Hin Hty Hw Hh Hinput Hp.
  destruct (frame_boxes ns node Hin) as (f & Hf & Hx1 & Hx2 & Hy1 & Hy2).
  exists f. split; [exact Hf|].
  pose proof (outline_reach t node p Hty Hw Hh Hp) as Hreach. cbn zeta in Hreach.
  unfold on_image, pixel. cbn [fst snd].
  destruct (String.eqb_spec (nodeType node) "input") as [Heq | Hne].
  - specialize (Hinput Heq). lra.
  - lra.
Qed.

Lemma export_shows_every_outline_witness :
  exists f, frame [decision_sample] = Some f /\ on_image f (pixel f (60, 0)).
Proof.
  apply (export_shows_every_outline [decision_sample] decision_sample decision (60, 0)).
  - left. reflexivity.
  - reflexivity.
  - cbn. lra.
  - cbn. lra.
  - discriminate.
  - exact decision_sample_east_vertex.
Defined.

End ExportFacts.

(** ** Wrapping the text of a node *)

Section WrapFacts.
Import WrapText.
Local Open Scope list_scope.

Variable measureText : string -> R.

Lemma append_cons (c : ascii) (a b : string) : String c a +:+ b = String c (a +:+ b).
Proof. reflexivity. Qed.

Lemma append_empty_r (a : string) : a +:+ "" = a.
Proof. induction a as [| c a IH]; [reflexivity | rewrite append_cons, IH; reflexivity]. Qed.

Lemma append_assoc (a b c : string) : (a +:+ b) +:+ c = a +:+ (b +:+ c).
Proof.
  induction a as [| x a IH]; [reflexivity | rewrite !append_cons, IH; reflexivity].
Qed.

Lemma concat_cons (sep x : string) (l : list string) :
  l <> [] -> String.concat sep (x :: l) = x +:+ sep +:+ String.concat sep l.
Proof. destruct l; [contradiction | reflexivity]. Qed.

Lemma concat_merge (sep : string) (lines : list string) (x y : string)
    (rest : list string) :
  String.concat sep (lines ++ (x +:+ sep +:+ y) :: rest)
  = String.concat sep (lines ++ x :: y :: rest).
Proof.
  induction lines as [| l lines IH]; cbn [app].
  - rewrite (concat_cons sep x (y :: rest)) by discriminate.
    destruct rest as [| z rest]; [reflexivity|].
    rewrite !concat_cons by discriminate. rewrite !append_assoc. reflexivity.
  - rewrite !concat_cons by (destruct lines; discriminate). rewrite IH. reflexivity.
Qed.

Lemma split_joins (text : string) :
  String.concat " " (fst (split text) :: snd (split text)) = text.
Proof.
  induction text as [| c rest IH]; [reflexivity|].
  cbn [split]. destruct (split rest) as [word words]. cbn [fst snd] in IH.
  destruct (Ascii.eqb_spec c " "%char) as [-> | Hne]; cbn [fst snd].
  - rewrite concat_cons by discriminate. rewrite IH. reflexivity.
  - destruct words as [| w ws].
    + cbn [String.concat] in IH |- *. rewrite IH. reflexivity.
    + rewrite concat_cons in IH |- * by discriminate.
      rewrite append_cons, IH. reflexivity.
Qed.

Lemma wrap_joins (maxWidth : R) (words : list string) :
  forall currentLine lines,
    String.concat " " (wrap measureText maxWidth currentLine lines words)
    = String.concat " " (lines ++ currentLine :: words).
Proof.
  induction words as [| word rest IH]; intros currentLine lines; cbn [wrap];
    [reflexivity|].
  destruct (NodeTypes.ltb _ _); rewrite IH.
  - apply concat_merge.
  - rewrite <- app_assoc. reflexivity.
Qed.

Lemma wrap_lines (maxWidth : R) (words : list string) :
  forall currentLine lines (P : string -> Prop),
    List.Forall P lines -> P currentLine ->
    (forall w, In w words -> P w) ->
    (forall l, (measureText l < maxWidth)%R -> P l) ->
    List.Forall P (wrap measureText maxWidth currentLine lines words).
Proof.
  induction words as [| word rest IH]; intros currentLine lines P Hl Hc Hw Hfit;
    cbn [wrap].
  - apply List.Forall_app. split; [exact Hl | repeat constructor; exact Hc].
  - destruct (ltb_reflect (measureText (currentLine +:+ " " +:+ word)) maxWidth)
      as [Hlt | Hge].
    + apply IH; auto. intros w Hin. apply Hw. right. exact Hin.
    + apply IH; auto.
      * apply List.Forall_app. split; [exact Hl | repeat constructor; exact Hc].
      * apply Hw. left. reflexivity.
      * intros w Hin. apply Hw. right. exact Hin.
Qed.

(** X27.  [wrapText] loses nothing: the lines it returns, joined by single
    spaces, are the text; there is at least one line; and every line is
    narrower than [maxWidth] or is a single word of the text, which is
    never broken. *)
Theorem wrapText_keeps_text (text : string) (maxWidth : R) :
  String.concat " " (wrapText measureText text maxWidth) = text
  /\ wrapText measureText text maxWidth <> []
  /\ List.Forall
       (fun line => (measureText line < maxWidth)%R
                    \/ In line (fst (split text) :: snd (split text)))
       (wrapText measureText text maxWidth).
Proof.
  unfold wrapText. destruct (String.eqb_spec text "") as [-> | Hne].
  - split; [reflexivity|]. split; [discriminate|].
    constructor; [right; left; reflexivity | constructor].
  - pose proof (split_joins text) as Hjoin.
    destruct (split text) as [first words]. cbn [fst snd] in *.
    split; [rewrite wrap_joins; exact Hjoin|]. split.
    + intros H. apply (f_equal (@length string)) in H. revert H.
      clear. generalize (@nil string) at 1. revert first.
      induction words as [| w ws IH]; intros first lines; cbn [wrap].
      * rewrite length_app. cbn. lia.
      * destruct (NodeTypes.ltb _ _); apply IH.
    + apply wrap_lines.
      * constructor.
      * right. left. reflexivity.
      * intros w Hw. right. right. exact Hw.
      * intros l Hl. left. exact Hl.
Qed.

End WrapFacts.

(** ** Drawing an edge with the connect tool *)

Section ConnectFacts.
Import CanvasManager Interaction.
Local Open Scope R_scope.

(** X28.  With the connect tool and no connection under way, on a
    flowchart with no node whose type is a name inherited from
    [Object.prototype], pressing on a node and then on a node with another
    id draws the edge from the first to the second, with a fresh id and an
    empty label, unless that edge exists; nothing else in the graph
    changes.  (Whether the connection is over after the second press
    depends on the listener [addEdge] calls: the handler resets
    [connectionStartNode] only when the listener returns.) *)
Theorem two_presses_draw_edge (rect : Rect) (e1 e2 : MouseEvent) (st : State)
    (n1 n2 : Node) :
  mode st = "connect"%string ->
  connectionStartNode st = None ->
  ObjectPrototype.table_types (nodes (graph st)) = true ->
  getItemAtPosition st (fst (viewportToCanvas rect st (clientX e1) (clientY e1)))
                       (snd (viewportToCanvas rect st (clientX e1) (clientY e1)))
  = Some (NodeItem n1) ->
  getItemAtPosition st (fst (viewportToCanvas rect st (clientX e2) (clientY e2)))
                       (snd (viewportToCanvas rect st (clientX e2) (clientY e2)))
  = Some (NodeItem n2) ->
  nid n1 <> ""%string -> nid n2 <> nid n1 ->
  existsb (same_ends (nid n1) (nid n2)) (edges (graph st)) = false ->
  let st' := handleMouseDown rect e2 (handleMouseDown rect e1 st) in
  edges (graph st')
  = (edges (graph st)
     ++ [mkEdge (edge_id (S (edgeCounter (graph st)))) (nid n1) (nid n2) ""])%list
  /\ nodes (graph st') = nodes (graph st).
Proof.
  intros Hmode Hstart _ Hhit1 Hhit2 Hid1 Hne Hnew st'.
  assert (Hdown1 : handleMouseDown rect e1 st
                   = with_connection (Some (nid n1))
                       (set_start (fst (viewportToCanvas rect st (clientX e1) (clientY e1)))
                                  (snd (viewportToCanvas rect st (clientX e1) (clientY e1)))
                                  st)).
  { unfold handleMouseDown.
    destruct (viewportToCanvas rect st (clientX e1) (clientY e1)) as [x y].
    cbn [fst snd] in *.
    change (mode (set_start x y st)) with (mode st). rewrite Hmode.
    cbn [String.eqb Ascii.eqb Bool.eqb].
    change (getItemAtPosition (set_start x y st) x y)
      with (getItemAtPosition st x y).
    rewrite Hhit1.
    change (connectionStartNode (set_start x y st)) with (connectionStartNode st).
    rewrite Hstart. reflexivity. }
  subst st'. rewrite Hdown1.
  set (st1 := with_connection _ _).
  unfold handleMouseDown.
  change (viewportToCanvas rect st1 (clientX e2) (clientY e2))
    with (viewportToCanvas rect st (clientX e2) (clientY e2)).
  destruct (viewportToCanvas rect st (clientX e2) (clientY e2)) as [x y].
  cbn [fst snd] in *.
  change (mode (set_start x y st1)) with (mode st). rewrite Hmode.
  cbn [String.eqb Ascii.eqb Bool.eqb].
  change (getItemAtPosition (set_start x y st1) x y)
    with (getItemAtPosition st x y).
  rewrite Hhit2.
  change (connectionStartNode (set_start x y st1)) with (Some (nid n1)).
  cbv beta iota.
  apply String.eqb_neq in Hid1, Hne. rewrite Hid1, Hne. cbn [negb].
  rewrite addEdge_fresh by exact Hnew.
  cbn [snd with_connection with_graph graph edges nodes connectionStartNode].
  repeat split.
Qed.

Lemma connect_sample_hits (x y : R) :
  (x = 0 /\ y = 0 ->
   getItemAtPosition connect_sample x y
   = Some (NodeItem (mkNode "node_1" "start" 0 0 100 50 "Start")))
  /\ (x = 200 /\ y = 0 ->
      getItemAtPosition connect_sample x y
      = Some (NodeItem (mkNode "node_2" "end" 200 0 100 50 "End"))).
Proof.
  unfold getItemAtPosition.
  change (handle_hit connect_sample x y) with (@None Item).
  change (nodes (graph connect_sample))
    with [mkNode "node_1" "start" 0 0 100 50 "Start";
          mkNode "node_2" "end" 200 0 100 50 "End"].
  cbn [rev app find]. unfold node_hit. cbn [nodeType NodeTypes.lookup String.eqb
    Ascii.eqb Bool.eqb NodeTypes.containsPoint NodeTypes.start NodeTypes.end_].
  unfold NodeTypes.oval_containsPoint. cbn [nx ny width height].
  split; intros [-> ->].
  - destruct (leb_reflect ((0 - 200) / (100 / 2) * ((0 - 200) / (100 / 2))
                           + (0 - 0) / (50 / 2) * ((0 - 0) / (50 / 2))) 1)
      as [H | H]; [exfalso; lra|].
    rewrite leb_true by lra. reflexivity.
  - rewrite leb_true by lra. reflexivity.
Qed.

Lemma two_presses_draw_edge_witness :
  edges (graph (handleMouseDown origin_rect (mkMouseEvent 0 0)
                  (handleMouseDown origin_rect (mkMouseEvent 200 0) connect_sample)))
  = (edges (graph connect_sample)
     ++ [mkEdge (edge_id (S (edgeCounter (graph connect_sample))))
                "node_2" "node_1" ""])%list
  /\ nodes (graph (handleMouseDown origin_rect (mkMouseEvent 0 0)
                     (handleMouseDown origin_rect (mkMouseEvent 200 0)
                        connect_sample)))
     = nodes (graph connect_sample).
Proof.
  apply (two_presses_draw_edge origin_rect (mkMouseEvent 200 0) (mkMouseEvent 0 0)
           connect_sample
           (mkNode "node_2" "end" 200 0 100 50 "End")
           (mkNode "node_1" "start" 0 0 100 50 "Start")).
  - reflexivity.
  - reflexivity.
  - reflexivity.
  - apply (proj2 (connect_sample_hits _ _)). unfold viewportToCanvas. cbn. split; lra.
  - apply (proj1 (connect_sample_hits _ _)). unfold viewportToCanvas. cbn. split; lra.
  - discriminate.
  - discriminate.
  - reflexivity.
Defined.

End ConnectFacts.

(** ** A saved flowchart opens again *)

Section AppFacts.
Import CanvasManager App.
Local Open Scope list_scope.



End AppFacts.

Section DragConnectFacts.
Import CanvasManager Interaction.
Local Open Scope R_scope.



End DragConnectFacts.

(** ** A stale hover: a dangling edge drawn with the pointer *)

Section StaleHover.
Import CanvasManager Interaction.
Local Open Scope R_scope.

Lemma origin_view (st : State) (cx cy : R) :
  camera st = mkCamera 1 0 0 ->
  viewportToCanvas origin_rect st cx cy = (cx, cy).
Proof.
  intros Hc. unfold viewportToCanvas. rewrite Hc.
  cbn [scale offsetX offsetY left top origin_rect]. f_equal; field.
Qed.

Lemma item_without_selection (st : State) (x y : R) :
  selectedItem st = None ->
  getItemAtPosition st x y
  = match find (node_hit x y) (rev (nodes (graph st))) with
    | Some node => Some (NodeItem node)
    | None =>
        match find (edge_hit (nodes (graph st)) x y) (rev (edges (graph st))) with
        | Some edge => Some (EdgeItem edge)
        | None => None
        end
    end.
Proof.
  intros Hsel. unfold getItemAtPosition, handle_hit, selected_node.
  rewrite Hsel. reflexivity.
Qed.

Lemma process_hits :
  node_hit 0 0 process_sample = true
  /\ node_hit 0 0 second_process = false
  /\ node_hit 200 0 second_process = true.
Proof.
  unfold node_hit, process_sample, second_process.
  cbn [nodeType NodeTypes.lookup String.eqb Ascii.eqb Bool.eqb
       NodeTypes.containsPoint NodeTypes.process].
  unfold NodeTypes.process_containsPoint. cbn [nx ny width height].
  split; [|split].
  - rewrite !leb_true; [reflexivity | |]; apply Rabs_le_iff; lra.
  - destruct (leb_reflect (Rabs (0 - 200)) (120 / 2)) as [H | H]; [|reflexivity].
    exfalso. unfold Rabs in H. destruct (Rcase_abs (0 - 200)); lra.
  - rewrite !leb_true; [reflexivity | |]; apply Rabs_le_iff; lra.
Qed.

Ltac fields :=
  cbv [state hoveredItem graph camera gesture selectedItem mode
       connectionStartNode currentFlowchartName nodes edges nodeCounter
       edgeCounter isDragging isPanning isResizing resizeDirection startX startY
       lastMouseX lastMouseY with_graph with_camera with_gesture with_connection
       with_mode selectItem set_start selected_node clientX clientY nid eid
       sourceId targetId process_sample second_process
       String.eqb Ascii.eqb Bool.eqb negb andb orb rev app find fst snd].

Lemma session_drops :
  ui_run [Drop "process" origin_rect (mkMouseEvent 0 0);
          Drop "process" origin_rect (mkMouseEvent 200 0);
          SetMode "connect"] ui_init
  = mkUI (mkState (mkGraph [process_sample; second_process] [] 2 0)
                  (mkCamera 1 0 0) (mkGesture false false false None 0 0 0 0)
                  None "connect" None None) None.
Proof.
  unfold ui_run. cbn [fold_left]. unfold ui_step, on_state.
  cbn [state hoveredItem ui_init clientX clientY].
  rewrite !origin_view by reflexivity. reflexivity.
Qed.

Lemma session_hover :
  ui_run [MouseDown origin_rect (mkMouseEvent 0 0);
          MouseMove origin_rect (mkMouseEvent 0 0);
          MouseUp]
    (mkUI (mkState (mkGraph [process_sample; second_process] [] 2 0)
                   (mkCamera 1 0 0) (mkGesture false false false None 0 0 0 0)
                   None "connect" None None) None)
  = mkUI (mkState (mkGraph [process_sample; second_process] [] 2 0)
                  (mkCamera 1 0 0) (mkGesture false false false None 0 0 0 0)
                  None "connect" (Some "node_1"%string) None)
         (Some (NodeItem process_sample)).
Proof.
  destruct process_hits as (H1 & H2 & H3).
  unfold process_sample, second_process in H1, H2, H3.
  unfold ui_run. cbn [fold_left]. unfold ui_step, on_state. fields.
  unfold handleMouseDown. fields.
  rewrite !origin_view by reflexivity.
  rewrite item_without_selection by reflexivity. fields.
  rewrite H2, H1. fields.
  unfold handleMouseMove, hovering, CanvasManager.handleMouseMove. fields.
  rewrite !origin_view by reflexivity.
  rewrite item_without_selection by reflexivity. fields.
  rewrite H2, H1.
  unfold handleMouseUp. fields. reflexivity.
Qed.

Lemma session_delete :
  ui_run [SetMode "delete";
          MouseDown origin_rect (mkMouseEvent 0 0);
          MouseUp]
    (mkUI (mkState (mkGraph [process_sample; second_process] [] 2 0)
                   (mkCamera 1 0 0) (mkGesture false false false None 0 0 0 0)
                   None "connect" (Some "node_1"%string) None)
          (Some (NodeItem process_sample)))
  = mkUI (mkState (mkGraph [second_process] [] 2 0)
                  (mkCamera 1 0 0) (mkGesture false false false None 0 0 0 0)
                  None "delete" None None)
         (Some (NodeItem process_sample)).
Proof.
  destruct process_hits as (H1 & H2 & H3).
  unfold process_sample, second_process in H1, H2, H3.
  unfold ui_run. cbn [fold_left]. unfold ui_step, on_state, setMode. fields.
  unfold handleMouseDown. fields.
  rewrite !origin_view by reflexivity.
  rewrite item_without_selection by reflexivity. fields.
  rewrite H2, H1. fields.
  unfold handleMouseUp, deleteItem. fields. reflexivity.
Qed.

Lemma session_connect :
  ui_run [SetMode "connect";
          MouseDown origin_rect (mkMouseEvent 200 0);
          MouseUp]
    (mkUI (mkState (mkGraph [second_process] [] 2 0)
                   (mkCamera 1 0 0) (mkGesture false false false None 0 0 0 0)
                   None "delete" None None)
          (Some (NodeItem process_sample)))
  = mkUI (mkState (mkGraph [second_process]
                           [mkEdge "edge_1" "node_2" "node_1" ""] 2 1)
                  (mkCamera 1 0 0) (mkGesture false false false None 200 0 0 0)
                  None "connect" (Some "node_2"%string) None)
         (Some (NodeItem process_sample)).
Proof.
  destruct process_hits as (H1 & H2 & H3).
  unfold process_sample, second_process in H1, H2, H3.
  unfold ui_run. cbn [fold_left]. unfold ui_step, on_state, setMode. fields.
  unfold handleMouseDown. fields.
  rewrite !origin_view by reflexivity.
  rewrite item_without_selection by reflexivity. fields.
  rewrite H3. fields.
  unfold handleMouseUp, addEdge. fields. reflexivity.
Qed.

Lemma ui_run_app (l l' : list Event) (ui : UI) :
  ui_run (l ++ l') ui = ui_run l' (ui_run l ui).
Proof. unfold ui_run. apply fold_left_app. Qed.

(** C6.  The pointer handlers leave a dangling edge.  From the empty
    canvas: two process nodes are dropped; with the connect tool the first
    is pressed, the pointer moves on it and is released, which leaves it in
    [hoveredItem]; with the delete tool a press deletes the first node, and
    [hoveredItem] keeps the deleted node; with the connect tool a press on
    the second node followed by a release, with no move in between, makes
    [handleMouseUp] call [addEdge] with the id of the deleted node.  The
    graph then holds the second node alone and an edge from it to
    ["node_1"], the id of no node. *)
Theorem stale_hover_draws_dangling_edge :
  graph (state (ui_run stale_hover_session ui_init))
  = mkGraph [second_process] [mkEdge "edge_1" "node_2" "node_1" ""] 2 1
  /\ ~ no_dangling (graph (state (ui_run stale_hover_session ui_init))).
Proof.
  assert (Hrun : graph (state (ui_run stale_hover_session ui_init))
                 = mkGraph [second_process]
                           [mkEdge "edge_1" "node_2" "node_1" ""] 2 1).
  { change stale_hover_session
      with ([Drop "process" origin_rect (mkMouseEvent 0 0);
             Drop "process" origin_rect (mkMouseEvent 200 0);
             SetMode "connect"]
            ++ [MouseDown origin_rect (mkMouseEvent 0 0);
                MouseMove origin_rect (mkMouseEvent 0 0);
                MouseUp]
            ++ [SetMode "delete";
                MouseDown origin_rect (mkMouseEvent 0 0);
                MouseUp]
            ++ [SetMode "connect";
                MouseDown origin_rect (mkMouseEvent 200 0);
                MouseUp])%list.
    rewrite ui_run_app, session_drops, ui_run_app, session_hover, ui_run_app,
      session_delete, session_connect. reflexivity. }
  split; [exact Hrun|]. rewrite Hrun. intros H.
  destruct (H (mkEdge "edge_1" "node_2" "node_1" "") (or_introl eq_refl))
    as [_ (n & Hn & Hid)].
  destruct Hn as [<- | []]. discriminate Hid.
Qed.

End StaleHover.

(** ** Adding a node whose type is an inherited name *)

Section InheritedNames.
Import CanvasManager ObjectPrototype.
Local Open Scope R_scope.

(** For a type that is no inherited name, [addNode] on node objects is
    [CanvasManager.addNode]. *)
Lemma addNode_on_table (ty : string) (x y : R) (st : State) :
  inherited ty = false ->
  ObjectPrototype.addNode ty x y (store_of (graph st))
  = (option_map object_of (fst (CanvasManager.addNode ty x y st)),
     store_of (graph (snd (CanvasManager.addNode ty x y st)))).
Proof.
  intros Hty. unfold ObjectPrototype.addNode, CanvasManager.addNode, entry.
  destruct (NodeTypes.lookup ty) as [t|]; [|rewrite Hty; reflexivity].
  cbn [fst snd option_map graph with_graph store_of nodes nodeCounter counter
       objects entry_width entry_height].
  unfold store_of. cbn [nodes nodeCounter]. rewrite List.map_app. reflexivity.
Qed.

(** Every inherited name passes the guard of [addNode], and the node it
    stores has no size. *)
Lemma addNode_inherited (ty : string) (x y : R) (s : NodeStore) :
  inherited ty = true ->
  exists node,
    ObjectPrototype.addNode ty x y s
    = (Some node, mkNodeStore (objects s ++ [node]) (S (counter s)))
    /\ o_width node = Undefined /\ o_height node = Undefined.
Proof.
  unfold inherited, names. cbn [existsb]. intros H.
  repeat (apply orb_true_iff in H as [H | H];
          [apply String.eqb_eq in H; subst ty; eexists; split; [reflexivity|];
           split; reflexivity|]).
  discriminate H.
Qed.

(** C10.  The size floor fails for a node whose type is an inherited name.
    On the empty canvas [addNode("toString", 0, 0)], which is what the drop
    listener calls when the text "toString" is dropped at the origin, does
    not return [null]: it stores and counts a node whose [width] and
    [height] are [undefined], so the node is not at least 50 wide and 30
    high. *)
Theorem addNode_inherited_name_has_no_size :
  let node := mkNodeObject "node_1" "toString" 0 0 Undefined Undefined "ToString" in
  ObjectPrototype.addNode "toString" 0 0 (store_of (graph init))
  = (Some node, mkNodeStore [node] 1)
  /\ ~ floor_met node.
Proof.
  split; [reflexivity|]. intros [H _]. exact H.
Qed.

End InheritedNames.
